(** * Youtube-MCP: the tool logic of [main.py], embedded and verified

    The development follows [src/main.py].  Python values are embedded as
    follows.

    - [str] is a list of characters.  Characters are code points below 256
      ([ascii]); the character classes [\w], [\d] and [str.lower] are the
      ones CPython uses on that range.
    - [int] is [Z].
    - [float] is [Q]: a binary64 number is the rational it stands for.  Each
      arithmetic step on floats computes the exact result and rounds it to
      binary64 with [fl] (nearest, ties to even, subnormals included), as
      the processor does; [round(x, n)] rounds the exact value of [x] to [n]
      decimals, ties to even, and returns the binary64 number nearest to that
      decimal, as CPython does.  Overflow past the largest finite number,
      infinities, NaN and the sign of zero are not represented.
    - Exceptions are the constructors of [exn], one per [raise] site, and
      one for the [TypeError] that [sorted] raises on timestamps that cannot
      be compared.
    - The YouTube Data API, [urllib]'s host validation,
      [datetime.fromisoformat], [statistics.stdev] and [sum] over floats
      (whose rounding depends on the interpreter version) are collaborators:
      they are the fields of a [platform] record over which every tool is
      parameterised.  Each [_get] call advances a request counter, so a
      collaborator may answer the same request differently over time.
    - The two [while] loops over result pages carry a fuel argument; running
      out of fuel is the outcome [OutOfFuel]. *)

From Stdlib Require Import List ZArith QArith Qround Ascii String Bool Lia.
From Stdlib Require Import Sorted Permutation DecimalString DecimalNat Lqa Qabs.
From Stdlib Require Import Qpower.
Import ListNotations.

Set Implicit Arguments.

Local Open Scope Z_scope.

(* ------------------------------------------------------------------ *)
(** ** Text *)

Module Text.

Definition text := list ascii.

(** A literal of the source. *)
Definition lit (s : string) : text := list_ascii_of_string s.

Definition code (c : ascii) : nat := nat_of_ascii c.

Definition between (lo hi : nat) (c : ascii) : bool :=
  (Nat.leb lo (code c) && Nat.leb (code c) hi)%bool.

Definition is_char (a c : ascii) : bool := Ascii.eqb a c.

(** [c.isascii() and c.isalpha()] *)
Definition ascii_alpha (c : ascii) : bool :=
  (between 65 90 c || between 97 122 c)%bool.

(** [\d] of [re] on a [str] pattern. *)
Definition is_digit (c : ascii) : bool := between 48 57 c.

(** [\w] of [re] on a [str] pattern: [c.isalnum() or c == '_']. *)
Definition is_word (c : ascii) : bool :=
  (between 48 57 c || between 65 90 c || is_char "_" c || between 97 122 c
   || is_char "170" c || between 178 179 c || is_char "181" c
   || between 185 186 c || between 188 190 c || between 192 214 c
   || between 216 246 c || between 248 255 c)%bool.

(** [str.lower] on one character. *)
Definition lower_char (c : ascii) : ascii :=
  if (between 65 90 c || between 192 214 c || between 216 222 c)%bool
  then ascii_of_nat (code c + 32) else c.

Definition lower (s : text) : text := map lower_char s.

Fixpoint dropwhile (p : ascii -> bool) (s : text) : text :=
  match s with
  | [] => []
  | c :: r => if p c then dropwhile p r else s
  end.

Fixpoint takewhile (p : ascii -> bool) (s : text) : text :=
  match s with
  | [] => []
  | c :: r => if p c then c :: takewhile p r else []
  end.

(** [s.lstrip(chars)] and [s.rstrip(chars)], the set given as a predicate. *)
Definition lstrip (p : ascii -> bool) (s : text) : text := dropwhile p s.

Definition rstrip (p : ascii -> bool) (s : text) : text :=
  rev (dropwhile p (rev s)).

(** [c in s] *)
Definition has_char (c : ascii) (s : text) : bool := existsb (is_char c) s.

(** [s.split(c, 1)] when [c in s]: the text before the first [c] and the
    text after it. *)
Fixpoint break_at (c : ascii) (s : text) : option (text * text) :=
  match s with
  | [] => None
  | a :: r =>
      if is_char c a then Some ([], r)
      else match break_at c r with
           | Some (pre, post) => Some (a :: pre, post)
           | None => None
           end
  end.

(** [s.startswith(p)], returning the remainder. *)
Fixpoint strip_prefix (p s : text) : option text :=
  match p, s with
  | [], _ => Some s
  | _ :: _, [] => None
  | a :: p', b :: s' => if Ascii.eqb a b then strip_prefix p' s' else None
  end.

Definition starts_with (p s : text) : bool :=
  match strip_prefix p s with Some _ => true | None => false end.

(** [p in s] for a substring [p]. *)
Fixpoint contains (p s : text) : bool :=
  match s with
  | [] => starts_with p []
  | _ :: r => (starts_with p s || contains p r)%bool
  end.

(** [s.replace(a, b)] for single characters. *)
Definition replace_char (a b : ascii) (s : text) : text :=
  map (fun c => if is_char a c then b else c) s.

(** [sep.join(parts)] *)
Fixpoint join (sep : text) (parts : list text) : text :=
  match parts with
  | [] => []
  | [p] => p
  | p :: rest => p ++ sep ++ join sep rest
  end.

(** [s.split(sep)[-1]] for a non-empty [sep]: [str.split] scans from the
    left for non-overlapping occurrences of [sep]; [cur] collects, in
    reverse, the piece being read.  The recursion is on the text, the
    skipped separator being consumed one character per step through [skip]. *)
Fixpoint last_piece_aux (sep : text) (skip : nat) (cur : text) (s : text)
  : text :=
  match s with
  | [] => rev cur
  | c :: r =>
      match skip with
      | S k => last_piece_aux sep k cur r
      | O =>
          if starts_with sep s
          then last_piece_aux sep (List.length sep - 1) [] r
          else last_piece_aux sep 0 (c :: cur) r
      end
  end.

Definition split_last (sep s : text) : text := last_piece_aux sep 0 [] s.

End Text.
Import Text.

(* ------------------------------------------------------------------ *)
(** ** Exceptions, outcomes and the request monad *)

(** One constructor per [raise] site of [main.py]; these are [ValueError] in
    the source.  [RequestFailed] is whatever [requests] raises out of [_get];
    [InvalidURL] is the [ValueError] of [urllib.parse.urlparse];
    [MixedTimestamps] is the [TypeError] "can't compare offset-naive and
    offset-aware datetimes" that [sorted(timestamps)] raises in
    [get_upload_schedule]. *)
Inductive exn : Type :=
| EmptyVideoIds                      (* "video_ids must not be empty." *)
| EmptyChannelUrls                   (* "channel_urls must not be empty." *)
| UnsupportedUrl (channel_url : text)
| InvalidURL
| NoChannelForHandle (handle : text)
| ChannelNotFound (channel_id : text)
| NoChannelData (channel_id : text)
| NoVideoFound (video_id : text)
| NoVideosFound                      (* "No videos found for this channel." *)
| UnknownMetric
| RequestFailed
| MixedTimestamps.

(** The error taxonomy of the specification, and what lies outside it. *)
Inductive failure : Type := InvalidInput | NotFound | UpstreamError | Unexpected.

Definition classify (e : exn) : failure :=
  match e with
  | EmptyVideoIds | EmptyChannelUrls | UnsupportedUrl _ | InvalidURL
  | NoVideosFound | UnknownMetric => InvalidInput
  | NoChannelForHandle _ | ChannelNotFound _ | NoChannelData _
  | NoVideoFound _ => NotFound
  | RequestFailed => UpstreamError
  | MixedTimestamps => Unexpected
  end.

Inductive outcome (A : Type) : Type :=
| Done (a : A)
| Raised (e : exn)
| OutOfFuel.

Arguments Done {A} a.
Arguments Raised {A} e.
Arguments OutOfFuel {A}.

(** A computation reads the number of requests issued so far and returns it
    updated. *)
Definition M (A : Type) : Type := nat -> outcome (A * nat).

Definition ret {A} (a : A) : M A := fun n => Done (a, n).

Definition raise {A} (e : exn) : M A := fun _ => Raised e.

Definition bind {A B} (m : M A) (k : A -> M B) : M B :=
  fun n =>
    match m n with
    | Done (a, n') => k a n'
    | Raised e => Raised e
    | OutOfFuel => OutOfFuel
    end.

Definition lift {A} (o : outcome A) : M A :=
  fun n =>
    match o with
    | Done a => Done (a, n)
    | Raised e => Raised e
    | OutOfFuel => OutOfFuel
    end.

Declare Scope req_scope.
Delimit Scope req_scope with req.
Notation "x <- m ;; k" := (bind m (fun x => k))
  (at level 61, m at next level, right associativity) : req_scope.
Local Open Scope req_scope.

(** [[f(x) for x in xs]] for an effectful [f], left to right. *)
Fixpoint for_each {A B} (f : A -> M B) (xs : list A) : M (list B) :=
  match xs with
  | [] => ret []
  | x :: r => y <- f x ;; ys <- for_each f r ;; ret (y :: ys)
  end.

(* ------------------------------------------------------------------ *)
(** ** Payloads of the collaborators *)

(** The [thumbnails] object: resolution name to URL, in payload order. *)
Definition thumbnails := list (text * text).

Definition text_eqb (a b : text) : bool :=
  if list_eq_dec ascii_dec a b then true else false.

Fixpoint lookup {V} (k : text) (d : list (text * V)) : option V :=
  match d with
  | [] => None
  | (k', v) :: r => if text_eqb k k' then Some v else lookup k r
  end.

(** An item of [videos.list] with [part=snippet,contentDetails,statistics],
    as the tools read it: every [.get(key, default)] already applied, the
    duration after [_parse_duration], the counters after [_safe_int]. *)
Record video_item : Type := {
  vi_id : text;
  vi_title : text;
  vi_channelTitle : text;
  vi_description : text;
  vi_tags : list text;
  vi_publishedAt : text;
  vi_duration : Z;
  vi_viewCount : Z;
  vi_likeCount : Z;
  vi_commentCount : Z;
  vi_thumbnails : thumbnails
}.

(** An item of [channels.list] with [part=snippet,statistics]. *)
Record channel_item : Type := {
  ci_title : text;
  ci_description : text;
  ci_subscriberCount : Z;
  ci_viewCount : Z;
  ci_videoCount : Z;
  ci_publishedAt : text;
  ci_thumbnails : thumbnails
}.

(** An item of [channels.list] with [part=snippet,topicDetails]. *)
Record topic_item : Type := {
  ti_title : text;
  ti_topicCategories : list text
}.

(** A page of [playlistItems.list]: per item its [contentDetails.videoId]
    when there is one, and the [nextPageToken] when there is one. *)
Record playlist_page : Type := {
  pp_items : list (option text);
  pp_nextPageToken : option text
}.

(** A top-level comment, as [get_video_comments] flattens it. *)
Record comment : Type := {
  author : text;
  c_text : text;
  like_count : Z;
  c_published_at : text
}.

Record comment_page : Type := {
  cp_items : list comment;
  cp_nextPageToken : option text
}.

Inductive weekday : Type :=
| Monday | Tuesday | Wednesday | Thursday | Friday | Saturday | Sunday.

(** What the schedule analysis reads of a [datetime]: [weekday()], [hour],
    whether it carries a UTC offset ([tzinfo is not None]), and its position
    in microseconds on the time line of its kind (UTC for an offset-aware
    value, the wall clock for an offset-naive one).  Two values of the same
    kind are ordered and subtracted by their positions; two values of
    different kinds can be neither compared nor subtracted. *)
Record datetime : Type := {
  dt_weekday : weekday;
  dt_hour : nat;
  dt_aware : bool;
  dt_micros : Z
}.

(** The collaborators.  An endpoint takes the number of requests issued
    before this one and the parameters of the request; [None] is a failed
    request ([raise_for_status], timeout). *)
Record platform : Type := {
  (* urlsplit's checks of the network location (IPv6 brackets, NFKC) *)
  netloc_valid : text -> bool;
  (* datetime.fromisoformat; None when it raises *)
  fromisoformat : text -> option datetime;
  (* statistics.stdev on two or more data points *)
  stdev : list Z -> Q;
  (* sum(xs) for floats xs: plain left-to-right addition before Python 3.12,
     compensated summation from 3.12 on *)
  float_sum : list Q -> Q;
  (* channels: part=id, forHandle=h, maxResults=1; the id of each item *)
  channels_for_handle : nat -> text -> option (list text);
  (* channels: part=contentDetails, id=c; the uploads playlist of each item *)
  channels_content_details : nat -> text -> option (list text);
  (* channels: part=snippet,statistics, id=c *)
  channels_snippet_statistics : nat -> text -> option (list channel_item);
  (* channels: part=snippet,topicDetails, id=c *)
  channels_topic_details : nat -> text -> option (list topic_item);
  (* playlistItems: part=contentDetails, playlistId, maxResults, pageToken *)
  playlist_items : nat -> text -> Z -> option text -> option playlist_page;
  (* videos: part=snippet,contentDetails,statistics, id=comma-joined ids *)
  videos : nat -> text -> option (list video_item);
  (* videos: part=statistics, id=v; the commentCount of each item *)
  videos_statistics : nat -> text -> option (list Z);
  (* commentThreads: part=snippet, videoId, maxResults, order=relevance,
     pageToken *)
  comment_threads : nat -> text -> Z -> option text -> option comment_page
}.

(** [_get]: one request to an endpoint. *)
Definition _get {A} (endpoint : nat -> option A) : M A :=
  fun n =>
    match endpoint n with
    | Some data => Done (data, S n)
    | None => Raised RequestFailed
    end.

(* ------------------------------------------------------------------ *)
(** ** [urllib.parse.urlparse], as far as [.path] depends on it *)

Module Url.

Record SplitResult : Type := {
  scheme : text;
  netloc : text;
  path : text;
  query : text;
  fragment : text
}.

(** [_WHATWG_C0_CONTROL_OR_SPACE] *)
Definition c0_or_space (c : ascii) : bool := Nat.leb (code c) 32.

(** [_UNSAFE_URL_BYTES_TO_REMOVE]: tab, carriage return, line feed. *)
Definition unsafe (c : ascii) : bool :=
  (is_char "009" c || is_char "013" c || is_char "010" c)%bool.

(** [scheme_chars] *)
Definition scheme_char (c : ascii) : bool :=
  (ascii_alpha c || is_digit c || is_char "+" c || is_char "-" c
   || is_char "." c)%bool.

Definition uses_params : list text :=
  map lit [""; "ftp"; "hdl"; "prospero"; "http"; "imap"; "https"; "shttp";
           "rtsp"; "rtspu"; "sip"; "sips"; "mms"; "sftp"; "tel"]%string.

(** The scheme, lower-cased, and what follows its colon. *)
Definition split_scheme (url : text) : text * text :=
  match break_at ":" url with
  | Some (pre, post) =>
      match pre with
      | c :: _ =>
          if (ascii_alpha c && forallb scheme_char pre)%bool
          then (lower pre, post) else ([], url)
      | [] => ([], url)
      end
  | None => ([], url)
  end.

Definition delimiter (c : ascii) : bool :=
  (is_char "/" c || is_char "?" c || is_char "#" c)%bool.

(** [_splitnetloc(url, 2)], given [url[2:]]. *)
Definition splitnetloc (rest : text) : text * text :=
  (takewhile (fun c => negb (delimiter c)) rest,
   dropwhile (fun c => negb (delimiter c)) rest).

(** [url.split(c, 1)] if [c in url], else [url] and the empty text. *)
Definition cut (c : ascii) (url : text) : text * text :=
  match break_at c url with
  | Some (a, b) => (a, b)
  | None => (url, [])
  end.

Section WithPlatform.

Variable P : platform.

Definition urlsplit (u : text) : outcome SplitResult :=
  let url := filter (fun c => negb (unsafe c)) (lstrip c0_or_space u) in
  let '(sch, url) := split_scheme url in
  match strip_prefix (lit "//") url with
  | Some rest =>
      let '(loc, url) := splitnetloc rest in
      if netloc_valid P loc then
        let '(url, frag) := cut "#" url in
        let '(url, qry) := cut "?" url in
        Done {| scheme := sch; netloc := loc; path := url;
                query := qry; fragment := frag |}
      else Raised InvalidURL
  | None =>
      let '(url, frag) := cut "#" url in
      let '(url, qry) := cut "?" url in
      Done {| scheme := sch; netloc := []; path := url;
              query := qry; fragment := frag |}
  end.

(** [_splitparams(url)[0]]: the parameters start at the first [;] found from
    the last [/] on.  [urlparse] calls it only when [';' in url], so without
    a [/] there is a [;] to cut at. *)
Definition splitparams (url : text) : text :=
  match break_at "/" (rev url) with
  | Some (rlast, rdir) =>
      match break_at ";" (rev rlast) with
      | Some (seg, _) => rev rdir ++ "/"%char :: seg
      | None => url
      end
  | None =>
      match break_at ";" url with
      | Some (seg, _) => seg
      | None => url
      end
  end.

(** [urlparse(u).path] *)
Definition urlparse_path (u : text) : outcome text :=
  match urlsplit u with
  | Done r =>
      if (existsb (text_eqb (scheme r)) uses_params && has_char ";" (path r))%bool
      then Done (splitparams (path r))
      else Done (path r)
  | Raised e => Raised e
  | OutOfFuel => OutOfFuel
  end.

End WithPlatform.

End Url.

(* ------------------------------------------------------------------ *)
(** ** Internal helpers *)

Definition slash (c : ascii) : bool := is_char "/" c.

(** [[\w-]] and [[\w.-]] *)
Definition id_char (c : ascii) : bool := (is_word c || is_char "-" c)%bool.

Definition handle_char (c : ascii) : bool :=
  (is_word c || is_char "." c || is_char "-" c)%bool.

(** [$]: at the end of the text or before a final line feed. *)
Definition at_end (s : text) : bool :=
  match s with
  | [] => true
  | [c] => is_char "010" c
  | _ => false
  end.

(** [re.match(prefix + "(" + head + cls + "+)$", s).group(1)]: the class is
    repeated greedily, and since a line feed is in neither class the match,
    when there is one, takes the whole run. *)
Definition match_run (prefix head : text) (cls : ascii -> bool) (s : text)
  : option text :=
  match strip_prefix (prefix ++ head) s with
  | Some rest =>
      match takewhile cls rest with
      | [] => None
      | run => if at_end (dropwhile cls rest) then Some (head ++ run) else None
      end
  | None => None
  end.

(** [re.match(r"^/channel/(UC[\w-]+)$", path)] *)
Definition match_channel (path : text) : option text :=
  match_run (lit "/channel/") (lit "UC") id_char path.

(** [re.match(r"^/@([\w.-]+)$", path)] *)
Definition match_handle (path : text) : option text :=
  match_run (lit "/@") [] handle_char path.

(** [_thumbnail_url] *)
Definition _thumbnail_url (t : thumbnails) : text :=
  let fix pick (qualities : list text) :=
    match qualities with
    | [] => []
    | q :: r => match lookup q t with Some url => url | None => pick r end
    end in
  pick (map lit ["maxres"; "standard"; "high"; "medium"; "default"]%string).

(** Truth value of a [str] or [None]. *)
Definition truthy (t : option text) : bool :=
  match t with
  | Some (_ :: _) => true
  | _ => false
  end.

(** The [pageToken] parameter: set only [if next_page_token]. *)
Definition page_token (t : option text) : option text :=
  if truthy t then t else None.

Section Helpers.

Variable P : platform.

Definition resolve_channel_id (channel_url : text) : M text :=
  parsed_path <- lift (Url.urlparse_path P channel_url) ;;
  let path := rstrip slash parsed_path in
  match match_channel path with
  | Some channel_id => ret channel_id
  | None =>
      match match_handle path with
      | Some handle =>
          items <- _get (fun n => channels_for_handle P n handle) ;;
          match items with
          | [] => raise (NoChannelForHandle handle)
          | id :: _ => ret id
          end
      | None => raise (UnsupportedUrl channel_url)
      end
  end.

Definition _get_uploads_playlist_id (channel_id : text) : M text :=
  items <- _get (fun n => channels_content_details P n channel_id) ;;
  match items with
  | [] => raise (ChannelNotFound channel_id)
  | uploads :: _ => ret uploads
  end.

End Helpers.

(* ------------------------------------------------------------------ *)
(** ** Following result pages *)

(** [len(xs)] *)
Definition len {A} (xs : list A) : Z := Z.of_nat (List.length xs).

(** The loop shared, statement for statement, by [_fetch_videos_for_channel]
    and [get_video_comments]:
<<
    while len(acc) < limit:
        batch_size = min(cap, limit - len(acc))
        data = _get(endpoint, {..., "maxResults": batch_size, "pageToken": ...})
        for item in data.get("items", []): acc.append(...)
        next_page_token = data.get("nextPageToken")
        if not next_page_token or len(acc) >= limit:
            break
>>
    [cap] is 50 or 100, [collect] is the body of the [for]. *)
Section PageLoop.

Variables Item Page : Type.
Variable cap : Z.
Variable endpoint : Z -> option text -> nat -> option Page.
Variable collect : Page -> list Item.
Variable next_of : Page -> option text.

Fixpoint page_loop (fuel : nat) (limit : Z) (acc : list Item)
    (next_page_token : option text) : M (list Item) :=
  if len acc <? limit then
    match fuel with
    | O => fun _ => OutOfFuel
    | S fuel' =>
        let batch_size := Z.min cap (limit - len acc) in
        data <- _get (endpoint batch_size (page_token next_page_token)) ;;
        let acc := acc ++ collect data in
        let next_page_token := next_of data in
        if (negb (truthy next_page_token) || (limit <=? len acc))%bool
        then ret acc
        else page_loop fuel' limit acc next_page_token
    end
  else ret acc.

End PageLoop.

(* ------------------------------------------------------------------ *)
(** ** The channel video aggregator *)

(** The dictionary built per video by [_fetch_videos_for_channel]. *)
Record video : Type := {
  video_id : text;
  title : text;
  description : text;
  tags : list text;
  published_at : text;
  duration_seconds : Z;
  views : Z;
  likes : Z;
  comments : Z;
  thumbnail_url : text
}.

Definition normalize (item : video_item) : video :=
  {| video_id := vi_id item;
     title := vi_title item;
     description := vi_description item;
     tags := vi_tags item;
     published_at := vi_publishedAt item;
     duration_seconds := vi_duration item;
     views := vi_viewCount item;
     likes := vi_likeCount item;
     comments := vi_commentCount item;
     thumbnail_url := _thumbnail_url (vi_thumbnails item) |}.

(** [for item in items: vid_id = ...get("videoId"); if vid_id: append] *)
Fixpoint video_ids_of (items : list (option text)) : list text :=
  match items with
  | [] => []
  | Some (c :: r) :: rest => (c :: r) :: video_ids_of rest
  | _ :: rest => video_ids_of rest
  end.

(** [[ids[i:i + 50] for i in range(0, len(ids), 50)]]; [n] bounds the number
    of slices. *)
Fixpoint batches (n : nat) (ids : list text) : list (list text) :=
  match n, ids with
  | S n', _ :: _ => firstn 50 ids :: batches n' (skipn 50 ids)
  | _, _ => []
  end.

Section Aggregator.

Variable P : platform.

Definition fetch_video_ids (fuel : nat) (uploads_playlist_id : text)
    (limit : Z) : M (list text) :=
  page_loop 50 (fun size tok n => playlist_items P n uploads_playlist_id size tok)
            (fun data => video_ids_of (pp_items data)) pp_nextPageToken
            fuel limit [] None.

Definition _fetch_videos_for_channel (fuel : nat) (channel_url : text)
    (limit : Z) : M (list video) :=
  channel_id <- resolve_channel_id P channel_url ;;
  uploads_playlist_id <- _get_uploads_playlist_id P channel_id ;;
  video_ids <- fetch_video_ids fuel uploads_playlist_id limit ;;
  match video_ids with
  | [] => ret []
  | _ =>
      parts <- for_each
                 (fun batch =>
                    data <- _get (fun n => videos P n (join (lit ",") batch)) ;;
                    ret (map normalize data))
                 (batches (List.length video_ids) video_ids) ;;
      ret (List.concat parts)
  end.

End Aggregator.

(* ------------------------------------------------------------------ *)
(** ** Tools 1, 2 and 4 *)

(** A value stored in a result dictionary. *)
Inductive value : Type :=
| VText (t : text)
| VInt (z : Z)
| VList (l : list text).

Definition dict := list (text * value).

Definition key (s : string) : text := lit s.

(** [video.items()], in the order of the dictionary display. *)
Definition items (v : video) : dict :=
  [ (key "video_id", VText (video_id v));
    (key "title", VText (title v));
    (key "description", VText (description v));
    (key "tags", VList (tags v));
    (key "published_at", VText (published_at v));
    (key "duration_seconds", VInt (duration_seconds v));
    (key "views", VInt (views v));
    (key "likes", VInt (likes v));
    (key "comments", VInt (comments v));
    (key "thumbnail_url", VText (thumbnail_url v)) ].

Record channel_overview : Type := {
  channel_id : text;
  co_title : text;
  co_description : text;
  subscriber_count : Z;
  total_views : Z;
  total_videos : Z;
  created_at : text;
  co_thumbnail_url : text
}.

Record video_comments : Type := {
  vc_video_id : text;
  total_comment_count : Z;
  returned_comment_count : Z;
  vc_comments : list comment
}.

Section CoreTools.

Variable P : platform.

Definition get_channel_overview (channel_url : text) : M channel_overview :=
  channel_id <- resolve_channel_id P channel_url ;;
  items <- _get (fun n => channels_snippet_statistics P n channel_id) ;;
  match items with
  | [] => raise (NoChannelData channel_id)
  | item :: _ =>
      ret {| channel_id := channel_id;
             co_title := ci_title item;
             co_description := ci_description item;
             subscriber_count := ci_subscriberCount item;
             total_views := ci_viewCount item;
             total_videos := ci_videoCount item;
             created_at := ci_publishedAt item;
             co_thumbnail_url := _thumbnail_url (ci_thumbnails item) |}
  end.

Definition get_channel_videos (fuel : nat) (channel_url : text) (limit : Z)
  : M (list dict) :=
  videos <- _fetch_videos_for_channel P fuel channel_url limit ;;
  ret (map (fun video =>
              filter (fun kv => negb (text_eqb (fst kv) (key "tags")))
                     (items video))
           videos).

Definition fetch_comments (fuel : nat) (video_id : text) (limit : Z)
  : M (list comment) :=
  page_loop 100 (fun size tok n => comment_threads P n video_id size tok)
            cp_items cp_nextPageToken fuel limit [] None.

Definition get_video_comments (fuel : nat) (video_id : text) (limit : Z)
  : M video_comments :=
  video_items <- _get (fun n => videos_statistics P n video_id) ;;
  let total_count := match video_items with [] => 0 | c :: _ => c end in
  comments <- fetch_comments fuel video_id limit ;;
  ret {| vc_video_id := video_id;
         total_comment_count := total_count;
         returned_comment_count := len comments;
         vc_comments := comments |}.

End CoreTools.

(* ------------------------------------------------------------------ *)
(** ** Numbers, maxima and sorting *)

(** [round(x)]: the nearest integer, a tie going to the even one. *)
Definition round_half_even (x : Q) : Z :=
  let f := Qfloor x in
  match (x - inject_Z f ?= 1 # 2)%Q with
  | Lt => f
  | Eq => if Z.even f then f else f + 1
  | Gt => f + 1
  end.

Definition Qlt_bool (a b : Q) : bool := negb (Qle_bool b a).

(** *** Binary64 *)

Definition pow2 (e : Z) : Q := (2 ^ e)%Q.

(** The binade of a non-zero [x]: the [e] with [2^e <= |x| < 2^(e+1)].  The
    difference of the bit lengths of numerator and denominator is [e] or
    [e + 1]. *)
Definition binade (x : Q) : Z :=
  let e := Z.log2 (Z.abs (Qnum x)) - Z.log2 (Z.pos (Qden x)) in
  if Qlt_bool (Qabs x) (pow2 e) then e - 1 else e.

(** The binary64 number nearest to [x], a tie going to the even significand:
    [x] is rounded to a multiple of [2^e], where [e] leaves 53 significant
    bits and is at least -1074, the exponent of the subnormal numbers. *)
Definition fl (x : Q) : Q :=
  if Qeq_bool x 0 then 0%Q
  else
    let e := Z.max (binade x - 52) (-1074) in
    Qred (inject_Z (round_half_even (x / pow2 e)) * pow2 e)%Q.

(** [a / b] on two [int]s: the quotient, correctly rounded. *)
Definition true_div (a b : Z) : Q := fl (inject_Z a / inject_Z b).

(** [x * y], [x / y] and [x - y] when one operand is a [float]; an [int]
    operand of the tools is small enough to convert exactly. *)
Definition fmul (x y : Q) : Q := fl (x * y).

Definition fdiv (x y : Q) : Q := fl (x / y).

Definition fsub (x y : Q) : Q := fl (x - y).

(** [round(x, ndigits)] on a [float]: the decimal with [ndigits] places
    nearest to the exact value of [x], a tie going to the even last digit,
    converted to binary64. *)
Definition py_round (x : Q) (ndigits : nat) : Q :=
  let scale := inject_Z (10 ^ Z.of_nat ndigits) in
  fl (inject_Z (round_half_even (x * scale)) / scale).

(** [_safe_float]: on a number, [float] cannot raise; [float] of the [int]
    0 of the guards is 0.0. *)
Definition _safe_float (value : Q) (decimals : nat) : Q :=
  py_round value decimals.

(** [max(a, b)]: the first argument unless the second is greater. *)
Definition py_max (a b : Q) : Q := if Qlt_bool a b then b else a.

(** [sum(xs)] on [int]s *)
Definition sumZ (xs : list Z) : Z := fold_left Z.add xs 0.

Section Ordering.

Variable A : Type.

(** [max(first :: rest, key=key)]: the first of the greatest elements. *)
Definition py_max_by (key : A -> Q) (first : A) (rest : list A) : A :=
  fold_left (fun best x => if Qlt_bool (key best) (key x) then x else best)
            rest first.

(** [sorted]: [before a b] says that [a] must come strictly before [b];
    elements that neither precede the other keep their order. *)
Variable before : A -> A -> bool.

Fixpoint insert (x : A) (l : list A) : list A :=
  match l with
  | [] => [x]
  | y :: r => if before y x then y :: insert x r else x :: l
  end.

Definition sorted (l : list A) : list A := fold_right insert [] l.

End Ordering.

(** [sorted(l, key=key)] and [sorted(l, key=key, reverse=True)] *)
Definition ascending {A} (key : A -> Q) (a b : A) : bool :=
  Qlt_bool (key a) (key b).

Definition descending {A} (key : A -> Q) (a b : A) : bool :=
  Qlt_bool (key b) (key a).

(** [l[:n]] *)
Definition slice_to {A} (n : Z) (l : list A) : list A :=
  if 0 <=? n then firstn (Z.to_nat n) l
  else firstn (List.length l - Z.to_nat (- n)) l.

(** [enumerate(l)], counting from [i]. *)
Fixpoint enumerate_from {A} (i : Z) (l : list A) : list (Z * A) :=
  match l with
  | [] => []
  | x :: r => (i, x) :: enumerate_from (i + 1) r
  end.

(* ------------------------------------------------------------------ *)
(** ** Tools 8 to 11 *)

Record compared_video : Type := {
  cv_video_id : text;
  cv_title : text;
  cv_published_at : text;
  cv_duration_seconds : Z;
  cv_views : Z;
  cv_likes : Z;
  cv_comments : Z;
  cv_engagement_rate_pct : Q
}.

Record video_comparison : Type := {
  vcmp_videos : list compared_video;
  winner_by_views : text;
  winner_by_likes : text;
  winner_by_comments : text;
  winner_by_engagement_rate : text
}.

Record channel_topics : Type := {
  ct_channel_id : text;
  ct_title : text;
  topics : list text;
  topic_category_urls : list text
}.

Record channel_comparison : Type := {
  channels : list channel_overview;
  winner_by_subscribers : text;
  winner_by_total_views : text;
  winner_by_video_count : text
}.

Record ranked_video : Type := {
  rank : Z;
  rv_video_id : text;
  rv_title : text;
  rv_published_at : text;
  rv_duration_seconds : Z;
  rv_views : Z;
  rv_likes : Z;
  rv_comments : Z;
  rv_engagement_rate_pct : Q
}.

(** [_winner(key)] of [compare_videos] and of [compare_channels]. *)
Definition _winner {A} (id : A -> text) (rows : list A) (key : A -> Q) : text :=
  match rows with
  | [] => []
  | first :: rest => id (py_max_by key first rest)
  end.

Definition compare_entry (item : video_item) : compared_video :=
  let views := vi_viewCount item in
  let likes := vi_likeCount item in
  let comments := vi_commentCount item in
  let engagement_rate :=
    _safe_float (if 0 <? views
                 then fmul (true_div (likes + comments) views) 100
                 else 0%Q) 4 in
  {| cv_video_id := vi_id item;
     cv_title := vi_title item;
     cv_published_at := vi_publishedAt item;
     cv_duration_seconds := vi_duration item;
     cv_views := views;
     cv_likes := likes;
     cv_comments := comments;
     cv_engagement_rate_pct := engagement_rate |}.

(** [url.split("/wiki/")[-1].replace("_", " ")] *)
Definition readable_topic (url : text) : text :=
  replace_char "_" " " (split_last (lit "/wiki/") url).

(** A video of [get_top_videos] after the loop that stores
    [v["engagement_rate_pct"]] into it. *)
Definition with_rate (v : video) : video * Q :=
  let views := views v in
  (v, _safe_float (if 0 <? views
                   then fmul (true_div (likes v + comments v) views) 100
                   else 0%Q) 4).

(** [v[sort_key]] for a metric of [valid_metrics]. *)
Definition sort_key (metric : text) : option (video * Q -> Q) :=
  if text_eqb metric (lit "views") then Some (fun v => inject_Z (views (fst v)))
  else if text_eqb metric (lit "likes") then Some (fun v => inject_Z (likes (fst v)))
  else if text_eqb metric (lit "comments")
       then Some (fun v => inject_Z (comments (fst v)))
  else if text_eqb metric (lit "engagement_rate") then Some snd
  else None.

Definition ranked (row : Z * (video * Q)) : ranked_video :=
  let '(idx, (v, rate)) := row in
  {| rank := idx + 1;
     rv_video_id := video_id v;
     rv_title := title v;
     rv_published_at := published_at v;
     rv_duration_seconds := duration_seconds v;
     rv_views := views v;
     rv_likes := likes v;
     rv_comments := comments v;
     rv_engagement_rate_pct := rate |}.

Section GrowthTools.

Variable P : platform.

Definition compare_videos (video_ids : list text) : M video_comparison :=
  match video_ids with
  | [] => raise EmptyVideoIds
  | _ =>
      let video_ids := firstn 10 video_ids in
      data <- _get (fun n => videos P n (join (lit ",") video_ids)) ;;
      let videos := map compare_entry data in
      let winner := _winner cv_video_id videos in
      ret {| vcmp_videos := videos;
             winner_by_views := winner (fun v => inject_Z (cv_views v));
             winner_by_likes := winner (fun v => inject_Z (cv_likes v));
             winner_by_comments := winner (fun v => inject_Z (cv_comments v));
             winner_by_engagement_rate := winner cv_engagement_rate_pct |}
  end.

Definition get_channel_topics (channel_url : text) : M channel_topics :=
  channel_id <- resolve_channel_id P channel_url ;;
  items <- _get (fun n => channels_topic_details P n channel_id) ;;
  match items with
  | [] => raise (NoChannelData channel_id)
  | item :: _ =>
      let raw_categories := ti_topicCategories item in
      ret {| ct_channel_id := channel_id;
             ct_title := ti_title item;
             topics := map readable_topic raw_categories;
             topic_category_urls := raw_categories |}
  end.

Definition compare_channels (channel_urls : list text) : M channel_comparison :=
  match channel_urls with
  | [] => raise EmptyChannelUrls
  | _ =>
      let channel_urls := firstn 5 channel_urls in
      channels <- for_each (get_channel_overview P) channel_urls ;;
      let winner := _winner channel_id channels in
      ret {| channels := channels;
             winner_by_subscribers := winner (fun c => inject_Z (subscriber_count c));
             winner_by_total_views := winner (fun c => inject_Z (total_views c));
             winner_by_video_count := winner (fun c => inject_Z (total_videos c)) |}
  end.

Definition get_top_videos (fuel : nat) (channel_url metric : text) (limit : Z)
  : M (list ranked_video) :=
  match sort_key metric with
  | None => raise UnknownMetric
  | Some by_metric =>
      videos <- _fetch_videos_for_channel P fuel channel_url 200 ;;
      let videos := map with_rate videos in
      let sorted_videos := slice_to limit (sorted (descending by_metric) videos) in
      ret (map ranked (enumerate_from 0 sorted_videos))
  end.

End GrowthTools.

(* ------------------------------------------------------------------ *)
(** ** Tool 12: the upload schedule *)

Definition day_names : list text :=
  map lit ["Monday"; "Tuesday"; "Wednesday"; "Thursday"; "Friday";
           "Saturday"; "Sunday"]%string.

(** [dt.weekday()] *)
Definition weekday_index (d : weekday) : nat :=
  match d with
  | Monday => 0 | Tuesday => 1 | Wednesday => 2 | Thursday => 3
  | Friday => 4 | Saturday => 5 | Sunday => 6
  end%nat.

(** [day_names.index(name)] *)
Fixpoint index_of (name : text) (names : list text) : nat :=
  match names with
  | [] => O
  | n :: r => if text_eqb name n then O else S (index_of name r)
  end.

(** [f"{hour:02d}"] *)
Definition two_digits (hour : nat) : text :=
  let digits := lit (NilEmpty.string_of_uint (Nat.to_uint hour)) in
  if Nat.ltb hour 10 then "0"%char :: digits else digits.

(** [published_at.replace("Z", "+00:00")] *)
Definition utc_offset (published_at : text) : text :=
  flat_map (fun c => if is_char "Z" c then lit "+00:00" else [c]) published_at.

(** A [Counter]: keys in order of first insertion. *)
Definition counter := list (text * Z).

(** [c[k] += 1] *)
Fixpoint bump (k : text) (c : counter) : counter :=
  match c with
  | [] => [(k, 1)]
  | (k', n) :: r => if text_eqb k k' then (k', n + 1) :: r else (k', n) :: bump k r
  end.

(** [c.most_common(1)[0][0] if c else ""] *)
Definition most_common_key (c : counter) : text :=
  match c with
  | [] => []
  | first :: rest => fst (py_max_by (fun kv => inject_Z (snd kv)) first rest)
  end.

(** Text order, character by character, as [str.__lt__]. *)
Fixpoint text_ltb (a b : text) : bool :=
  match a, b with
  | _, [] => false
  | [], _ :: _ => true
  | x :: a', y :: b' =>
      if Nat.ltb (code x) (code y) then true
      else if Nat.ltb (code y) (code x) then false
      else text_ltb a' b'
  end.

(** [(b - a).days] *)
Definition days_between (a b : datetime) : Z :=
  (dt_micros b - dt_micros a) / 86400000000.

(** [[(ts[i + 1] - ts[i]).days for i in range(len(ts) - 1)]] *)
Fixpoint gaps_of (ts : list datetime) : list Z :=
  match ts with
  | a :: (b :: _) as r => days_between a b :: gaps_of r
  | _ => []
  end.

(** All of one kind: offset-aware or offset-naive. *)
Definition same_kind (ts : list datetime) : bool :=
  match ts with
  | [] => true
  | t :: r => forallb (fun d => Bool.eqb (dt_aware d) (dt_aware t)) r
  end.

(** [sorted(timestamps)]: the comparison of an offset-naive with an
    offset-aware value raises [TypeError], and no sort of a list that holds
    both kinds can do without such a comparison; [None] stands for the
    error. *)
Definition sorted_timestamps (ts : list datetime) : option (list datetime) :=
  if same_kind ts
  then Some (sorted (ascending (fun d => inject_Z (dt_micros d))) ts)
  else None.

Record upload_schedule : Type := {
  total_videos_analyzed : Z;
  avg_days_between_uploads : Q;
  consistency_score_pct : Q;
  posts_by_day : counter;
  posts_by_hour : counter;
  best_posting_day : text;
  best_posting_hour : text
}.

(** The three accumulators of the loop over the videos. *)
Record tally : Type := {
  by_day : counter;
  by_hour : counter;
  timestamps : list datetime
}.

Section Schedule.

Variable P : platform.

(** One iteration of [for v in videos: try: ... except Exception: continue]. *)
Definition tally_video (t : tally) (v : video) : tally :=
  match fromisoformat P (utc_offset (published_at v)) with
  | Some dt =>
      {| by_day := bump (nth (weekday_index (dt_weekday dt)) day_names []) (by_day t);
         by_hour := bump (two_digits (dt_hour dt)) (by_hour t);
         timestamps := timestamps t ++ [dt] |}
  | None => t
  end.

(** [statistics.stdev]: [StatisticsError] below two data points. *)
Definition statistics_stdev (data : list Z) : option Q :=
  if Nat.ltb (List.length data) 2 then None else Some (stdev P data).

(** [avg_days] and [consistency_score] after the block
    [if len(timestamps) > 1:], which no [try] encloses: [None] when
    [sorted(timestamps)] raises. *)
Definition gap_scores (timestamps : list datetime) : option (Q * Q) :=
  if Nat.ltb 1 (List.length timestamps) then
    match sorted_timestamps timestamps with
    | None => None
    | Some timestamps_sorted =>
        let gaps := gaps_of timestamps_sorted in
        let avg_days := _safe_float (true_div (sumZ gaps) (len gaps)) 1 in
        match gaps with
        | [] => Some (avg_days, 0%Q)
        | _ =>
            let mean_gap := true_div (sumZ gaps) (len gaps) in
            match statistics_stdev gaps with
            | Some std =>
                Some (avg_days,
                      _safe_float
                        (py_max 0 (fsub 100 (fmul (fdiv std (py_max mean_gap 1))
                                                  50))) 1)
            | None => Some (avg_days, 0%Q)
            end
        end
    end
  else Some (0%Q, 0%Q).

(** The body of [get_upload_schedule] after the check of [videos]; [None]
    when it raises. *)
Definition schedule_of (videos : list video) : option upload_schedule :=
  let t := fold_left tally_video videos
             {| by_day := []; by_hour := []; timestamps := [] |} in
  match gap_scores (timestamps t) with
  | None => None
  | Some (avg_days, consistency_score) =>
  let best_hour := most_common_key (by_hour t) in
  Some
  {| total_videos_analyzed := len videos;
     avg_days_between_uploads := avg_days;
     consistency_score_pct := consistency_score;
     posts_by_day :=
       sorted (fun a b => Nat.ltb (index_of (fst a) day_names)
                                  (index_of (fst b) day_names))
              (by_day t);
     (* sorted(items()) compares the keys first, and they are distinct *)
     posts_by_hour := sorted (fun a b => text_ltb (fst a) (fst b)) (by_hour t);
     best_posting_day := most_common_key (by_day t);
     best_posting_hour :=
       match best_hour with
       | [] => []
       | _ => best_hour ++ lit ":00 UTC"
       end |}
  end.

Definition get_upload_schedule (fuel : nat) (channel_url : text) (limit : Z)
  : M upload_schedule :=
  videos <- _fetch_videos_for_channel P fuel channel_url limit ;;
  match videos with
  | [] => raise NoVideosFound
  | _ =>
      match schedule_of videos with
      | Some schedule => ret schedule
      | None => raise MixedTimestamps
      end
  end.

End Schedule.

(* ------------------------------------------------------------------ *)
(** ** Tool 14: the SEO score *)

(** An entry of [checks]; the free-text [note] is left out. *)
Record seo_check : Type := {
  score : Z;
  status : text
}.

Record seo_score : Type := {
  seo_video_id : text;
  seo_title : text;
  overall_score : Z;
  checks : list (text * seo_check)
}.

Definition check (score : Z) (status : string) : seo_check :=
  {| score := score; status := lit status |}.

(** [bool(re.search(r"\d+:\d+", s))]: a colon between two digits. *)
Fixpoint has_chapters (s : text) : bool :=
  match s with
  | [] => false
  | a :: r =>
      (match r with
       | b :: c :: _ => is_digit a && is_char ":" b && is_digit c
       | _ => false
       end || has_chapters r)%bool
  end.

Definition title_length_check (title : text) : seo_check :=
  let tlen := len title in
  if ((40 <=? tlen) && (tlen <=? 70))%bool then check 100 "great"
  else if ((20 <=? tlen) && (tlen <? 40))%bool then check 70 "ok"
  else if 70 <? tlen then check 60 "ok"
  else check 30 "poor".

Definition description_length_check (description : text) : seo_check :=
  let dlen := len description in
  if 500 <=? dlen then check 100 "great"
  else if 200 <=? dlen then check 80 "good"
  else if 50 <=? dlen then check 50 "ok"
  else check 10 "poor".

Definition tag_count_check (tags : list text) : seo_check :=
  let tcount := len tags in
  if ((5 <=? tcount) && (tcount <=? 15))%bool then check 100 "great"
  else if 15 <? tcount then check 70 "ok"
  else if ((1 <=? tcount) && (tcount <? 5))%bool then check 50 "ok"
  else check 0 "poor".

Definition thumbnail_check (thumbnail : text) : seo_check :=
  match thumbnail with
  | _ :: _ => check 100 "great"
  | [] => check 0 "poor"
  end.

Definition description_quality_check (description : text) : seo_check :=
  let has_links := contains (lit "http") (lower description) in
  let desc_score := 60 in
  let desc_score := if has_links then desc_score + 20 else desc_score in
  let desc_score :=
    if has_chapters description then desc_score + 20 else desc_score in
  {| score := Z.min desc_score 100;
     status := if 90 <=? desc_score then lit "great"
               else if 70 <=? desc_score then lit "good" else lit "ok" |}.

Definition seo_of (video_id : text) (item : video_item) : seo_score :=
  let thumbnail := _thumbnail_url (vi_thumbnails item) in
  let checks :=
    [ (key "title_length", title_length_check (vi_title item));
      (key "description_length", description_length_check (vi_description item));
      (key "tag_count", tag_count_check (vi_tags item));
      (key "thumbnail", thumbnail_check thumbnail);
      (key "description_quality",
       description_quality_check (vi_description item)) ] in
  let overall :=
    round_half_even
      (true_div (sumZ (map (fun c => score (snd c)) checks)) (len checks)) in
  {| seo_video_id := video_id;
     seo_title := vi_title item;
     overall_score := overall;
     checks := checks |}.

(* ------------------------------------------------------------------ *)
(** ** Tool 15: engagement statistics *)

Record enriched_video : Type := {
  ev_video_id : text;
  ev_title : text;
  ev_views : Z;
  ev_likes : Z;
  ev_comments : Z;
  like_rate_pct : Q;
  comment_rate_pct : Q;
  ev_engagement_rate_pct : Q
}.

Record top_engaging : Type := {
  te_video_id : text;
  te_title : text;
  te_engagement_rate_pct : Q
}.

Record engagement_stats : Type := {
  es_total_videos_analyzed : Z;
  avg_views : Q;
  avg_likes : Q;
  avg_comments : Q;
  avg_like_rate_pct : Q;
  avg_comment_rate_pct : Q;
  avg_engagement_rate_pct : Q;
  top_engaging_video : top_engaging;
  es_videos : list enriched_video
}.

Definition enrich (v : video) : enriched_video :=
  let views := views v in
  let likes := likes v in
  let comments := comments v in
  let like_rate :=
    _safe_float (if 0 <? views
                 then fmul (true_div likes views) 100 else 0%Q) 4 in
  let comment_rate :=
    _safe_float (if 0 <? views
                 then fmul (true_div comments views) 100 else 0%Q) 4 in
  let engagement_rate :=
    _safe_float (if 0 <? views
                 then fmul (true_div (likes + comments) views) 100
                 else 0%Q) 4 in
  {| ev_video_id := video_id v;
     ev_title := title v;
     ev_views := views;
     ev_likes := likes;
     ev_comments := comments;
     like_rate_pct := like_rate;
     comment_rate_pct := comment_rate;
     ev_engagement_rate_pct := engagement_rate |}.

(** The body of [get_engagement_stats] once [videos] is known to be
    non-empty, [first :: rest] being the enriched list and [sum] the
    interpreter's [sum] over floats. *)
Definition stats_of (sum : list Q -> Q) (first : enriched_video)
    (rest : list enriched_video) : engagement_stats :=
  let enriched := first :: rest in
  let n := len enriched in
  let top := py_max_by ev_engagement_rate_pct first rest in
  {| es_total_videos_analyzed := n;
     avg_views := _safe_float (true_div (sumZ (map ev_views enriched)) n) 0;
     avg_likes := _safe_float (true_div (sumZ (map ev_likes enriched)) n) 0;
     avg_comments :=
       _safe_float (true_div (sumZ (map ev_comments enriched)) n) 0;
     avg_like_rate_pct :=
       _safe_float (fdiv (sum (map like_rate_pct enriched)) (inject_Z n)) 4;
     avg_comment_rate_pct :=
       _safe_float (fdiv (sum (map comment_rate_pct enriched)) (inject_Z n)) 4;
     avg_engagement_rate_pct :=
       _safe_float (fdiv (sum (map ev_engagement_rate_pct enriched))
                         (inject_Z n)) 4;
     top_engaging_video :=
       {| te_video_id := ev_video_id top;
          te_title := ev_title top;
          te_engagement_rate_pct := ev_engagement_rate_pct top |};
     es_videos := enriched |}.

Section ScoreTools.

Variable P : platform.

Definition get_video_seo_score (video_id : text) : M seo_score :=
  items <- _get (fun n => videos P n video_id) ;;
  match items with
  | [] => raise (NoVideoFound video_id)
  | item :: _ => ret (seo_of video_id item)
  end.

Definition get_engagement_stats (fuel : nat) (channel_url : text) (limit : Z)
  : M engagement_stats :=
  videos <- _fetch_videos_for_channel P fuel channel_url limit ;;
  match videos with
  | [] => raise NoVideosFound
  | v :: rest => ret (stats_of (float_sum P) (enrich v) (map enrich rest))
  end.

End ScoreTools.

(* ------------------------------------------------------------------ *)
(** ** Reference definitions and sample data *)

(** The engagement rate before rounding. *)
Definition exact_rate (likes comments views : Z) : Q :=
  (inject_Z (likes + comments) / inject_Z views * 100)%Q.

(** The same quotient and product in binary64, as the tools compute them. *)
Definition float_rate (likes comments views : Z) : Q :=
  fmul (true_div (likes + comments) views) 100.

(** What a rate [r] stored next to the counters [likes], [comments] and
    [views] has to satisfy: 0 without views; with views, [round(x, 4)] of the
    binary64 product [x], that is the binary64 number nearest to a decimal
    with four places that lies within half a unit of its last place of [x];
    0 without likes and comments, and with views 0 exactly when [x] is within
    0.00005 of 0; not negative when they are not; and, for a
    rate of at most 100000000 percent, within 0.000051 of the exact
    quotient. *)
Definition rate_of_counts (likes comments views : Z) (r : Q) : Prop :=
  (views <= 0 -> r = 0%Q)
  /\ (0 < views -> r = py_round (float_rate likes comments views) 4)
  /\ (0 < views ->
      exists k : Z,
        r = fl (inject_Z k / 10000)
        /\ (Qabs (inject_Z k / 10000 - float_rate likes comments views)
            <= 1 # 20000)%Q)
  /\ (likes + comments = 0 -> r = 0%Q)
  /\ (0 < views ->
      (r = 0%Q <-> (Qabs (float_rate likes comments views) <= 1 # 20000)%Q))
  /\ (0 < views -> 0 <= likes + comments -> (0 <= r)%Q)
  /\ (0 < views -> 0 <= likes + comments <= 1000000 * views ->
      (Qabs (r - exact_rate likes comments views) <= 51 # 1000000)%Q).

Definition sample_item (id name : string) (when : string) (v l c : Z)
  : video_item :=
  {| vi_id := lit id;
     vi_title := lit name;
     vi_channelTitle := lit "Sample channel";
     vi_description := lit "Watch at 0:00 https://example.org";
     vi_tags := [lit "demo"];
     vi_publishedAt := lit when;
     vi_duration := 253;
     vi_viewCount := v;
     vi_likeCount := l;
     vi_commentCount := c;
     vi_thumbnails := [(lit "default", lit "https://img/d.jpg");
                       (lit "high", lit "https://img/h.jpg")] |}.

(** Three uploads: 100, 50 and 10 views; 10, 5 and 0 likes; no comments. *)
Definition sample_items : list video_item :=
  [ sample_item "v1" "First" "2024-01-04T09:00:00Z" 100 10 0;
    sample_item "v2" "Second" "2024-01-01T10:00:00Z" 50 5 0;
    sample_item "v3" "Third" "not a date" 10 0 0 ].

(** A video that was watched but drew no reaction. *)
Definition silent_item : video_item :=
  sample_item "v4" "Silent" "2024-01-05T00:00:00Z" 5 0 0.

(** A video with a title of 42 characters, no tags and no thumbnail. *)
Definition untagged_item : video_item :=
  {| vi_id := lit "v5";
     vi_title := lit "Formal verification of a small Python tool";
     vi_channelTitle := lit "Sample channel";
     vi_description := lit "Chapters: 0:00 intro, 12:30 proofs. http://example.org";
     vi_tags := [];
     vi_publishedAt := lit "2024-02-01T00:00:00Z";
     vi_duration := 1800;
     vi_viewCount := 7;
     vi_likeCount := 1;
     vi_commentCount := 0;
     vi_thumbnails := [] |}.

Definition sample_fromisoformat (s : text) : option datetime :=
  if text_eqb s (lit "2024-01-01T10:00:00+00:00")
  then Some {| dt_weekday := Monday; dt_hour := 10; dt_aware := true;
               dt_micros := 1704103200000000 |}
  else if text_eqb s (lit "2024-01-04T09:00:00+00:00")
  then Some {| dt_weekday := Thursday; dt_hour := 9; dt_aware := true;
               dt_micros := 1704358800000000 |}
  else None.

(** A small channel: its uploads come in two pages, [v1 v2] then [v3]. *)
Definition sample_platform : platform :=
  {| netloc_valid := fun _ => true;
     fromisoformat := sample_fromisoformat;
     stdev := fun _ => 0%Q;
     float_sum := fun xs => fold_left (fun x y => fl (x + y)) xs 0%Q;
     channels_for_handle := fun _ _ => Some [lit "UCsample"];
     channels_content_details := fun _ _ => Some [lit "UUsample"];
     channels_snippet_statistics := fun _ _ =>
       Some [{| ci_title := lit "Sample channel";
                ci_description := [];
                ci_subscriberCount := 1200;
                ci_viewCount := 34000;
                ci_videoCount := 3;
                ci_publishedAt := lit "2020-05-01T00:00:00Z";
                ci_thumbnails := [] |}];
     channels_topic_details := fun _ _ =>
       Some [{| ti_title := lit "Sample channel";
                ti_topicCategories :=
                  [lit "https://en.wikipedia.org/wiki/Role-playing_video_game"] |}];
     playlist_items := fun _ _ _ token =>
       match token with
       | None => Some {| pp_items := [Some (lit "v1"); None; Some (lit "v2")];
                         pp_nextPageToken := Some (lit "page2") |}
       | Some _ => Some {| pp_items := [Some (lit "v3")];
                           pp_nextPageToken := None |}
       end;
     videos := fun _ ids =>
       if text_eqb ids (lit "v4") then Some [silent_item]
       else if text_eqb ids (lit "v5") then Some [untagged_item]
       else if text_eqb ids (lit "missing") then Some []
       else Some sample_items;
     videos_statistics := fun _ _ => Some [2];
     comment_threads := fun _ _ _ _ =>
       Some {| cp_items := [{| author := lit "ann"; c_text := lit "nice";
                               like_count := 3;
                               c_published_at := lit "2024-01-02T00:00:00Z" |}];
               cp_nextPageToken := None |} |}.

(** Selects the elements whose key is [q]. *)
Definition same_key {A} (key : A -> Q) (q : Q) (x : A) : bool :=
  Qeq_bool (key x) q.

(** The metric as it is read off a row of the result of [get_top_videos]. *)
Definition metric_of_row (metric : text) (r : ranked_video) : Q :=
  if text_eqb metric (lit "views") then inject_Z (rv_views r)
  else if text_eqb metric (lit "likes") then inject_Z (rv_likes r)
  else if text_eqb metric (lit "comments") then inject_Z (rv_comments r)
  else rv_engagement_rate_pct r.

(** A video dictionary without its [tags] entry, entry by entry. *)
Definition without_tags (v : video) : dict :=
  [ (key "video_id", VText (video_id v));
    (key "title", VText (title v));
    (key "description", VText (description v));
    (key "published_at", VText (published_at v));
    (key "duration_seconds", VInt (duration_seconds v));
    (key "views", VInt (views v));
    (key "likes", VInt (likes v));
    (key "comments", VInt (comments v));
    (key "thumbnail_url", VText (thumbnail_url v)) ].

(** What follows the last [/] of a path. *)
Definition after_last_slash (path : text) : text :=
  rev (takewhile (fun c => negb (slash c)) (rev path)).

(** The last path segment of a URL: what follows the last [/] of
    [urlparse(url).path]; none when [urlparse] refuses the URL. *)
Definition last_path_segment (P : platform) (url : text) : option text :=
  match Url.urlparse_path P url with
  | Done path => Some (after_last_slash path)
  | _ => None
  end.

(** [s.split(sep)] said without a scan: a text in which [sep] does not occur
    is its only piece; otherwise the first piece is what precedes the
    leftmost occurrence of [sep], and the other pieces are those of what
    follows that occurrence. *)
Inductive pieces (sep : text) : text -> list text -> Prop :=
| pieces_whole s :
    (forall pre rest, s <> pre ++ sep ++ rest) ->
    pieces sep s [s]
| pieces_cut s pre rest ps :
    s = pre ++ sep ++ rest ->
    (forall pre' rest', s = pre' ++ sep ++ rest' ->
                        (List.length pre <= List.length pre')%nat) ->
    pieces sep rest ps ->
    pieces sep s (pre :: ps).

(** The text before and after the first occurrence of [sep]. *)
Fixpoint first_split (sep s : text) : option (text * text) :=
  match strip_prefix sep s with
  | Some rest => Some ([], rest)
  | None =>
      match s with
      | [] => None
      | c :: r =>
          match first_split sep r with
          | Some (pre, rest) => Some (c :: pre, rest)
          | None => None
          end
      end
  end.

(** A channel whose topic categories are not all of the Wikipedia form. *)
Definition odd_topics_platform : platform :=
  {| netloc_valid := netloc_valid sample_platform;
     fromisoformat := fromisoformat sample_platform;
     stdev := stdev sample_platform;
     float_sum := float_sum sample_platform;
     channels_for_handle := channels_for_handle sample_platform;
     channels_content_details := channels_content_details sample_platform;
     channels_snippet_statistics := channels_snippet_statistics sample_platform;
     channels_topic_details := fun _ _ =>
       Some [{| ti_title := lit "Odd";
                ti_topicCategories :=
                  [lit "https://en.wikipedia.org/wiki/AC/DC";
                   lit "https://example.org/topics/Pop_music"] |}];
     playlist_items := playlist_items sample_platform;
     videos := videos sample_platform;
     videos_statistics := videos_statistics sample_platform;
     comment_threads := comment_threads sample_platform |}.

(** The publish timestamps that parse, in the order of the videos. *)
Definition parsed_timestamps (P : platform) (videos : list video)
  : list datetime :=
  flat_map (fun v => match fromisoformat P (utc_offset (published_at v)) with
                     | Some dt => [dt]
                     | None => []
                     end) videos.

(** The position of a weekday name in the week. *)
Definition day_index (name : text) : nat := index_of name day_names.

(** The sample channel seen through a parser that accepts one date only. *)
Definition one_date_platform : platform :=
  {| netloc_valid := netloc_valid sample_platform;
     fromisoformat := fun s =>
       if text_eqb s (lit "2024-01-04T09:00:00+00:00")
       then Some {| dt_weekday := Thursday; dt_hour := 9; dt_aware := true;
                    dt_micros := 1704358800000000 |}
       else None;
     stdev := stdev sample_platform;
     float_sum := float_sum sample_platform;
     channels_for_handle := channels_for_handle sample_platform;
     channels_content_details := channels_content_details sample_platform;
     channels_snippet_statistics := channels_snippet_statistics sample_platform;
     channels_topic_details := channels_topic_details sample_platform;
     playlist_items := playlist_items sample_platform;
     videos := videos sample_platform;
     videos_statistics := videos_statistics sample_platform;
     comment_threads := comment_threads sample_platform |}.

(** A channel without uploads. *)
Definition empty_channel_platform : platform :=
  {| netloc_valid := netloc_valid sample_platform;
     fromisoformat := fromisoformat sample_platform;
     stdev := stdev sample_platform;
     float_sum := float_sum sample_platform;
     channels_for_handle := channels_for_handle sample_platform;
     channels_content_details := channels_content_details sample_platform;
     channels_snippet_statistics := channels_snippet_statistics sample_platform;
     channels_topic_details := channels_topic_details sample_platform;
     playlist_items := fun _ _ _ _ =>
       Some {| pp_items := []; pp_nextPageToken := None |};
     videos := videos sample_platform;
     videos_statistics := videos_statistics sample_platform;
     comment_threads := comment_threads sample_platform |}.

(** Two uploads; the publish time of the first is written without a UTC
    offset, so that [fromisoformat] returns an offset-naive value for it. *)
Definition mixed_items : list video_item :=
  [ sample_item "v1" "First" "2024-01-04T09:00:00" 100 10 0;
    sample_item "v2" "Second" "2024-01-01T10:00:00Z" 50 5 0 ].

Definition mixed_platform : platform :=
  {| netloc_valid := netloc_valid sample_platform;
     fromisoformat := fun s =>
       if text_eqb s (lit "2024-01-04T09:00:00")
       then Some {| dt_weekday := Thursday; dt_hour := 9; dt_aware := false;
                    dt_micros := 1704358800000000 |}
       else sample_fromisoformat s;
     stdev := stdev sample_platform;
     float_sum := float_sum sample_platform;
     channels_for_handle := channels_for_handle sample_platform;
     channels_content_details := channels_content_details sample_platform;
     channels_snippet_statistics := channels_snippet_statistics sample_platform;
     channels_topic_details := channels_topic_details sample_platform;
     playlist_items := playlist_items sample_platform;
     videos := fun _ _ => Some mixed_items;
     videos_statistics := videos_statistics sample_platform;
     comment_threads := comment_threads sample_platform |}.

(** The whole days between two timestamps of one kind. *)
Definition whole_days (t1 t2 : datetime) : Z :=
  Z.abs (dt_micros t2 - dt_micros t1) / 86400000000.

(** The aggregator returns videos whose parsed publish timestamps are not
    all of one kind. *)
Definition mixed_fetched (P : platform) (fuel : nat) (channel_url : text)
    (limit : Z) (n : nat) : Prop :=
  exists videos n1,
    _fetch_videos_for_channel P fuel channel_url limit n = Done (videos, n1)
    /\ videos <> []
    /\ same_kind (parsed_timestamps P videos) = false.

(** The page loop described iteration by iteration.  [runs limit acc token n
    k r] says that, started with [acc] and [token] after [n] requests, the
    loop makes [k] requests and ends with [r]:
    - none when [acc] already holds [limit] items;
    - one when that request fails, or when its response carries no token
      (or an empty one) or brings the items collected to [limit];
    - one more than the rest of the loop otherwise. *)
Section PageRuns.

Variables Item Page : Type.
Variable cap : Z.
Variable endpoint : Z -> option text -> nat -> option Page.
Variable collect : Page -> list Item.
Variable next_of : Page -> option text.

(** The request of one iteration. *)
Definition request (limit : Z) (acc : list Item) (token : option text)
    (n : nat) : option Page :=
  endpoint (Z.min cap (limit - len acc)) (page_token token) n.

(** The test that ends the loop after a response. *)
Definition last_page (limit : Z) (acc : list Item) (data : Page) : bool :=
  (negb (truthy (next_of data)) || (limit <=? len (acc ++ collect data)))%bool.

Inductive runs (limit : Z)
  : list Item -> option text -> nat -> nat -> outcome (list Item * nat) -> Prop :=
| run_none acc token n :
    limit <= len acc ->
    runs limit acc token n 0 (Done (acc, n))
| run_failed acc token n :
    len acc < limit ->
    request limit acc token n = None ->
    runs limit acc token n 1 (Raised RequestFailed)
| run_last acc token n data :
    len acc < limit ->
    request limit acc token n = Some data ->
    last_page limit acc data = true ->
    runs limit acc token n 1 (Done (acc ++ collect data, S n))
| run_next acc token n data k r :
    len acc < limit ->
    request limit acc token n = Some data ->
    last_page limit acc data = false ->
    runs limit (acc ++ collect data) (next_of data) (S n) k r ->
    runs limit acc token n (S k) r.

End PageRuns.

(** The two loops of the source as instances. *)
Definition video_id_runs (P : platform) (uploads_playlist_id : text) :=
  runs 50 (fun size tok n => playlist_items P n uploads_playlist_id size tok)
       (fun data => video_ids_of (pp_items data)) pp_nextPageToken.

Definition comment_runs (P : platform) (video_id : text) :=
  runs 100 (fun size tok n => comment_threads P n video_id size tok)
       cp_items cp_nextPageToken.

(** A computation that, whatever its fuel, does not come to an end. *)
Definition never_returns {A} (loop : nat -> M A) (n : nat) : Prop :=
  forall fuel, loop fuel n = OutOfFuel.

(** A collaborator whose every page is empty and names a next page. *)
Definition endless_platform : platform :=
  {| netloc_valid := netloc_valid sample_platform;
     fromisoformat := fromisoformat sample_platform;
     stdev := stdev sample_platform;
     float_sum := float_sum sample_platform;
     channels_for_handle := channels_for_handle sample_platform;
     channels_content_details := channels_content_details sample_platform;
     channels_snippet_statistics := channels_snippet_statistics sample_platform;
     channels_topic_details := channels_topic_details sample_platform;
     playlist_items := fun _ _ _ _ =>
       Some {| pp_items := []; pp_nextPageToken := Some (lit "again") |};
     videos := videos sample_platform;
     videos_statistics := videos_statistics sample_platform;
     comment_threads := fun _ _ _ _ =>
       Some {| cp_items := []; cp_nextPageToken := Some (lit "again") |} |}.

(** A fuelled loop, started on no items and no token, agrees with the runs
    [run]: it computes the result of a run as soon as its fuel covers the
    requests of the run, what it computes within its fuel is the result of a
    run, and it never returns exactly when there is no run. *)
Definition follows_runs {Item : Type}
    (loop : nat -> Z -> M (list Item))
    (run : Z -> list Item -> option text -> nat -> nat ->
           outcome (list Item * nat) -> Prop) : Prop :=
  forall limit n,
    (forall k r, run limit [] None n k r ->
                 forall fuel, (k <= fuel)%nat -> loop fuel limit n = r)
    /\ (forall fuel r, loop fuel limit n = r -> r <> OutOfFuel ->
                       exists k, (k <= fuel)%nat /\ run limit [] None n k r)
    /\ (never_returns (fun fuel => loop fuel limit) n
        <-> forall k r, ~ run limit [] None n k r).

(** The path has one of the two shapes [resolve_channel_id] accepts. *)
Definition accepted (path : text) : bool :=
  match match_channel path, match_handle path with
  | None, None => false
  | _, _ => true
  end.

(** [k] trailing slashes. *)
Definition slashes (k : nat) : text := repeat "/"%char k.

(** [urlparse] accepts the URL, and its path has neither accepted shape. *)
Definition unsupported_shape (P : platform) (channel_url : text) : Prop :=
  exists path,
    Url.urlparse_path P channel_url = Done path
    /\ accepted (rstrip slash path) = false.

(** [compare_channels] works through its URLs in order: [fails_first f xs n e]
    says that [f] returns on the elements of [xs] before some element, and
    raises [e] on that one. *)
Definition fails_first {A B} (f : A -> M B) (xs : list A) (n : nat) (e : exn)
  : Prop :=
  exists pre x post ys n',
    xs = pre ++ x :: post
    /\ for_each f pre n = Done (ys, n')
    /\ f x n' = Raised e.

(* ------------------------------------------------------------------ *)
(** ** Further helpers and tools of [main.py] *)

(** [int(ds)] for a run [ds] of [\d]. *)
Definition digit_value (c : ascii) : Z := Z.of_nat (code c) - 48.

Definition int_of_digits (ds : text) : Z :=
  fold_left (fun n c => 10 * n + digit_value c) ds 0.

(** One group [(?:(\d+)X)?] of the duration pattern, read at the head of [s]:
    the run of digits counts when the letter [unit] follows it, and the text
    after the letter remains; otherwise the group is [None], [int(x or 0)]
    is 0 and [s] remains. *)
Definition component (unit : ascii) (s : text) : Z * text :=
  match takewhile is_digit s, dropwhile is_digit s with
  | (_ :: _) as ds, c :: rest =>
      if is_char unit c then (int_of_digits ds, rest) else (0, s)
  | _, _ => (0, s)
  end.

(** [_parse_duration]; [re.match] anchors the pattern at the start only. *)
Definition _parse_duration (iso_duration : option text) : Z :=
  match strip_prefix (lit "PT")
          (match iso_duration with Some s => s | None => [] end) with
  | None => 0
  | Some rest =>
      let '(h, rest) := component "H" rest in
      let '(m, rest) := component "M" rest in
      let '(s, _) := component "S" rest in
      h * 3600 + m * 60 + s
  end.

(** [str(n)] for a natural number. *)
Definition decimal (n : nat) : text :=
  lit (NilEmpty.string_of_uint (Nat.to_uint n)).

(** A component of a duration as the platform writes it, when present. *)
Definition written (value : option nat) (unit : ascii) : text :=
  match value with
  | Some n => decimal n ++ [unit]
  | None => []
  end.

(** [c.isspace()] and [c.isalpha()] *)
Definition is_space (c : ascii) : bool :=
  (between 9 13 c || between 28 32 c || is_char "133" c || is_char "160" c)%bool.

Definition is_alpha (c : ascii) : bool :=
  (between 65 90 c || between 97 122 c || is_char "170" c || is_char "181" c
   || is_char "186" c || between 192 214 c || between 216 246 c
   || between 248 255 c)%bool.

(** [s.strip()] *)
Definition strip (s : text) : text := rstrip is_space (lstrip is_space s).

(** [s.split()]: the maximal runs without whitespace; [cur] holds, in
    reverse, the run being read. *)
Fixpoint words_aux (cur : text) (s : text) : list text :=
  match s with
  | [] => match cur with [] => [] | _ => [rev cur] end
  | c :: r =>
      if is_space c
      then match cur with
           | [] => words_aux [] r
           | _ => rev cur :: words_aux [] r
           end
      else words_aux (c :: cur) r
  end.

Definition words (s : text) : list text := words_aux [] s.

(* ---- Tool 5: get_video_transcript ---- *)

(** The two [ValueError]s of [get_video_transcript]. *)
Inductive transcript_error : Type :=
| BotVerificationRequired (video_id : text)
| CouldNotFetch (video_id error_msg : text).

Record transcript : Type := {
  tr_video_id : text;
  transcript_text : text;
  word_count : Z;
  segment_count : Z
}.

Section Transcript.

(** [YouTubeTranscriptApi().fetch(id).to_raw_data()]: [str(e)] of the
    exception it raised, or the [text] of each segment. *)
Variable fetch_raw : text -> text + list text.

Definition get_video_transcript (video_id : text)
  : transcript_error + transcript :=
  match fetch_raw video_id with
  | inl error_msg =>
      if contains (lit "PoToken") error_msg
      then inl (BotVerificationRequired video_id)
      else inl (CouldNotFetch video_id error_msg)
  | inr segments =>
      let transcript_text := strip (join (lit " ") segments) in
      let word_count :=
        match transcript_text with
        | [] => 0
        | _ => len (words transcript_text)
        end in
      inr {| tr_video_id := video_id;
             transcript_text := transcript_text;
             word_count := word_count;
             segment_count := len segments |}
  end.

End Transcript.

(* ---- Tool 13: get_tag_analysis ---- *)

(** [tag.lower().strip()] *)
Definition normal_tag (tag : text) : text := strip (lower tag).

(** [tag_views]: a dictionary from tag to the list of views, in insertion
    order; [d.setdefault(k, []).append(v)]. *)
Definition tag_table := list (text * list Z).

Fixpoint append_to (k : text) (v : Z) (d : tag_table) : tag_table :=
  match d with
  | [] => [(k, [v])]
  | (k', l) :: r =>
      if text_eqb k k' then (k', l ++ [v]) :: r else (k', l) :: append_to k v r
  end.

Record tag_stat : Type := {
  ts_tag : text;
  ts_count : Z;
  ts_avg_views : Q
}.

Record tag_analysis : Type := {
  ta_total_videos_analyzed : Z;
  unique_tags : Z;
  top_tags_by_frequency : list tag_stat;
  top_tags_by_avg_views : list tag_stat
}.

(** The inner loop over the tags of one video. *)
Definition add_tags (d : tag_table) (v : video) : tag_table :=
  fold_left (fun d tag =>
               let tag_lower := normal_tag tag in
               match tag_lower with
               | [] => d
               | _ => append_to tag_lower (views v) d
               end)
            (tags v) d.

Definition tag_views_of (videos : list video) : tag_table :=
  fold_left add_tags videos [].

Definition stat_of (entry : text * list Z) : tag_stat :=
  let '(tag, view_list) := entry in
  {| ts_tag := tag;
     ts_count := len view_list;
     ts_avg_views :=
       _safe_float (true_div (sumZ view_list) (len view_list)) 0 |}.

Definition tag_analysis_of (videos : list video) : tag_analysis :=
  let tag_views := tag_views_of videos in
  match tag_views with
  | [] =>
      {| ta_total_videos_analyzed := len videos;
         unique_tags := 0;
         top_tags_by_frequency := [];
         top_tags_by_avg_views := [] |}
  | _ =>
      let tag_stats := map stat_of tag_views in
      {| ta_total_videos_analyzed := len videos;
         unique_tags := len tag_views;
         top_tags_by_frequency :=
           slice_to 20 (sorted (descending (fun x => inject_Z (ts_count x)))
                               tag_stats);
         top_tags_by_avg_views :=
           slice_to 20 (sorted (descending ts_avg_views) tag_stats) |}
  end.

Definition get_tag_analysis (P : platform) (fuel : nat) (channel_url : text)
    (limit : Z) : M tag_analysis :=
  videos <- _fetch_videos_for_channel P fuel channel_url limit ;;
  match videos with
  | [] => raise NoVideosFound
  | _ => ret (tag_analysis_of videos)
  end.

(* ---- Tool 16: get_comment_keywords ---- *)

Record keywords : Type := {
  kw_video_id : text;
  comments_analyzed : Z;
  top_keywords : counter
}.

(** [Counter(ws)]: each word with its number of occurrences, in order of
    first occurrence. *)
Definition count_all (ws : list text) : counter :=
  fold_left (fun c w => bump w c) ws [].

(** [c.most_common(n)] for an integer [n]: nothing for [n <= 0], else the
    first [n] entries by decreasing count, equal counts in the order of the
    counter. *)
Definition most_common (n : Z) (c : counter) : counter :=
  if n <=? 0 then []
  else firstn (Z.to_nat n) (sorted (descending (fun kv => inject_Z (snd kv))) c).

Section Keywords.

Variable P : platform.
(** [nltk.tokenize.word_tokenize] and [nltk_stopwords.words("english")] *)
Variable word_tokenize : text -> list text.
Variable STOPWORDS : list text.

(** [w.isalpha() and len(w) >= 3 and w not in STOPWORDS] *)
Definition kept (w : text) : bool :=
  (match w with [] => false | _ => forallb is_alpha w end
   && (3 <=? len w)
   && negb (existsb (text_eqb w) STOPWORDS))%bool.

Definition keywords_of (video_id : text) (comment_data : video_comments)
    (top_n : Z) : keywords :=
  let all_text := join (lit " ") (map c_text (vc_comments comment_data)) in
  let tokens := word_tokenize (lower all_text) in
  let filtered := filter kept tokens in
  let counter := count_all filtered in
  {| kw_video_id := video_id;
     comments_analyzed := returned_comment_count comment_data;
     top_keywords := most_common top_n counter |}.

Definition get_comment_keywords (fuel : nat) (video_id : text)
    (limit top_n : Z) : M keywords :=
  comment_data <- get_video_comments P fuel video_id limit ;;
  ret (keywords_of video_id comment_data top_n).

End Keywords.

(** The number a component of a duration stands for; none stands for 0. *)
Definition amount (value : option nat) : Z :=
  match value with
  | Some n => Z.of_nat n
  | None => 0
  end.

(** The resolution names [_thumbnail_url] tries, best first. *)
Definition tiers : list text :=
  map lit ["maxres"; "standard"; "high"; "medium"; "default"]%string.

(** The sample channel behind a collaborator that refuses what the loops
    never ask for: a page of fewer than 1 or more than 50 playlist items, or
    an empty page token. *)
Definition strict_platform : platform :=
  {| netloc_valid := netloc_valid sample_platform;
     fromisoformat := fromisoformat sample_platform;
     stdev := stdev sample_platform;
     float_sum := float_sum sample_platform;
     channels_for_handle := channels_for_handle sample_platform;
     channels_content_details := channels_content_details sample_platform;
     channels_snippet_statistics := channels_snippet_statistics sample_platform;
     channels_topic_details := channels_topic_details sample_platform;
     playlist_items := fun n id size tok =>
       if ((1 <=? size) && (size <=? 50))%bool
       then match tok with
            | Some [] => None
            | _ => playlist_items sample_platform n id size tok
            end
       else None;
     videos := videos sample_platform;
     videos_statistics := videos_statistics sample_platform;
     comment_threads := comment_threads sample_platform |}.

(** [winner] is the id of a row of [rows] that no row exceeds in [key]. *)
Definition best_by {A} (id : A -> text) (key : A -> Q) (rows : list A)
    (winner : text) : Prop :=
  exists w, In w rows /\ id w = winner /\ forall v, In v rows -> (key v <= key w)%Q.

(** The ways in which the channel video aggregator fails. *)
Definition aggregator_error (channel_url : text) (e : exn) : Prop :=
  e = InvalidURL \/ e = RequestFailed \/ e = UnsupportedUrl channel_url
  \/ (exists handle, e = NoChannelForHandle handle)
  \/ (exists channel_id, e = ChannelNotFound channel_id).

(** The status that goes with a score in every check of the SEO tool. *)
Definition status_of_score (s : Z) : text :=
  if s =? 100 then lit "great"
  else if s =? 80 then lit "good"
  else if 50 <=? s then lit "ok"
  else lit "poor".

(** The aggregator returns without a video. *)
Definition none_fetched (P : platform) (fuel : nat) (channel_url : text)
    (limit : Z) (n : nat) : Prop :=
  exists n1, _fetch_videos_for_channel P fuel channel_url limit n = Done ([], n1).

(** What the loop of [get_upload_schedule] keeps of a counter: the counts
    add up to [total], each is at least 1, and no key is empty. *)
Definition counted (c : counter) (total : Z) : Prop :=
  sumZ (map snd c) = total
  /\ Forall (fun kv => 1 <= snd kv) c
  /\ Forall (fun kv => fst kv <> []) c.

(** The views of the videos that carry a tag normalising to [k], one entry
    for each such tag, in the order of the videos and of their tags. *)
Definition tag_uses (videos : list video) (k : text) : list Z :=
  flat_map (fun v =>
              flat_map (fun tag =>
                          if text_eqb (normal_tag tag) k then [views v] else [])
                       (tags v))
           videos.

(** [d.get(k, [])] *)
Fixpoint views_of (k : text) (d : tag_table) : list Z :=
  match d with
  | [] => []
  | (k', l) :: r => if text_eqb k k' then l else views_of k r
  end.

(** [c[k]] for a counter: 0 for a missing key. *)
Fixpoint count_of (k : text) (c : counter) : Z :=
  match c with
  | [] => 0
  | (k', m) :: r => if text_eqb k k' then m else count_of k r
  end.

(** [ws.count(w)] *)
Definition occurrences (w : text) (ws : list text) : Z :=
  len (filter (text_eqb w) ws).

(* ------------------------------------------------------------------ *)
(** * Properties *)

(** ** The request monad *)

Lemma bind_done {A B} (m : M A) (k : A -> M B) n r :
  bind m k n = Done r ->
  exists a n1, m n = Done (a, n1) /\ k a n1 = Done r.
Proof.
  unfold bind. destruct (m n) as [[a n1]| |]; try discriminate.
  intros H. exists a, n1. split; [reflexivity | exact H].
Qed.

Lemma bind_step {A B} (m : M A) (k : A -> M B) n a n1 :
  m n = Done (a, n1) -> bind m k n = k a n1.
Proof. unfold bind. intros ->. reflexivity. Qed.

Lemma ret_done {A} (a b : A) n n1 : ret a n = Done (b, n1) -> a = b /\ n = n1.
Proof. unfold ret. intros H. inversion H. split; reflexivity. Qed.

(** Takes apart a hypothesis that says a sequence of binds ended in [Done]. *)
Ltac unbind H :=
  repeat match type of H with
         | bind _ _ _ = Done _ =>
             let a := fresh "a" in
             let n := fresh "n" in
             let E := fresh "E" in
             apply bind_done in H; destruct H as (a & n & E & H)
         end.

(** ** Rounding *)

Lemma round_half_even_near (x : Q) :
  (Qabs (inject_Z (round_half_even x) - x) <= 1 # 2)%Q.
Proof.
  unfold round_half_even.
  pose proof (Qfloor_le x) as Hlo.
  pose proof (Qlt_floor x) as Hhi.
  rewrite inject_Z_plus in Hhi.
  apply Qabs_Qle_condition.
  destruct (Qcompare_spec (x - inject_Z (Qfloor x)) (1 # 2)) as [E|L|G];
    [destruct (Z.even (Qfloor x))| |]; rewrite ?inject_Z_plus;
    change (inject_Z 1) with 1%Q in *;
    revert Hlo Hhi; try revert E; try revert L; try revert G;
    generalize (inject_Z (Qfloor x)); intros q **; split; lra.
Qed.

Lemma round_half_even_zero (x : Q) :
  round_half_even x = 0 <-> (- (1 # 2) <= x <= 1 # 2)%Q.
Proof.
  pose proof (round_half_even_near x) as H.
  apply Qabs_Qle_condition in H.
  split.
  - intros E. rewrite E in H. change (inject_Z 0) with 0%Q in H.
    destruct H. split; lra.
  - intros [Hlo Hhi].
    assert (Hf : Qfloor x = -1 \/ Qfloor x = 0).
    { pose proof (Qfloor_le x) as A. pose proof (Qlt_floor x) as B.
      rewrite inject_Z_plus in B. change (inject_Z 1) with 1%Q in B.
      assert (inject_Z (Qfloor x) < inject_Z 1)%Q as C
          by (change (inject_Z 1) with 1%Q; lra).
      assert (inject_Z (-2) < inject_Z (Qfloor x))%Q as D
          by (change (inject_Z (-2)) with (-2 # 1)%Q; lra).
      rewrite <- Zlt_Qlt in C, D. lia. }
    unfold round_half_even.
    destruct Hf as [Hf|Hf]; rewrite Hf; change (inject_Z (-1)) with (-1 # 1)%Q;
      change (inject_Z 0) with 0%Q;
      destruct (Qcompare_spec (x - (-1 # 1)) (1 # 2));
      destruct (Qcompare_spec (x - 0) (1 # 2)); simpl; try reflexivity; try lra.
Qed.

(** ** Sorting and maxima *)

Lemma Qlt_bool_iff (a b : Q) : Qlt_bool a b = true <-> (a < b)%Q.
Proof.
  unfold Qlt_bool. rewrite negb_true_iff.
  split.
  - intros H. apply Qnot_le_lt. intros L. apply Qle_bool_iff in L. congruence.
  - intros H. destruct (Qle_bool b a) eqn:E; [|reflexivity].
    apply Qle_bool_iff in E. exfalso. apply (Qlt_not_le _ _ H E).
Qed.

Lemma Qlt_bool_false (a b : Q) : Qlt_bool a b = false <-> (b <= a)%Q.
Proof.
  unfold Qlt_bool. rewrite negb_false_iff. apply Qle_bool_iff.
Qed.

(** ** Binary64 rounding *)

Lemma round_half_even_ge (x : Q) (a : Z) :
  (inject_Z a <= x)%Q -> a <= round_half_even x.
Proof.
  intros Ha.
  pose proof (Qlt_floor x) as Hhi.
  rewrite inject_Z_plus in Hhi. change (inject_Z 1) with 1%Q in Hhi.
  assert (Fa : a <= Qfloor x).
  { assert (inject_Z a < inject_Z (Qfloor x + 1))%Q as C
        by (rewrite inject_Z_plus; change (inject_Z 1) with 1%Q; lra).
    rewrite <- Zlt_Qlt in C. lia. }
  unfold round_half_even.
  destruct (x - inject_Z (Qfloor x) ?= 1 # 2)%Q;
    [destruct (Z.even (Qfloor x))| |]; lia.
Qed.

Lemma round_half_even_le (x : Q) (b : Z) :
  (x <= inject_Z b)%Q -> round_half_even x <= b.
Proof.
  intros Hb.
  pose proof (Qfloor_le x) as Hlo.
  assert (Fb : Qfloor x <= b).
  { assert (inject_Z (Qfloor x) <= inject_Z b)%Q as C by lra.
    rewrite <- Zle_Qle in C. exact C. }
  unfold round_half_even.
  destruct (Z.eq_dec (Qfloor x) b) as [E|E].
  - assert (X : (x - inject_Z (Qfloor x) <= 0)%Q) by (rewrite E; lra).
    destruct (Qcompare_spec (x - inject_Z (Qfloor x)) (1 # 2)) as [C|C|C];
      try lra. lia.
  - destruct (Qcompare_spec (x - inject_Z (Qfloor x)) (1 # 2));
      [destruct (Z.even (Qfloor x))| |]; lia.
Qed.

Lemma pow2_pos (e : Z) : (0 < pow2 e)%Q.
Proof. apply Qpower_0_lt. reflexivity. Qed.

Lemma pow2_plus (a b : Z) : (pow2 (a + b) == pow2 a * pow2 b)%Q.
Proof. apply Qpower_plus. discriminate. Qed.

Lemma pow2_Z (e : Z) : 0 <= e -> (pow2 e == inject_Z (2 ^ e))%Q.
Proof. intros H. unfold pow2. rewrite Zpower_Qpower by exact H. reflexivity. Qed.

Lemma pow2_le (n m : Z) : n <= m -> (pow2 n <= pow2 m)%Q.
Proof. intros H. apply Qpower_le_compat_l; [exact H | discriminate]. Qed.

Lemma pow2_le_inv (n m : Z) : (pow2 n <= pow2 m)%Q -> n <= m.
Proof. intros H. apply (Qpower_le_compat_l_inv 2); [exact H | reflexivity]. Qed.

Lemma pow2_opp (e : Z) : (pow2 e * pow2 (- e) == 1)%Q.
Proof.
  rewrite <- pow2_plus. replace (e + - e) with 0 by lia. reflexivity.
Qed.

Lemma fl_zero (x : Q) : (x == 0)%Q -> fl x = 0%Q.
Proof.
  intros H. unfold fl. apply Qeq_bool_iff in H. rewrite H. reflexivity.
Qed.

Lemma fl_eq (x : Q) :
  ~ (x == 0)%Q ->
  let e := Z.max (binade x - 52) (-1074) in
  (fl x == inject_Z (round_half_even (x / pow2 e)) * pow2 e)%Q.
Proof.
  intros H e. unfold fl.
  destruct (Qeq_bool x 0) eqn:E; [apply Qeq_bool_iff in E; contradiction|].
  apply Qred_correct.
Qed.

Lemma fl_canonical (x : Q) : Qred (fl x) = fl x.
Proof.
  unfold fl. destruct (Qeq_bool x 0); [reflexivity|].
  apply Qred_complete, Qred_correct.
Qed.

Lemma binade_lower (x : Q) : ~ (x == 0)%Q -> (pow2 (binade x) <= Qabs x)%Q.
Proof.
  intros Hx. unfold binade.
  set (n := Z.abs (Qnum x)). set (d := Z.pos (Qden x)).
  set (e := Z.log2 n - Z.log2 d).
  destruct (Qlt_bool (Qabs x) (pow2 e)) eqn:L;
    [|apply Qlt_bool_false in L; exact L].
  assert (Hn : 0 < n).
  { unfold n. destruct x as [[|p|p] q]; cbn; try lia.
    exfalso. apply Hx. reflexivity. }
  assert (Hd : 0 < d) by (unfold d; lia).
  destruct (Z.log2_spec n Hn) as [N1 _].
  destruct (Z.log2_spec d Hd) as [_ D2].
  pose proof (Z.log2_nonneg n) as Ln. pose proof (Z.log2_nonneg d) as Ld.
  assert (A : (Qabs x == inject_Z n / inject_Z d)%Q).
  { destruct x as [a q]. unfold n, d, Qabs. cbn [Qnum Qden].
    rewrite (Qmake_Qdiv (Z.abs a) q). reflexivity. }
  assert (B : (pow2 (e - 1) == inject_Z (2 ^ Z.log2 n) / inject_Z (2 ^ Z.succ (Z.log2 d)))%Q).
  { replace (e - 1) with (Z.log2 n - Z.succ (Z.log2 d)) by (unfold e; lia).
    unfold pow2. rewrite Qpower_minus by discriminate.
    rewrite !Zpower_Qpower by lia. reflexivity. }
  rewrite A, B.
  assert (P1 : (0 < inject_Z (2 ^ Z.succ (Z.log2 d)))%Q)
    by (rewrite <- pow2_Z by lia; apply pow2_pos).
  assert (P2 : (0 < inject_Z d)%Q)
    by (change 0%Q with (inject_Z 0); rewrite <- Zlt_Qlt; exact Hd).
  apply Qle_shift_div_l; [exact P2|].
  unfold Qdiv. rewrite <- Qmult_assoc, (Qmult_comm (/ _)), Qmult_assoc.
  apply Qle_shift_div_r; [exact P1|].
  rewrite <- !inject_Z_mult, <- Zle_Qle. nia.
Qed.

Lemma fl_nonneg (x : Q) : (0 <= x)%Q -> (0 <= fl x)%Q.
Proof.
  intros Hx. destruct (Qeq_dec x 0) as [E|E]; [rewrite (@fl_zero x E); apply Qle_refl|].
  rewrite (@fl_eq x E). apply Qmult_le_0_compat; [|apply Qlt_le_weak, pow2_pos].
  change 0%Q with (inject_Z 0). rewrite <- Zle_Qle.
  apply round_half_even_ge. change (inject_Z 0) with 0%Q.
  apply Qle_shift_div_l; [apply pow2_pos|]. rewrite Qmult_0_l. exact Hx.
Qed.

Lemma fl_nonpos (x : Q) : (x <= 0)%Q -> (fl x <= 0)%Q.
Proof.
  intros Hx. destruct (Qeq_dec x 0) as [E|E]; [rewrite (@fl_zero x E); apply Qle_refl|].
  rewrite (@fl_eq x E).
  set (m := round_half_even _).
  assert (Hm : m <= 0).
  { apply round_half_even_le. change (inject_Z 0) with 0%Q.
    apply Qle_shift_div_r; [apply pow2_pos|]. rewrite Qmult_0_l. exact Hx. }
  rewrite Zle_Qle in Hm. change (inject_Z 0) with 0%Q in Hm.
  pose proof (pow2_pos (Z.max (binade x - 52) (-1074))) as Hp.
  revert Hm Hp. generalize (inject_Z m), (pow2 (Z.max (binade x - 52) (-1074))).
  intros a b Ha Hb. nra.
Qed.

(** Below [2 ^ 52] a double is no coarser than the integers. *)
Lemma exponent_small (x : Q) :
  (0 < x)%Q -> (x <= inject_Z (2 ^ 52))%Q -> Z.max (binade x - 52) (-1074) <= 0.
Proof.
  intros Hx Hb.
  assert (E : ~ (x == 0)%Q) by (intros E; rewrite E in Hx; discriminate Hx).
  pose proof (@binade_lower x E) as L.
  rewrite (Qabs_pos x) in L by (apply Qlt_le_weak; exact Hx).
  assert (binade x <= 52).
  { apply pow2_le_inv. rewrite (@pow2_Z 52) by lia.
    apply Qle_trans with x; assumption. }
  lia.
Qed.

Lemma scaled (x : Q) (e : Z) :
  e <= 0 -> (x / pow2 e == x * inject_Z (2 ^ (- e)))%Q.
Proof.
  intros He. rewrite <- pow2_Z by lia.
  pose proof (pow2_opp e) as O. pose proof (pow2_pos e) as Pp.
  revert O Pp. generalize (pow2 e), (pow2 (- e)). intros p q O Pp.
  assert (I : (/ p == q)%Q).
  { rewrite <- (Qmult_1_l (/ p)), <- O. field.
    intros C. rewrite C in Pp. discriminate Pp. }
  unfold Qdiv. rewrite I. reflexivity.
Qed.

Lemma fl_le_int (x : Q) (b : Z) :
  0 <= b <= 2 ^ 52 -> (x <= inject_Z b)%Q -> (fl x <= inject_Z b)%Q.
Proof.
  intros [B0 B1] Hx.
  assert (Hb : (0 <= inject_Z b)%Q)
    by (change 0%Q with (inject_Z 0); rewrite <- Zle_Qle; exact B0).
  destruct (Qlt_le_dec 0 x) as [Hp|Hn];
    [|apply Qle_trans with 0%Q; [apply fl_nonpos; exact Hn | exact Hb]].
  assert (E : ~ (x == 0)%Q) by (intros E; rewrite E in Hp; discriminate Hp).
  assert (He : Z.max (binade x - 52) (-1074) <= 0).
  { apply exponent_small; [exact Hp|]. apply Qle_trans with (inject_Z b); [exact Hx|].
    rewrite <- Zle_Qle. exact B1. }
  rewrite (@fl_eq x E). set (e := Z.max (binade x - 52) (-1074)) in *.
  assert (Hm : round_half_even (x / pow2 e) <= b * 2 ^ (- e)).
  { apply round_half_even_le. rewrite (@scaled x e He), inject_Z_mult.
    apply Qmult_le_compat_r; [exact Hx|].
    rewrite <- pow2_Z by lia. apply Qlt_le_weak, pow2_pos. }
  rewrite Zle_Qle, inject_Z_mult, <- pow2_Z in Hm by lia.
  pose proof (pow2_opp e) as O. pose proof (pow2_pos e) as Pp.
  revert Hm O Pp. generalize (inject_Z (round_half_even (x / pow2 e))).
  generalize (pow2 e), (pow2 (- e)), (inject_Z b). intros p q c m Hm O Pp.
  assert (m * p <= c * q * p)%Q by (apply Qmult_le_compat_r; [exact Hm | lra]).
  assert (c * q * p == c)%Q by (rewrite <- Qmult_assoc, (Qmult_comm q), O; ring).
  lra.
Qed.

Lemma fl_ge_int (x : Q) (a : Z) :
  0 <= a <= 2 ^ 52 -> (inject_Z a <= x)%Q -> (inject_Z a <= fl x)%Q.
Proof.
  intros [A0 A1] Hx.
  assert (Ha : (0 <= inject_Z a)%Q)
    by (change 0%Q with (inject_Z 0); rewrite <- Zle_Qle; exact A0).
  destruct (Z.eq_dec a 0) as [->|Hne];
    [apply fl_nonneg; apply Qle_trans with (inject_Z 0); [apply Qle_refl | exact Hx]|].
  assert (Hp : (0 < x)%Q).
  { apply Qlt_le_trans with (inject_Z a); [|exact Hx].
    change 0%Q with (inject_Z 0). rewrite <- Zlt_Qlt. lia. }
  assert (E : ~ (x == 0)%Q) by (intros E; rewrite E in Hp; discriminate Hp).
  rewrite (@fl_eq x E). set (e := Z.max (binade x - 52) (-1074)) in *.
  pose proof (pow2_opp e) as O. pose proof (pow2_pos e) as Pp.
  destruct (Z_le_gt_dec e 0) as [He|He].
  - assert (Hm : a * 2 ^ (- e) <= round_half_even (x / pow2 e)).
    { apply round_half_even_ge. rewrite (@scaled x e He), inject_Z_mult.
      apply Qmult_le_compat_r; [exact Hx|].
      rewrite <- pow2_Z by lia. apply Qlt_le_weak, pow2_pos. }
    rewrite Zle_Qle, inject_Z_mult, <- pow2_Z in Hm by lia.
    revert Hm O Pp. generalize (inject_Z (round_half_even (x / pow2 e))).
    generalize (pow2 e), (pow2 (- e)), (inject_Z a). intros p q c m Hm O Pp.
    assert (c * q * p <= m * p)%Q by (apply Qmult_le_compat_r; [exact Hm | lra]).
    assert (c * q * p == c)%Q by (rewrite <- Qmult_assoc, (Qmult_comm q), O; ring).
    lra.
  - assert (Eb : e = binade x - 52) by lia.
    pose proof (@binade_lower x E) as L.
    rewrite (Qabs_pos x) in L by (apply Qlt_le_weak; exact Hp).
    replace (binade x) with (52 + e) in L by lia.
    rewrite pow2_plus, (@pow2_Z 52) in L by lia.
    assert (Hm : 2 ^ 52 <= round_half_even (x / pow2 e)).
    { apply round_half_even_ge. apply Qle_shift_div_l; [exact Pp | exact L]. }
    rewrite Zle_Qle in Hm. rewrite Zle_Qle in A1.
    assert (P1 : (1 <= pow2 e)%Q) by (apply Qpower_1_le; [discriminate | lia]).
    revert Hm A1 P1 Ha. generalize (inject_Z (round_half_even (x / pow2 e))).
    generalize (pow2 e), (inject_Z a), (inject_Z (2 ^ 52)). intros p c t m Hm A1 P1 Ha.
    nra.
Qed.

Lemma Qred_inject_Z (z : Z) : Qred (inject_Z z) = inject_Z z.
Proof.
  unfold Qred, inject_Z.
  pose proof (Z.ggcd_gcd z 1) as G. pose proof (Z.ggcd_correct_divisors z 1) as D.
  destruct (Z.ggcd z 1) as [g [aa bb]]. cbn [fst snd] in *.
  rewrite Z.gcd_1_r in G. subst g. destruct D as [D1 D2].
  rewrite Z.mul_1_l in D1, D2. subst aa bb. reflexivity.
Qed.

Lemma fl_integer (z : Z) : 0 <= z <= 2 ^ 52 -> fl (inject_Z z) = inject_Z z.
Proof.
  intros Hz.
  assert (E : (fl (inject_Z z) == inject_Z z)%Q).
  { apply Qle_antisym; [apply fl_le_int | apply fl_ge_int];
      try exact Hz; apply Qle_refl. }
  rewrite <- fl_canonical. rewrite (@Qred_complete _ _ E). apply Qred_inject_Z.
Qed.

Lemma fl_close (x : Q) :
  (Qabs (fl x - x) <= (Qabs x + 1) * (1 # 1000000000000000))%Q.
Proof.
  destruct (Qeq_dec x 0) as [E|E].
  { rewrite (@fl_zero x E), E. vm_compute. discriminate. }
  rewrite (@fl_eq x E). set (e := Z.max (binade x - 52) (-1074)).
  pose proof (round_half_even_near (x / pow2 e)) as N.
  pose proof (pow2_pos e) as Pp.
  set (m := inject_Z (round_half_even (x / pow2 e))) in *.
  assert (D : (Qabs (m * pow2 e - x) <= (1 # 2) * pow2 e)%Q).
  { assert (Eq : (m * pow2 e - x == (m - x / pow2 e) * pow2 e)%Q)
      by (field; intros C; rewrite C in Pp; discriminate Pp).
    rewrite Eq, Qabs_Qmult, (Qabs_pos (pow2 e)) by (apply Qlt_le_weak; exact Pp).
    apply Qmult_le_compat_r; [exact N | apply Qlt_le_weak; exact Pp]. }
  apply Qle_trans with ((1 # 2) * pow2 e)%Q; [exact D|].
  pose proof (@binade_lower x E) as L.
  pose proof (Qabs_nonneg x) as A0.
  destruct (Z.max_spec (binade x - 52) (-1074)) as [[_ Em]|[_ Em]]; fold e in Em.
  - rewrite Em.
    assert (C : ((1 # 2) * pow2 (-1074) <= 1 # 1000000000000000)%Q)
      by (vm_compute; discriminate).
    revert C A0. generalize (Qabs x), ((1 # 2) * pow2 (-1074))%Q. intros a c C A0. nra.
  - rewrite Em. replace (binade x - 52) with (binade x + -52) by lia.
    rewrite pow2_plus.
    assert (C : ((1 # 2) * pow2 (-52) <= 1 # 1000000000000000)%Q)
      by (vm_compute; discriminate).
    pose proof (pow2_pos (binade x)) as Pb. pose proof (pow2_pos (-52)) as P52.
    revert C A0 L Pb P52. generalize (Qabs x), (pow2 (binade x)), (pow2 (-52)).
    intros a b c C A0 L Pb P52. nra.
Qed.

Lemma round_half_even_comp (x y : Q) :
  (x == y)%Q -> round_half_even x = round_half_even y.
Proof.
  intros E. unfold round_half_even.
  rewrite (Qfloor_comp _ _ E).
  assert (C : (x - inject_Z (Qfloor y) ?= 1 # 2)%Q
              = (y - inject_Z (Qfloor y) ?= 1 # 2)%Q).
  { apply Qcompare_comp; [rewrite E; reflexivity | reflexivity]. }
  rewrite C. reflexivity.
Qed.

Lemma binade_upper (x : Q) : ~ (x == 0)%Q -> (Qabs x < pow2 (binade x + 1))%Q.
Proof.
  intros Hx. unfold binade.
  set (n := Z.abs (Qnum x)). set (d := Z.pos (Qden x)).
  set (e := Z.log2 n - Z.log2 d).
  destruct (Qlt_bool (Qabs x) (pow2 e)) eqn:L.
  { apply Qlt_bool_iff in L. replace (e - 1 + 1) with e by lia. exact L. }
  assert (Hn : 0 < n).
  { unfold n. destruct x as [[|p|p] q]; cbn; try lia.
    exfalso. apply Hx. reflexivity. }
  assert (Hd : 0 < d) by (unfold d; lia).
  destruct (Z.log2_spec n Hn) as [_ N2].
  destruct (Z.log2_spec d Hd) as [D1 _].
  pose proof (Z.log2_nonneg n) as Ln. pose proof (Z.log2_nonneg d) as Ld.
  assert (A : (Qabs x == inject_Z n / inject_Z d)%Q).
  { destruct x as [a q]. unfold n, d, Qabs. cbn [Qnum Qden].
    rewrite (Qmake_Qdiv (Z.abs a) q). reflexivity. }
  assert (B : (pow2 (e + 1) == inject_Z (2 ^ Z.succ (Z.log2 n)) / inject_Z (2 ^ Z.log2 d))%Q).
  { replace (e + 1) with (Z.succ (Z.log2 n) - Z.log2 d) by (unfold e; lia).
    unfold pow2. rewrite Qpower_minus by discriminate.
    rewrite !Zpower_Qpower by lia. reflexivity. }
  rewrite A, B.
  assert (P1 : (0 < inject_Z (2 ^ Z.log2 d))%Q)
    by (rewrite <- pow2_Z by lia; apply pow2_pos).
  assert (P2 : (0 < inject_Z d)%Q)
    by (change 0%Q with (inject_Z 0); rewrite <- Zlt_Qlt; exact Hd).
  apply Qlt_shift_div_r; [exact P2|].
  unfold Qdiv. rewrite <- Qmult_assoc, (Qmult_comm (/ _)), Qmult_assoc.
  apply Qlt_shift_div_l; [exact P1|].
  rewrite <- !inject_Z_mult, <- Zlt_Qlt. nia.
Qed.

Lemma pow2_lt_inv (n m : Z) : (pow2 n < pow2 m)%Q -> n < m.
Proof. intros H. apply (Qpower_lt_compat_l_inv 2); [exact H | reflexivity]. Qed.

Lemma binade_unique (x : Q) (e : Z) :
  (pow2 e <= Qabs x)%Q -> (Qabs x < pow2 (e + 1))%Q -> binade x = e.
Proof.
  intros L U.
  assert (Hx : ~ (x == 0)%Q).
  { intros C. rewrite C in L. pose proof (pow2_pos e) as Pp.
    change (Qabs 0) with 0%Q in L. lra. }
  pose proof (@binade_lower x Hx) as L'. pose proof (@binade_upper x Hx) as U'.
  assert (binade x < e + 1)
    by (apply pow2_lt_inv; apply Qle_lt_trans with (Qabs x); assumption).
  assert (e < binade x + 1)
    by (apply pow2_lt_inv; apply Qle_lt_trans with (Qabs x); assumption).
  lia.
Qed.

Lemma binade_comp (x y : Q) : (x == y)%Q -> ~ (x == 0)%Q -> binade x = binade y.
Proof.
  intros E Hx. symmetry. apply binade_unique; rewrite <- E.
  - apply binade_lower. exact Hx.
  - apply binade_upper. exact Hx.
Qed.

Lemma fl_comp (x y : Q) : (x == y)%Q -> fl x = fl y.
Proof.
  intros E. destruct (Qeq_dec x 0) as [Z0|NZ].
  - rewrite (@fl_zero x Z0), (@fl_zero y); [reflexivity|].
    apply Qeq_trans with x; [symmetry; exact E | exact Z0].
  - unfold fl.
    destruct (Qeq_bool x 0) eqn:E1; [apply Qeq_bool_iff in E1; contradiction|].
    destruct (Qeq_bool y 0) eqn:E2;
      [apply Qeq_bool_iff in E2; exfalso; apply NZ; apply Qeq_trans with y; assumption|].
    rewrite <- (@binade_comp x y E NZ).
    apply Qred_complete.
    rewrite (@round_half_even_comp (x / pow2 (Z.max (binade x - 52) (-1074)))
                                  (y / pow2 (Z.max (binade x - 52) (-1074))));
      [reflexivity|].
    unfold Qdiv. apply Qmult_comp; [exact E | reflexivity].
Qed.

(** *** [round(x, ndigits)] *)

Lemma scale_pos (d : nat) : (0 < inject_Z (10 ^ Z.of_nat d))%Q.
Proof.
  change 0%Q with (inject_Z 0). rewrite <- Zlt_Qlt.
  apply Z.pow_pos_nonneg; lia.
Qed.

Lemma py_round_nonneg (x : Q) (d : nat) : (0 <= x)%Q -> (0 <= py_round x d)%Q.
Proof.
  intros Hx. unfold py_round. apply fl_nonneg.
  pose proof (scale_pos d) as Hq.
  apply Qle_shift_div_l; [exact Hq|]. rewrite Qmult_0_l.
  change 0%Q with (inject_Z 0). rewrite <- Zle_Qle.
  apply round_half_even_ge. change (inject_Z 0) with 0%Q.
  apply Qmult_le_0_compat; [exact Hx | apply Qlt_le_weak; exact Hq].
Qed.

Lemma py_round_le (x : Q) (d : nat) (b : Z) :
  0 <= b <= 2 ^ 52 -> (x <= inject_Z b)%Q -> (py_round x d <= inject_Z b)%Q.
Proof.
  intros Hb Hx. unfold py_round. apply fl_le_int; [exact Hb|].
  pose proof (scale_pos d) as Hq.
  apply Qle_shift_div_r; [exact Hq|].
  rewrite <- inject_Z_mult, <- Zle_Qle.
  apply round_half_even_le. rewrite inject_Z_mult.
  apply Qmult_le_compat_r; [exact Hx | apply Qlt_le_weak; exact Hq].
Qed.

Lemma py_round_zero (x : Q) (d : nat) : (x == 0)%Q -> py_round x d = 0%Q.
Proof.
  intros Hx. unfold py_round. apply fl_zero.
  assert (E : round_half_even (x * inject_Z (10 ^ Z.of_nat d)) = 0).
  { apply round_half_even_zero.
    assert (Z0 : (x * inject_Z (10 ^ Z.of_nat d) == 0)%Q)
      by (apply Qeq_trans with (0 * inject_Z (10 ^ Z.of_nat d))%Q;
          [apply Qmult_comp; [exact Hx | reflexivity] | apply Qmult_0_l]).
    split; [apply Qle_trans with 0%Q | apply Qle_trans with 0%Q];
      try discriminate; apply Qle_lteq; right;
      [symmetry; exact Z0 | exact Z0]. }
  rewrite E. unfold Qdiv. apply Qmult_0_l.
Qed.

Lemma round_half_even_whole (x : Q) (z : Z) :
  (x == inject_Z z)%Q -> round_half_even x = z.
Proof.
  intros E. rewrite (@round_half_even_comp x (inject_Z z) E).
  unfold round_half_even. rewrite Qfloor_Z.
  assert (C : (inject_Z z - inject_Z z ?= 1 # 2)%Q = Lt).
  { apply Qlt_alt. apply Qle_lt_trans with 0%Q; [|reflexivity].
    apply Qle_lteq. right. ring. }
  rewrite C. reflexivity.
Qed.

(** [round(x, 1)] of a whole number of days is that number. *)
Lemma py_round_whole (g : Z) :
  0 <= g <= 2 ^ 48 -> py_round (inject_Z g) 1 = inject_Z g.
Proof.
  intros Hg. unfold py_round.
  change (inject_Z (10 ^ Z.of_nat 1)) with (10 # 1)%Q.
  rewrite (@round_half_even_whole (inject_Z g * (10 # 1)) (g * 10))
    by (rewrite inject_Z_mult; reflexivity).
  rewrite (@fl_comp (inject_Z (g * 10) / (10 # 1)) (inject_Z g))
    by (rewrite inject_Z_mult; change (inject_Z 10) with (10 # 1)%Q; field).
  apply fl_integer. change (2 ^ 52) with (16 * 2 ^ 48). lia.
Qed.

(** *** The engagement rate *)

Lemma py_round_decimal (x : Q) :
  exists k : Z,
    py_round x 4 = fl (inject_Z k / 10000)
    /\ (Qabs (inject_Z k / 10000 - x) <= 1 # 20000)%Q.
Proof.
  exists (round_half_even (x * inject_Z (10 ^ Z.of_nat 4))).
  split; [reflexivity|].
  pose proof (round_half_even_near (x * inject_Z (10 ^ Z.of_nat 4))) as N.
  change (inject_Z (10 ^ Z.of_nat 4)) with (10000 # 1)%Q in *.
  apply Qabs_Qle_condition in N. apply Qabs_Qle_condition.
  destruct N as [N1 N2].
  revert N1 N2. generalize (inject_Z (round_half_even (x * (10000 # 1)))).
  intros k N1 N2.
  assert (E : (k / 10000 - x == (k - x * (10000 # 1)) * (1 # 10000))%Q) by field.
  rewrite E. split; lra.
Qed.

Lemma fl_near (x : Q) (b : Q) :
  (Qabs x <= b)%Q ->
  (Qabs (fl x - x) <= (b + 1) * (1 # 1000000000000000))%Q
  /\ (Qabs (fl x) <= b + (b + 1) * (1 # 1000000000000000))%Q.
Proof.
  intros Hb. pose proof (fl_close x) as C.
  assert (C' : (Qabs (fl x - x) <= (b + 1) * (1 # 1000000000000000))%Q).
  { apply Qle_trans with ((Qabs x + 1) * (1 # 1000000000000000))%Q; [exact C|].
    apply Qmult_le_compat_r; [lra | discriminate]. }
  split; [exact C'|].
  apply Qabs_Qle_condition in C'. apply Qabs_Qle_condition in Hb.
  apply Qabs_Qle_condition. destruct C', Hb. split; lra.
Qed.

Lemma rate_accurate (a v : Z) :
  0 < v -> 0 <= a <= 1000000 * v ->
  (Qabs (py_round (fmul (true_div a v) 100) 4 - inject_Z a / inject_Z v * 100)
   <= 51 # 1000000)%Q.
Proof.
  intros Hv [A0 A1].
  assert (Hq : (0 < inject_Z v)%Q)
    by (change 0%Q with (inject_Z 0); rewrite <- Zlt_Qlt; exact Hv).
  set (q := (inject_Z a / inject_Z v)%Q).
  assert (Q0 : (0 <= q)%Q).
  { apply Qle_shift_div_l; [exact Hq|]. rewrite Qmult_0_l.
    change 0%Q with (inject_Z 0). rewrite <- Zle_Qle. exact A0. }
  assert (Q1 : (q <= 1000000)%Q).
  { apply Qle_shift_div_r; [exact Hq|].
    change 1000000%Q with (inject_Z 1000000).
    rewrite <- inject_Z_mult, <- Zle_Qle. exact A1. }
  assert (Qa : (Qabs q <= 1000000)%Q) by (rewrite Qabs_pos; assumption).
  unfold true_div, fmul. fold q.
  destruct (@fl_near q 1000000 Qa) as [Y1 Y2].
  set (y := fl q) in *.
  assert (Pa : (Qabs (y * 100) <= 100000101)%Q).
  { rewrite Qabs_Qmult. change (Qabs 100) with 100%Q.
    revert Y2. generalize (Qabs y). intros t Y2. lra. }
  destruct (@fl_near (y * 100) 100000101 Pa) as [X1 X2].
  set (x := fl (y * 100)) in *.
  destruct (py_round_decimal x) as (k & -> & K).
  set (t := (inject_Z k / 10000)%Q) in *.
  assert (Ta : (Qabs t <= 100000103)%Q).
  { apply Qabs_Qle_condition in K. apply Qabs_Qle_condition in X2.
    apply Qabs_Qle_condition. destruct K, X2. split; lra. }
  destruct (@fl_near t 100000103 Ta) as [R1 _].
  apply Qabs_Qle_condition in Y1, X1, K, R1. apply Qabs_Qle_condition.
  destruct Y1, X1, K, R1. split; lra.
Qed.

(** [round(x, 4)] is 0 exactly for [x] within 0.00005 of 0. *)
Lemma py_round_zero_iff (x : Q) :
  py_round x 4 = 0%Q <-> (Qabs x <= 1 # 20000)%Q.
Proof.
  unfold py_round.
  change (inject_Z (10 ^ Z.of_nat 4)) with (10000 # 1)%Q.
  set (k := round_half_even (x * (10000 # 1))).
  assert (K : k = 0 <-> (Qabs x <= 1 # 20000)%Q).
  { unfold k. rewrite round_half_even_zero. split.
    - intros [H1 H2]. apply Qabs_Qle_condition. split; lra.
    - intros H. apply Qabs_Qle_condition in H. destruct H. split; lra. }
  rewrite <- K. split.
  - intros E. pose proof (fl_close (inject_Z k / (10000 # 1))) as C.
    rewrite E in C.
    assert (A : (Qabs (inject_Z k / (10000 # 1)) < 1 # 10000)%Q).
    { assert (Qabs (0 - inject_Z k / (10000 # 1))
              == Qabs (inject_Z k / (10000 # 1)))%Q as Ea.
      { rewrite <- (Qabs_opp (inject_Z k / (10000 # 1))).
        apply Qabs_wd. ring. }
      rewrite Ea in C. revert C.
      generalize (Qabs (inject_Z k / (10000 # 1))). intros a C. lra. }
    unfold Qdiv in A. rewrite Qabs_Qmult in A.
    change (Qabs (/ (10000 # 1))) with (1 # 10000)%Q in A.
    assert (B : (Qabs (inject_Z k) < 1)%Q).
    { revert A. generalize (Qabs (inject_Z k)). intros a A. lra. }
    apply Qabs_Qlt_condition in B. destruct B as [B1 B2].
    change (-(1))%Q with (inject_Z (-1)) in B1.
    change 1%Q with (inject_Z 1) in B2.
    rewrite <- Zlt_Qlt in B1, B2. lia.
  - intros ->. apply fl_zero. reflexivity.
Qed.

Lemma exponent_below (x : Q) :
  (0 < x)%Q -> (x <= inject_Z (2 ^ 51))%Q -> Z.max (binade x - 52) (-1074) <= -1.
Proof.
  intros Hx Hb.
  assert (E : ~ (x == 0)%Q) by (intros E; rewrite E in Hx; discriminate Hx).
  pose proof (@binade_lower x E) as L.
  rewrite (Qabs_pos x) in L by (apply Qlt_le_weak; exact Hx).
  assert (binade x <= 51).
  { apply pow2_le_inv. rewrite (@pow2_Z 51) by lia.
    apply Qle_trans with x; assumption. }
  lia.
Qed.

(** Halves of whole numbers up to [2^52] are binary64 numbers. *)
Lemma fl_half (m : Z) :
  0 <= m <= 2 ^ 52 -> (fl (inject_Z m * (1 # 2)) == inject_Z m * (1 # 2))%Q.
Proof.
  intros [M0 M1].
  destruct (Z.eq_dec m 0) as [->|Hne]; [reflexivity|].
  set (x := (inject_Z m * (1 # 2))%Q).
  assert (Hm : (0 < inject_Z m)%Q)
    by (change 0%Q with (inject_Z 0); rewrite <- Zlt_Qlt; lia).
  assert (Hp : (0 < x)%Q) by (unfold x; lra).
  assert (E : ~ (x == 0)%Q) by (intros E; rewrite E in Hp; discriminate Hp).
  assert (He : Z.max (binade x - 52) (-1074) <= -1).
  { apply exponent_below; [exact Hp|].
    assert (B : (inject_Z m <= inject_Z (2 ^ 52))%Q) by (rewrite <- Zle_Qle; exact M1).
    change (inject_Z (2 ^ 52)) with (2 * inject_Z (2 ^ 51))%Q in B.
    unfold x. lra. }
  rewrite (@fl_eq x E). set (e := Z.max (binade x - 52) (-1074)) in *.
  assert (W : round_half_even (x / pow2 e) = m * 2 ^ (- e - 1)).
  { apply round_half_even_whole. rewrite (@scaled x e) by lia.
    assert (P2 : 2 ^ (- e) = 2 * 2 ^ (- e - 1)).
    { rewrite <- (Z.pow_succ_r 2 (- e - 1)) by lia. f_equal. lia. }
    rewrite P2, !inject_Z_mult. change (inject_Z 2) with 2%Q. unfold x. ring. }
  rewrite W. rewrite inject_Z_mult, <- pow2_Z by lia.
  assert (O : (pow2 (- e - 1) * pow2 e == 1 # 2)%Q).
  { rewrite <- pow2_plus. replace (- e - 1 + e) with (-1) by lia. reflexivity. }
  rewrite <- Qmult_assoc, O. unfold x. field.
Qed.

Lemma round_half_even_strict (y : Q) (k : Z) :
  (Qabs (y - inject_Z k) < 1 # 2)%Q -> round_half_even y = k.
Proof.
  intros H. pose proof (round_half_even_near y) as N.
  apply Qabs_Qlt_condition in H. apply Qabs_Qle_condition in N.
  destruct H as [H1 H2], N as [N1 N2].
  assert (A : (inject_Z (round_half_even y) < inject_Z (k + 1))%Q)
    by (rewrite inject_Z_plus; change (inject_Z 1) with 1%Q; lra).
  assert (B : (inject_Z (k - 1) < inject_Z (round_half_even y))%Q).
  { replace (k - 1) with (k + -1) by lia. rewrite inject_Z_plus.
    change (inject_Z (-1)) with (-1 # 1)%Q. lra. }
  rewrite <- Zlt_Qlt in A, B. lia.
Qed.

Lemma safe_rate_ok (l c v : Z) :
  rate_of_counts l c v
    (_safe_float (if 0 <? v
                  then fmul (true_div (l + c) v) 100
                  else 0%Q) 4).
Proof.
  unfold rate_of_counts, _safe_float, float_rate, exact_rate.
  assert (Z0 : l + c = 0 ->
               py_round (fmul (true_div (l + c) v) 100) 4 = 0%Q).
  { intros ->. apply py_round_zero. unfold fmul, true_div.
    assert (E : fl (inject_Z 0 / inject_Z v) = 0%Q)
      by (apply fl_zero; unfold Qdiv; apply Qmult_0_l).
    rewrite E. rewrite (@fl_zero (0 * 100)); reflexivity. }
  destruct (Z.ltb_spec 0 v) as [Hv|Hv].
  - split; [lia|]. split; [reflexivity|].
    split; [intros _; apply py_round_decimal|].
    split; [exact Z0|]. split; [intros _; apply py_round_zero_iff|]. split.
    + intros _ Ha. apply py_round_nonneg. unfold fmul. apply fl_nonneg.
      apply Qmult_le_0_compat; [|discriminate].
      unfold true_div. apply fl_nonneg.
      assert (Hq : (0 < inject_Z v)%Q)
        by (change 0%Q with (inject_Z 0); rewrite <- Zlt_Qlt; exact Hv).
      apply Qle_shift_div_l; [exact Hq|]. rewrite Qmult_0_l.
      change 0%Q with (inject_Z 0). rewrite <- Zle_Qle. exact Ha.
    + intros _ Ha. apply rate_accurate; assumption.
  - split; [reflexivity|]. split; [lia|]. split; [lia|].
    split; [reflexivity|]. split; [lia|]. split; lia.
Qed.


Section SortFacts.

Variable A : Type.
Variable before : A -> A -> bool.

Lemma insert_perm (x : A) (l : list A) :
  Permutation (insert before x l) (x :: l).
Proof.
  induction l as [|y r IH]; simpl.
  - apply Permutation_refl.
  - destruct (before y x).
    + apply perm_trans with (y :: x :: r).
      * apply perm_skip. exact IH.
      * apply perm_swap.
    + apply Permutation_refl.
Qed.

Lemma sorted_perm (l : list A) : Permutation (sorted before l) l.
Proof.
  induction l as [|x r IH]; simpl.
  - apply perm_nil.
  - apply perm_trans with (x :: sorted before r).
    + apply insert_perm.
    + apply perm_skip. exact IH.
Qed.

Lemma sorted_length (l : list A) : List.length (sorted before l) = List.length l.
Proof. apply Permutation_length, sorted_perm. Qed.

(** Nothing is placed before an element that must precede it. *)
Hypothesis before_asym : forall a b, before a b = true -> before b a = false.

Lemma insert_sorted (x : A) (l : list A) :
  Sorted (fun a b => before b a = false) l ->
  Sorted (fun a b => before b a = false) (insert before x l).
Proof.
  induction l as [|y r IH]; intros S; simpl.
  - constructor; constructor.
  - destruct (before y x) eqn:E.
    + inversion S as [|? ? Sr Hd]; subst. constructor.
      * apply IH. exact Sr.
      * destruct r as [|z r']; simpl.
        -- constructor. apply before_asym. exact E.
        -- destruct (before z x); constructor.
           ++ inversion Hd; assumption.
           ++ apply before_asym. exact E.
    + constructor; [exact S|]. constructor. exact E.
Qed.

Lemma sorted_sorted (l : list A) :
  Sorted (fun a b => before b a = false) (sorted before l).
Proof.
  induction l as [|x r IH]; simpl.
  - constructor.
  - apply insert_sorted. exact IH.
Qed.

End SortFacts.

Section KeyedSort.

Variable A : Type.
Variable key : A -> Q.

(** Stability: the elements with a given key keep their order. *)
Lemma insert_stable (before : A -> A -> bool) (q : Q) (x : A) (l : list A) :
  (forall a b, before a b = true -> ~ (key a == key b)) ->
  filter (same_key key q) (insert before x l) = filter (same_key key q) (x :: l).
Proof.
  intros Hb. induction l as [|y r IH]; [reflexivity|].
  simpl insert. destruct (before y x) eqn:E; [|reflexivity].
  simpl filter in *. rewrite IH.
  destruct (same_key key q y) eqn:Ey; [|reflexivity].
  destruct (same_key key q x) eqn:Ex; [|reflexivity].
  exfalso. apply (Hb _ _ E). unfold same_key in *.
  apply Qeq_bool_iff in Ex, Ey. rewrite Ex, Ey. reflexivity.
Qed.

Lemma sorted_stable (before : A -> A -> bool) (q : Q) (l : list A) :
  (forall a b, before a b = true -> ~ (key a == key b)) ->
  filter (same_key key q) (sorted before l) = filter (same_key key q) l.
Proof.
  intros Hb. induction l as [|x r IH]; [reflexivity|].
  simpl sorted. rewrite insert_stable by exact Hb.
  simpl. rewrite IH. reflexivity.
Qed.

Lemma descending_asym (a b : A) :
  descending key a b = true -> descending key b a = false.
Proof.
  unfold descending. rewrite Qlt_bool_iff, Qlt_bool_false. apply Qlt_le_weak.
Qed.

Lemma descending_strict (a b : A) :
  descending key a b = true -> ~ (key a == key b).
Proof.
  unfold descending. rewrite Qlt_bool_iff. intros L E. rewrite E in L.
  apply (Qlt_irrefl _ L).
Qed.

Lemma ascending_asym (a b : A) :
  ascending key a b = true -> ascending key b a = false.
Proof.
  unfold ascending. rewrite Qlt_bool_iff, Qlt_bool_false. apply Qlt_le_weak.
Qed.

Lemma sorted_descending (l : list A) :
  StronglySorted (fun a b => (key b <= key a)%Q) (sorted (descending key) l).
Proof.
  apply Sorted_StronglySorted.
  - intros a b c H1 H2. apply Qle_trans with (key b); assumption.
  - pose proof (sorted_sorted (descending key) descending_asym l) as S.
    induction S as [|a r Sr IH Hd]; constructor.
    + exact IH.
    + destruct Hd as [|b r' Hb]; constructor.
      unfold descending in Hb. apply Qlt_bool_false in Hb. exact Hb.
Qed.

Lemma sorted_ascending (l : list A) :
  StronglySorted (fun a b => (key a <= key b)%Q) (sorted (ascending key) l).
Proof.
  apply Sorted_StronglySorted.
  - intros a b c H1 H2. apply Qle_trans with (key b); assumption.
  - pose proof (sorted_sorted (ascending key) ascending_asym l) as S.
    induction S as [|a r Sr IH Hd]; constructor.
    + exact IH.
    + destruct Hd as [|b r' Hb]; constructor.
      unfold ascending in Hb. apply Qlt_bool_false in Hb. exact Hb.
Qed.

(** [max(..., key=key)] returns an element of its argument, of greatest key,
    and the first such. *)
Lemma py_max_by_in (first : A) (rest : list A) :
  In (py_max_by key first rest) (first :: rest).
Proof.
  unfold py_max_by. revert first.
  induction rest as [|x r IH]; intros first; simpl.
  - left. reflexivity.
  - destruct (Qlt_bool (key first) (key x)).
    + destruct (IH x) as [H|H]; [right; left; exact H | right; right; exact H].
    + destruct (IH first) as [H|H]; [left; exact H | right; right; exact H].
Qed.

Lemma py_max_by_ge (first : A) (rest : list A) (y : A) :
  In y (first :: rest) -> (key y <= key (py_max_by key first rest))%Q.
Proof.
  unfold py_max_by.
  set (step := fun best x : A => if Qlt_bool (key best) (key x) then x else best).
  assert (G : forall r b, (key b <= key (fold_left step r b))%Q).
  { induction r as [|x r IH]; intros b; simpl.
    - apply Qle_refl.
    - apply Qle_trans with (key (step b x)); [|apply IH].
      unfold step. destruct (Qlt_bool (key b) (key x)) eqn:E.
      + apply Qlt_le_weak, Qlt_bool_iff, E.
      + apply Qle_refl. }
  assert (G2 : forall r b, In y r -> (key y <= key (fold_left step r b))%Q).
  { induction r as [|x r IH]; intros b H; simpl.
    - destruct H.
    - destruct H as [H|H].
      + subst x. apply Qle_trans with (key (step b y)); [|apply G].
        unfold step. destruct (Qlt_bool (key b) (key y)) eqn:E.
        * apply Qle_refl.
        * apply Qlt_bool_false, E.
      + apply IH. exact H. }
  intros [H|H].
  - subst y. apply G.
  - apply G2. exact H.
Qed.

End KeyedSort.

(** ** Slices and enumeration *)

Lemma slice_to_incl {A} (n : Z) (l : list A) (x : A) :
  In x (slice_to n l) -> In x l.
Proof.
  unfold slice_to. destruct (0 <=? n); intros H;
    match type of H with
    | In _ (firstn ?k _) =>
        rewrite <- (firstn_skipn k l); apply in_or_app; left; exact H
    end.
Qed.

Lemma slice_to_length {A} (n : Z) (l : list A) :
  0 <= n -> len (slice_to n l) = Z.min n (len l).
Proof.
  intros Hn. unfold slice_to, len.
  destruct (Z.leb_spec 0 n); [|lia].
  rewrite length_firstn. lia.
Qed.

Lemma slice_to_sorted {A} (R : A -> A -> Prop) (n : Z) (l : list A) :
  StronglySorted R l -> StronglySorted R (slice_to n l).
Proof.
  intros S. unfold slice_to.
  assert (G : forall k, StronglySorted R (firstn k l)).
  { induction S as [|a r Sr IH Ha]; intros [|k]; simpl; try constructor.
    - apply IH.
    - rewrite Forall_forall in *. intros y Hy. apply Ha.
      rewrite <- (firstn_skipn k r). apply in_or_app. left. exact Hy. }
  destruct (0 <=? n); apply G.
Qed.

Lemma enumerate_from_snd {A} (i : Z) (l : list A) :
  map snd (enumerate_from i l) = l.
Proof.
  revert i. induction l as [|x r IH]; intros i; simpl; [|rewrite IH]; reflexivity.
Qed.

Lemma enumerate_from_fst {A} (i : nat) (l : list A) :
  map fst (enumerate_from (Z.of_nat i) l)
  = map Z.of_nat (seq i (List.length l)).
Proof.
  revert i. induction l as [|x r IH]; intros i; simpl; [reflexivity|].
  f_equal. replace (Z.of_nat i + 1) with (Z.of_nat (S i)) by lia. apply IH.
Qed.

Lemma enumerate_from_length {A} (i : Z) (l : list A) :
  List.length (enumerate_from i l) = List.length l.
Proof.
  rewrite <- (length_map snd), enumerate_from_snd. reflexivity.
Qed.

(** ** C1: the engagement rate *)

Lemma with_rate_ok (v : video) :
  fst (with_rate v) = v
  /\ rate_of_counts (likes v) (comments v) (views v) (snd (with_rate v)).
Proof. split; [reflexivity | apply safe_rate_ok]. Qed.

(** C1, as amended.  In the output of [compare_videos], of [get_top_videos]
    and of [get_engagement_stats], every record's [engagement_rate_pct] is 0
    when its views are 0 (or negative).  For positive views it is
    [round(x, 4)] of the binary64 product [x = (likes + comments) / views * 100]:
    the binary64 number nearest to a decimal with four places that is within
    half a unit of its last place of [x].  With positive views it is 0
    exactly when [x] is within 0.00005 of 0, so also for a viewed video
    without likes and comments; it is not negative when the counters are not,
    and for a rate of at most 100000000 percent it is within 0.000051 of the
    exact quotient. *)
Theorem engagement_rate_by_tool (P : platform) :
  (forall video_ids n res n1,
      compare_videos P video_ids n = Done (res, n1) ->
      Forall (fun e => rate_of_counts (cv_likes e) (cv_comments e) (cv_views e)
                                      (cv_engagement_rate_pct e))
             (vcmp_videos res))
  /\ (forall fuel url metric limit n res n1,
         get_top_videos P fuel url metric limit n = Done (res, n1) ->
         Forall (fun e => rate_of_counts (rv_likes e) (rv_comments e) (rv_views e)
                                         (rv_engagement_rate_pct e))
                res)
  /\ (forall fuel url limit n res n1,
         get_engagement_stats P fuel url limit n = Done (res, n1) ->
         Forall (fun e => rate_of_counts (ev_likes e) (ev_comments e) (ev_views e)
                                         (ev_engagement_rate_pct e))
                (es_videos res)).
Proof.
  split; [|split].
  - intros ids n res n1 H. unfold compare_videos in H.
    destruct ids as [|i ids]; [discriminate|].
    unbind H. apply ret_done in H. destruct H as [<- _]. simpl vcmp_videos.
    apply Forall_forall. intros e He. apply in_map_iff in He.
    destruct He as (item & <- & _). apply safe_rate_ok.
  - intros fuel url metric limit n res n1 H. unfold get_top_videos in H.
    destruct (sort_key metric) as [k|]; [|discriminate].
    unbind H. apply ret_done in H. destruct H as [<- _].
    apply Forall_forall. intros e He. apply in_map_iff in He.
    destruct He as ([i [v q]] & <- & He).
    assert (Hv : In (v, q) (map with_rate a)).
    { apply (Permutation_in _ (sorted_perm (descending k) (map with_rate a))).
      apply (slice_to_incl limit).
      rewrite <- (enumerate_from_snd 0 (slice_to limit _)).
      apply (in_map snd) in He. exact He. }
    apply in_map_iff in Hv. destruct Hv as (v0 & Hv & _).
    inversion Hv; subst. simpl. apply safe_rate_ok.
  - intros fuel url limit n res n1 H. unfold get_engagement_stats in H.
    unbind H. destruct a as [|v rest]; [discriminate|].
    apply ret_done in H. destruct H as [<- _]. simpl es_videos.
    change (enrich v :: map enrich rest) with (map enrich (v :: rest)).
    apply Forall_forall. intros e He. apply in_map_iff in He.
    destruct He as (v0 & <- & _). apply safe_rate_ok.
Qed.

Lemma engagement_rate_by_tool_witness :
  match compare_videos sample_platform [lit "v1"; lit "v2"] 0%nat with
  | Done (res, _) =>
      Forall (fun e => rate_of_counts (cv_likes e) (cv_comments e) (cv_views e)
                                      (cv_engagement_rate_pct e))
             (vcmp_videos res)
  | _ => False
  end.
Proof.
  destruct (compare_videos sample_platform [lit "v1"; lit "v2"] 0%nat)
    as [[res n1]| |] eqn:E.
  - exact (proj1 (engagement_rate_by_tool sample_platform) _ _ _ _ E).
  - vm_compute in E. discriminate E.
  - vm_compute in E. discriminate E.
Defined.

(** C1 as stated fails: [compare_videos] on a video with 5 views, no likes
    and no comments reports the rate 0 although the views are not 0. *)
Lemma engagement_rate_zero_with_views :
  match compare_videos sample_platform [lit "v4"] 0%nat with
  | Done (res, _) =>
      map (fun e => (cv_views e, cv_likes e, cv_comments e, cv_engagement_rate_pct e))
          (vcmp_videos res) = [(5, 0, 0, 0%Q)]
      /\ ~ Forall (fun e => cv_engagement_rate_pct e == 0 <-> cv_views e = 0)
                  (vcmp_videos res)
  | _ => False
  end.
Proof.
  simpl. split; [reflexivity|].
  intros H. inversion H as [|? ? [H0 _] _]; subst.
  discriminate (H0 (Qeq_refl 0)).
Qed.

(** The rate follows the binary64 product, not the exact quotient: one like
    on 400000 views is 0.00025 percent exactly, the product is just above it
    and the rate is 0.0003; seven likes on 2000000 views are 0.00035 percent,
    the product is just below and the rate is 0.0003 again. *)
Example rate_follows_binary64 :
  py_round (float_rate 1 0 400000) 4 = fl (3 # 10000)
  /\ round_half_even (exact_rate 1 0 400000 * 10000) = 2
  /\ py_round (float_rate 7 0 2000000) 4 = fl (3 # 10000)
  /\ round_half_even (exact_rate 7 0 2000000 * 10000) = 4
  /\ py_round (true_div 7 20) 1 = fl (3 # 10).
Proof. vm_compute. repeat split; reflexivity. Qed.

(** ** C2: the ranking of [get_top_videos] *)

Lemma sort_key_row (metric : text) (k : video * Q -> Q) (i : Z) (v : video * Q) :
  sort_key metric = Some k -> metric_of_row metric (ranked (i, v)) = k v.
Proof.
  unfold sort_key, metric_of_row. destruct v as [v q].
  destruct (text_eqb metric (lit "views")); [intros H; inversion H; reflexivity|].
  destruct (text_eqb metric (lit "likes")); [intros H; inversion H; reflexivity|].
  destruct (text_eqb metric (lit "comments")); [intros H; inversion H; reflexivity|].
  destruct (text_eqb metric (lit "engagement_rate")); [|discriminate].
  intros H; inversion H; reflexivity.
Qed.

Lemma map_strongly_sorted {A B} (f : A -> B) (R : B -> B -> Prop) (l : list A) :
  StronglySorted (fun a b => R (f a) (f b)) l -> StronglySorted R (map f l).
Proof.
  induction 1 as [|a r Sr IH Ha]; simpl; constructor.
  - exact IH.
  - apply Forall_forall. intros y Hy. apply in_map_iff in Hy.
    destruct Hy as (x & <- & Hx). rewrite Forall_forall in Ha. apply Ha, Hx.
Qed.

Lemma enumerate_sorted {A} (R : A -> A -> Prop) (i : Z) (l : list A) :
  StronglySorted R l ->
  StronglySorted (fun a b => R (snd a) (snd b)) (enumerate_from i l).
Proof.
  intros S. revert i. induction S as [|a r Sr IH Ha]; intros i; simpl; constructor.
  - apply IH.
  - apply Forall_forall. intros [j y] Hy. simpl.
    rewrite Forall_forall in Ha. apply Ha.
    rewrite <- (enumerate_from_snd (i + 1) r). apply (in_map snd) in Hy. exact Hy.
Qed.

(** C2.  For a valid metric, whenever the aggregator returns the videos of
    the channel, [get_top_videos] returns: the rows of the first [limit]
    elements ([l[:limit]]) of a stable descending sort [S] of these videos by
    the metric; so its rows are non-increasing in the metric, its [rank]s are
    1, 2, ..., up to the number of rows, and for [limit >= 0] there are
    [min limit (number of videos)] rows. *)
Theorem get_top_videos_sorted_ranked (P : platform) (fuel : nat)
    (channel_url metric : text) (limit : Z) (n n1 : nat)
    (by_metric : video * Q -> Q) (videos : list video) :
  sort_key metric = Some by_metric ->
  _fetch_videos_for_channel P fuel channel_url 200 n = Done (videos, n1) ->
  exists S out,
    get_top_videos P fuel channel_url metric limit n = Done (out, n1)
    /\ Permutation S (map with_rate videos)
    /\ (forall q, filter (same_key by_metric q) S
                  = filter (same_key by_metric q) (map with_rate videos))
    /\ StronglySorted (fun a b => (by_metric b <= by_metric a)%Q) S
    /\ out = map ranked (enumerate_from 0 (slice_to limit S))
    /\ StronglySorted
         (fun a b => (metric_of_row metric b <= metric_of_row metric a)%Q) out
    /\ map rank out = map Z.of_nat (seq 1 (List.length out))
    /\ (0 <= limit -> len out = Z.min limit (len videos)).
Proof.
  intros Hk Hf.
  exists (sorted (descending by_metric) (map with_rate videos)).
  eexists. split.
  { unfold get_top_videos. rewrite Hk. erewrite bind_step by exact Hf. reflexivity. }
  set (S := sorted (descending by_metric) (map with_rate videos)).
  split; [apply sorted_perm|].
  split; [intros q; apply sorted_stable; intros a b; apply descending_strict|].
  split; [apply sorted_descending|].
  split; [reflexivity|].
  split; [|split].
  - apply map_strongly_sorted.
    assert (G : StronglySorted
                  (fun a b : Z * (video * Q) => (by_metric (snd b) <= by_metric (snd a))%Q)
                  (enumerate_from 0 (slice_to limit S))).
    { apply (@enumerate_sorted _ (fun a b => (by_metric b <= by_metric a)%Q)).
      apply slice_to_sorted. apply sorted_descending. }
    revert G. apply StronglySorted_ind; intros; constructor; try assumption.
    rewrite Forall_forall in *. intros [j y] Hy. destruct a as [i x].
    rewrite (@sort_key_row metric by_metric j y Hk).
    rewrite (@sort_key_row metric by_metric i x Hk).
    apply (H1 (j, y) Hy).
  - rewrite map_map.
    rewrite (map_ext (fun x => rank (ranked x)) (fun x => fst x + 1)).
    2:{ intros [i [v q]]. reflexivity. }
    rewrite <- (map_map fst (fun z => z + 1)).
    change (enumerate_from 0 (slice_to limit S))
      with (enumerate_from (Z.of_nat 0) (slice_to limit S)).
    rewrite enumerate_from_fst.
    rewrite length_map, enumerate_from_length.
    rewrite map_map. rewrite <- seq_shift, map_map.
    apply map_ext. intros k. lia.
  - intros Hl. unfold len. rewrite length_map, enumerate_from_length.
    fold (len (slice_to limit S)). rewrite slice_to_length by exact Hl.
    unfold len, S. rewrite sorted_length, length_map. reflexivity.
Qed.

Lemma get_top_videos_sorted_ranked_witness :
  exists out,
    get_top_videos sample_platform 5 (lit "https://www.youtube.com/@sample")
                   (lit "views") 2 0%nat = Done (out, 5%nat)
    /\ StronglySorted
         (fun a b => (metric_of_row (lit "views") b
                      <= metric_of_row (lit "views") a)%Q) out
    /\ map rank out = map Z.of_nat (seq 1 (List.length out)).
Proof.
  assert (Hk : sort_key (lit "views")
               = Some (fun v : video * Q => inject_Z (views (fst v))))
    by reflexivity.
  assert (Hf : _fetch_videos_for_channel sample_platform 5
                 (lit "https://www.youtube.com/@sample") 200 0%nat
               = Done (map normalize sample_items, 5%nat))
    by (vm_compute; reflexivity).
  destruct (@get_top_videos_sorted_ranked sample_platform 5
              (lit "https://www.youtube.com/@sample") (lit "views") 2
              0%nat 5%nat _ _ Hk Hf)
    as (S & out & E & _ & _ & _ & _ & Hs & Hr & _).
  exists out. split; [exact E|]. split; [exact Hs | exact Hr].
Defined.

(** The end-to-end example of the specification: views 100, 50 and 10, likes
    10, 5 and 0, no comments; the top 2 by views. *)
Example top_two_by_views :
  match get_top_videos sample_platform 5 (lit "https://www.youtube.com/@sample")
                       (lit "views") 2 0%nat with
  | Done (out, _) =>
      map (fun r => (rank r, rv_views r, rv_engagement_rate_pct r)) out
      = [(1, 100, 10%Q); (2, 50, 10%Q)]
  | _ => False
  end.
Proof. vm_compute. reflexivity. Qed.

(** ** C8: [get_channel_videos] *)

Lemma text_eqb_eq (a b : text) : text_eqb a b = true <-> a = b.
Proof.
  unfold text_eqb. destruct (list_eq_dec ascii_dec a b); split; congruence.
Qed.

Lemma text_eqb_refl (a : text) : text_eqb a a = true.
Proof. apply text_eqb_eq. reflexivity. Qed.

(** C8.  The result of [get_channel_videos] is the aggregator's list, in the
    same order, each video as the dictionary [without_tags] of its nine
    other entries; the aggregator's failure is passed on unchanged.  Looking
    a key up in [without_tags v] gives nothing for ["tags"] and, for every
    other key, what the aggregator's dictionary holds. *)
Theorem get_channel_videos_drops_tags (P : platform) (fuel : nat)
    (channel_url : text) (limit : Z) (n : nat) :
  match _fetch_videos_for_channel P fuel channel_url limit n with
  | Done (videos, n1) =>
      get_channel_videos P fuel channel_url limit n
      = Done (map without_tags videos, n1)
  | Raised e => get_channel_videos P fuel channel_url limit n = Raised e
  | OutOfFuel => get_channel_videos P fuel channel_url limit n = OutOfFuel
  end
  /\ forall (v : video) (k : text),
       lookup k (without_tags v)
       = if text_eqb k (key "tags") then None else lookup k (items v).
Proof.
  split.
  - unfold get_channel_videos, bind.
    destruct (_fetch_videos_for_channel P fuel channel_url limit n)
      as [[videos n1]| |]; reflexivity.
  - intros v k. destruct (text_eqb k (key "tags")) eqn:E.
    + apply text_eqb_eq in E. subst k. reflexivity.
    + unfold without_tags, items, lookup. rewrite E. reflexivity.
Qed.

Example channel_videos_of_sample :
  match get_channel_videos sample_platform 5
          (lit "https://www.youtube.com/channel/UCsample") 50 0%nat with
  | Done (out, _) =>
      map (map fst) out
      = [map key ["video_id"; "title"; "description"; "published_at";
                  "duration_seconds"; "views"; "likes"; "comments";
                  "thumbnail_url"]%string;
         map key ["video_id"; "title"; "description"; "published_at";
                  "duration_seconds"; "views"; "likes"; "comments";
                  "thumbnail_url"]%string;
         map key ["video_id"; "title"; "description"; "published_at";
                  "duration_seconds"; "views"; "likes"; "comments";
                  "thumbnail_url"]%string]
  | _ => False
  end.
Proof. vm_compute. reflexivity. Qed.

(** ** C7: the SEO score *)

Lemma round_half_even_fifth (total : Z) :
  Z.abs (5 * round_half_even (inject_Z total / inject_Z 5) - total) * 2 < 5.
Proof.
  pose proof (round_half_even_near (inject_Z total / inject_Z 5)) as N.
  apply Qabs_Qle_condition in N. destruct N as [N1 N2].
  set (r := round_half_even (inject_Z total / inject_Z 5)) in *.
  assert (E : (inject_Z total / inject_Z 5 == inject_Z total * (1 # 5))%Q)
    by (change (inject_Z 5) with (5 # 1)%Q; field).
  rewrite E in N1, N2.
  assert (A : (inject_Z (2 * (5 * r - total)) <= inject_Z 5)%Q).
  { unfold Z.sub. rewrite !inject_Z_mult, inject_Z_plus, inject_Z_opp, inject_Z_mult.
    change (inject_Z 2) with (2 # 1)%Q. change (inject_Z 5) with (5 # 1)%Q. lra. }
  assert (B : (inject_Z (- 5) <= inject_Z (2 * (5 * r - total)))%Q).
  { unfold Z.sub. rewrite !inject_Z_mult, inject_Z_plus, inject_Z_opp, inject_Z_mult.
    change (inject_Z 2) with (2 # 1)%Q. change (inject_Z 5) with (5 # 1)%Q.
    change (inject_Z (-5)) with (- 5 # 1)%Q. lra. }
  rewrite <- Zle_Qle in A, B. lia.
Qed.

Ltac tens k := exists k; split; [lia | reflexivity].

Lemma title_length_tens (title : text) :
  exists k, 0 <= k <= 10 /\ score (title_length_check title) = 10 * k.
Proof.
  unfold title_length_check.
  destruct (_ && _)%bool; [tens 10|].
  destruct (_ && _)%bool; [tens 7|].
  destruct (_ <? _); [tens 6 | tens 3].
Qed.

Lemma description_length_tens (description : text) :
  exists k, 0 <= k <= 10 /\ score (description_length_check description) = 10 * k.
Proof.
  unfold description_length_check.
  destruct (_ <=? _); [tens 10|].
  destruct (_ <=? _); [tens 8|].
  destruct (_ <=? _); [tens 5 | tens 1].
Qed.

Lemma tag_count_tens (tags : list text) :
  exists k, 0 <= k <= 10 /\ score (tag_count_check tags) = 10 * k.
Proof.
  unfold tag_count_check.
  destruct (_ && _)%bool; [tens 10|].
  destruct (_ <? _); [tens 7|].
  destruct (_ && _)%bool; [tens 5 | tens 0].
Qed.

Lemma thumbnail_tens (thumbnail : text) :
  exists k, 0 <= k <= 10 /\ score (thumbnail_check thumbnail) = 10 * k.
Proof. destruct thumbnail; [tens 0 | tens 10]. Qed.

Lemma description_quality_tens (description : text) :
  exists k, 0 <= k <= 10 /\ score (description_quality_check description) = 10 * k.
Proof.
  unfold description_quality_check.
  destruct (contains _ _); destruct (has_chapters _);
    [tens 10 | tens 8 | tens 8 | tens 6].
Qed.

(** The five scores are multiples of 10, so a fifth of their sum is a whole
    number, which the division in binary64 gives exactly. *)
Lemma seo_mean_whole (video_id : text) (item : video_item) :
  overall_score (seo_of video_id item)
  = round_half_even
      (inject_Z (sumZ (map (fun c => score (snd c))
                           (checks (seo_of video_id item)))) / inject_Z 5).
Proof.
  cbn [overall_score checks seo_of].
  change (len _) with 5.
  cbn [map snd sumZ fold_left].
  destruct (title_length_tens (vi_title item)) as (k1 & H1 & ->).
  destruct (description_length_tens (vi_description item)) as (k2 & H2 & ->).
  destruct (tag_count_tens (vi_tags item)) as (k3 & H3 & ->).
  destruct (thumbnail_tens (_thumbnail_url (vi_thumbnails item))) as (k4 & H4 & ->).
  destruct (description_quality_tens (vi_description item)) as (k5 & H5 & ->).
  set (t := k1 + k2 + k3 + k4 + k5).
  replace (0 + 10 * k1 + 10 * k2 + 10 * k3 + 10 * k4 + 10 * k5)
    with (5 * (2 * t)) by (unfold t; lia).
  assert (E : (inject_Z (5 * (2 * t)) / inject_Z 5 == inject_Z (2 * t))%Q).
  { rewrite (inject_Z_mult 5). change (inject_Z 5) with (5 # 1)%Q. field. }
  unfold true_div. rewrite (@fl_comp _ _ E).
  rewrite fl_integer by (unfold t; change (2 ^ 52) with 4503599627370496; lia).
  rewrite (@round_half_even_whole _ (2 * t) E).
  apply round_half_even_whole. reflexivity.
Qed.

(** C7.  When the lookup returns the video, [get_video_seo_score] returns a
    score whose [checks] are the five dimensions; a title of 40 to 70
    characters scores 100 "great"; no tags score 0 "poor"; and
    [overall_score] is the integer nearest to the mean of the five scores
    (a fifth of their sum is never half-way between two integers). *)
Theorem seo_score_rules (P : platform) (video_id : text) (n : nat)
    (item : video_item) (others : list video_item) :
  videos P n video_id = Some (item :: others) ->
  exists r,
    get_video_seo_score P video_id n = Done (r, S n)
    /\ map fst (checks r)
       = map key ["title_length"; "description_length"; "tag_count";
                  "thumbnail"; "description_quality"]%string
    /\ (40 <= len (vi_title item) <= 70 ->
        lookup (key "title_length") (checks r) = Some (check 100 "great"))
    /\ (len (vi_tags item) = 0 ->
        lookup (key "tag_count") (checks r) = Some (check 0 "poor"))
    /\ overall_score r
       = round_half_even
           (inject_Z (sumZ (map (fun c => score (snd c)) (checks r))) / inject_Z 5)
    /\ Z.abs (5 * overall_score r
              - sumZ (map (fun c => score (snd c)) (checks r))) * 2 < 5.
Proof.
  intros Hv. exists (seo_of video_id item).
  split.
  { unfold get_video_seo_score, bind, _get. rewrite Hv. reflexivity. }
  split; [reflexivity|].
  split.
  { intros [Hlo Hhi]. simpl. unfold title_length_check.
    apply Z.leb_le in Hlo, Hhi. rewrite Hlo, Hhi. reflexivity. }
  split.
  { intros H0. simpl. unfold tag_count_check. rewrite H0. reflexivity. }
  rewrite seo_mean_whole.
  split; [reflexivity|].
  apply round_half_even_fifth.
Qed.

Lemma seo_score_rules_witness :
  exists r,
    get_video_seo_score sample_platform (lit "v5") 0%nat = Done (r, 1%nat)
    /\ lookup (key "title_length") (checks r) = Some (check 100 "great")
    /\ lookup (key "tag_count") (checks r) = Some (check 0 "poor")
    /\ Z.abs (5 * overall_score r
              - sumZ (map (fun c => score (snd c)) (checks r))) * 2 < 5.
Proof.
  destruct (@seo_score_rules sample_platform (lit "v5") 0%nat
              untagged_item [] eq_refl)
    as (r & E & _ & Ht & Hg & _ & Ho).
  exists r. split; [exact E|].
  split; [apply Ht; vm_compute; split; discriminate|].
  split; [apply Hg; reflexivity | exact Ho].
Defined.

Example seo_of_untagged_item :
  match get_video_seo_score sample_platform (lit "v5") 0%nat with
  | Done (r, _) =>
      (map (fun c => score (snd c)) (checks r), overall_score r)
      = ([100; 50; 0; 0; 100], 50)
  | _ => False
  end.
Proof. vm_compute. reflexivity. Qed.

(** ** C5: readable topic names *)

Lemma strip_prefix_app (p s rest : text) :
  strip_prefix p s = Some rest <-> s = p ++ rest.
Proof.
  revert s. induction p as [|a p IH]; intros s; simpl.
  - split; [intros H; inversion H; reflexivity | intros ->; reflexivity].
  - destruct s as [|b s]; [split; discriminate|].
    destruct (Ascii.eqb_spec a b) as [->|N].
    + rewrite IH. split; [intros ->; reflexivity | intros H; inversion H; reflexivity].
    + split; [discriminate | intros H; inversion H; congruence].
Qed.

(** Once a separator has been recognised, the scan skips the rest of it. *)
Lemma last_piece_skip (sep : text) (x rest cur : text) :
  last_piece_aux sep (List.length x) cur (x ++ rest)
  = last_piece_aux sep 0 cur rest.
Proof.
  induction x as [|c x IH]; simpl.
  - destruct rest; reflexivity.
  - exact IH.
Qed.

(** A text in which the separator does not occur is one piece. *)
Lemma last_piece_whole (sep : text) (s cur : text) :
  first_split sep s = None ->
  last_piece_aux sep 0 cur s = rev cur ++ s.
Proof.
  revert cur. induction s as [|c r IH]; intros cur H.
  - simpl. rewrite app_nil_r. reflexivity.
  - simpl in H. simpl last_piece_aux. unfold starts_with.
    destruct (strip_prefix sep (c :: r)) eqn:E.
    + destruct sep; discriminate.
    + destruct (first_split sep r) as [[pre rest]|] eqn:F.
      * destruct sep; discriminate.
      * rewrite IH by (destruct sep; [discriminate | reflexivity]).
        simpl. rewrite <- app_assoc. reflexivity.
Qed.

Lemma first_split_app (sep s pre rest : text) :
  first_split sep s = Some (pre, rest) -> s = pre ++ sep ++ rest.
Proof.
  revert pre. induction s as [|c r IH]; intros pre; simpl.
  - destruct (strip_prefix sep []) eqn:E; [|discriminate].
    intros H. inversion H; subst. apply strip_prefix_app in E. exact E.
  - destruct (strip_prefix sep (c :: r)) eqn:E.
    + intros H. inversion H; subst. apply strip_prefix_app in E. exact E.
    + destruct (first_split sep r) as [[pre' rest']|]; [|discriminate].
      intros H. inversion H; subst. rewrite (IH pre' eq_refl). reflexivity.
Qed.

(** The scan resumes after the first separator with an empty piece. *)
Lemma last_piece_first (sep s pre rest cur : text) :
  sep <> [] ->
  first_split sep s = Some (pre, rest) ->
  last_piece_aux sep 0 cur s = last_piece_aux sep 0 [] rest.
Proof.
  intros Hsep. revert pre cur. induction s as [|c r IH]; intros pre cur; simpl.
  - destruct (strip_prefix sep []) eqn:E; [|discriminate].
    apply strip_prefix_app in E. destruct sep; [contradiction | discriminate].
  - unfold starts_with. destruct (strip_prefix sep (c :: r)) eqn:E.
    + intros H. inversion H; subst. apply strip_prefix_app in E.
      destruct sep as [|a sep']; [contradiction|].
      simpl in E. inversion E; subst.
      replace (List.length (a :: sep') - 1)%nat with (List.length sep')
        by (simpl; lia).
      apply last_piece_skip.
    + destruct (first_split sep r) as [[pre' rest']|] eqn:F; [|discriminate].
      intros H. inversion H; subst. apply (IH pre'). reflexivity.
Qed.

Lemma first_split_found (sep pre rest : text) :
  exists pre0 rest0,
    first_split sep (pre ++ sep ++ rest) = Some (pre0, rest0)
    /\ (List.length pre0 <= List.length pre)%nat.
Proof.
  induction pre as [|c pre IH].
  - exists [], rest. split; [|apply Nat.le_refl].
    cbn [app]. destruct (sep ++ rest) as [|a r] eqn:E;
      cbn [first_split]; rewrite <- E;
      rewrite (proj2 (strip_prefix_app sep (sep ++ rest) rest) eq_refl);
      reflexivity.
  - cbn [app first_split].
    destruct (strip_prefix sep (c :: pre ++ sep ++ rest)) as [r|].
    + exists [], r. split; [reflexivity | cbn; lia].
    + destruct IH as (pre0 & rest0 & E & L). rewrite E.
      exists (c :: pre0), rest0. split; [reflexivity | cbn; lia].
Qed.

(** [first_split] cuts at the leftmost occurrence. *)
Lemma first_split_first (sep s pre rest : text) :
  first_split sep s = Some (pre, rest) ->
  forall pre' rest', s = pre' ++ sep ++ rest' ->
                     (List.length pre <= List.length pre')%nat.
Proof.
  intros F pre' rest' ->.
  destruct (first_split_found sep pre' rest') as (pre0 & rest0 & E & L).
  rewrite E in F. inversion F; subst. exact L.
Qed.

Lemma first_split_absent (sep s : text) :
  first_split sep s = None <-> forall pre rest, s <> pre ++ sep ++ rest.
Proof.
  split.
  - intros F pre rest ->.
    destruct (first_split_found sep pre rest) as (pre0 & rest0 & E & _).
    congruence.
  - intros H. destruct (first_split sep s) as [[pre rest]|] eqn:F; [|reflexivity].
    apply first_split_app in F. exfalso. apply (H _ _ F).
Qed.

Lemma app_same_length {A} (a a' b b' : list A) :
  List.length a = List.length a' -> a ++ b = a' ++ b' -> a = a' /\ b = b'.
Proof.
  revert a'. induction a as [|x a IH]; intros [|y a'] L E; try discriminate L.
  - split; [reflexivity | exact E].
  - cbn [app] in E. inversion E; subst.
    destruct (IH a' (f_equal pred L) H1) as [-> ->]. split; reflexivity.
Qed.

Lemma first_split_leftmost (sep s pre rest : text) :
  s = pre ++ sep ++ rest ->
  (forall pre' rest', s = pre' ++ sep ++ rest' ->
                      (List.length pre <= List.length pre')%nat) ->
  first_split sep s = Some (pre, rest).
Proof.
  intros E Hmin.
  destruct (first_split_found sep pre rest) as (pre0 & rest0 & F & L).
  rewrite <- E in F. rewrite F.
  pose proof (first_split_app _ _ F) as E0.
  pose proof (Hmin _ _ E0) as L'.
  assert (Hl : List.length pre0 = List.length pre) by lia.
  rewrite E in E0.
  assert (P0 : pre = pre0 /\ sep ++ rest = sep ++ rest0).
  { apply app_same_length; [symmetry; exact Hl | exact E0]. }
  destruct P0 as [<- R]. apply app_inv_head in R. subst rest0. reflexivity.
Qed.

(** The scan of [split_last] and the pieces agree. *)
Lemma split_last_pieces (sep s : text) (ps : list text) :
  sep <> [] -> pieces sep s ps -> split_last sep s = last ps [].
Proof.
  intros Hsep. induction 1 as [s Hn | s pre rest ps E Hmin Hp IH].
  - unfold split_last. rewrite last_piece_whole by (apply first_split_absent; exact Hn).
    reflexivity.
  - unfold split_last.
    rewrite (@last_piece_first sep s pre rest [] Hsep
               (@first_split_leftmost sep s pre rest E Hmin)).
    fold (split_last sep rest). rewrite IH.
    destruct ps as [|p ps']; [inversion Hp|]. reflexivity.
Qed.

Lemma pieces_exist (sep s : text) : sep <> [] -> exists ps, pieces sep s ps.
Proof.
  intros Hsep.
  assert (G : forall k s, (List.length s <= k)%nat -> exists ps, pieces sep s ps).
  { induction k as [|k IH]; intros s0 Hk.
    - destruct (first_split sep s0) as [[pre rest]|] eqn:F.
      + apply first_split_app in F. subst s0. rewrite !length_app in Hk.
        destruct sep; [contradiction | simpl in Hk; lia].
      + exists [s0]. constructor. apply first_split_absent. exact F.
    - destruct (first_split sep s0) as [[pre rest]|] eqn:F.
      + pose proof (first_split_app _ _ F) as E.
        destruct (IH rest) as (ps & Hps).
        { subst s0. rewrite !length_app in Hk.
          destruct sep; [contradiction | simpl in Hk; lia]. }
        exists (pre :: ps). apply pieces_cut with (rest := rest);
          [exact E | apply (@first_split_first sep s0 pre rest F) | exact Hps].
      + exists [s0]. constructor. apply first_split_absent. exact F. }
  apply (G (List.length s) s). apply Nat.le_refl.
Qed.

(** The last piece holds no separator, and follows one when there is one. *)
Lemma pieces_last (sep s : text) (ps : list text) :
  pieces sep s ps ->
  (forall pre rest, last ps [] <> pre ++ sep ++ rest)
  /\ (ps = [s] \/ exists pre, s = pre ++ sep ++ last ps []).
Proof.
  induction 1 as [s Hn | s pre rest ps E Hmin Hp [IH1 IH2]].
  - split; [exact Hn | left; reflexivity].
  - destruct ps as [|p ps']; [inversion Hp|].
    split; [exact IH1|]. right.
    destruct IH2 as [E2|(pre2 & E2)].
    + exists pre. inversion E2; subst. reflexivity.
    + exists (pre ++ sep ++ pre2).
      change (s = (pre ++ sep ++ pre2) ++ sep ++ last (p :: ps') []).
      rewrite <- !app_assoc, <- E2. exact E.
Qed.

Lemma after_last_slash_app (pre name : text) :
  has_char "/" name = false ->
  after_last_slash (pre ++ "/"%char :: name) = name.
Proof.
  intros H. unfold after_last_slash.
  rewrite rev_app_distr. simpl rev. rewrite <- app_assoc. simpl app.
  assert (G : forall x y, existsb (is_char "/") x = false ->
              takewhile (fun c => negb (slash c)) (x ++ "/"%char :: y) = x).
  { induction x as [|a x IH]; intros y Hx; cbn [app takewhile].
    - reflexivity.
    - cbn [existsb] in Hx. apply orb_false_iff in Hx. destruct Hx as [Ha Hx].
      unfold slash at 1. rewrite Ha. cbn [negb]. rewrite IH by exact Hx.
      reflexivity. }
  rewrite G.
  - apply rev_involutive.
  - unfold has_char in H.
    destruct (existsb (is_char "/") (rev name)) eqn:E; [|reflexivity].
    apply existsb_exists in E. destruct E as (c & Hc & Ec).
    apply in_rev in Hc.
    assert (E : existsb (is_char "/") name = true)
      by (apply existsb_exists; exists c; split; assumption).
    congruence.
Qed.

(** C5, as amended.  [get_channel_topics] returns the topic-category URLs of
    the first item of the lookup and, for each of them in order, the last
    piece of [url.split("/wiki/")] with underscores replaced by spaces.  The
    pieces of a URL are fixed without reference to a scan: a URL in which
    ["/wiki/"] does not occur is its only piece, otherwise the first piece
    precedes the leftmost ["/wiki/"] and the others are the pieces of what
    follows it; every URL has such pieces, and the last of them holds no
    ["/wiki/"] and, unless it is the whole URL, comes right after one.  For a
    URL whose path is ["/wiki/"] and a name without [/], with no ["/wiki/"]
    before the path, the topic is the last path segment with underscores
    replaced by spaces. *)
Theorem readable_topics_from_wiki_urls (P : platform) (channel_url : text)
    (n n0 : nat) (cid : text) (item : topic_item) (others : list topic_item) :
  resolve_channel_id P channel_url n = Done (cid, n0) ->
  channels_topic_details P n0 cid = Some (item :: others) ->
  exists res,
    get_channel_topics P channel_url n = Done (res, S n0)
    /\ topic_category_urls res = ti_topicCategories item
    /\ Forall2 (fun u topic =>
                  exists ps,
                    pieces (lit "/wiki/") u ps
                    /\ topic = replace_char "_" " " (last ps []))
               (topic_category_urls res) (topics res)
    /\ (forall u ps,
           pieces (lit "/wiki/") u ps ->
           readable_topic u = replace_char "_" " " (last ps [])
           /\ (forall pre rest, last ps [] <> pre ++ lit "/wiki/" ++ rest)
           /\ (ps = [u] \/ exists pre, u = pre ++ lit "/wiki/" ++ last ps []))
    /\ (forall u pre name,
           first_split (lit "/wiki/") u = Some (pre, name) ->
           has_char "/" name = false ->
           Url.urlparse_path P u = Done (lit "/wiki/" ++ name) ->
           last_path_segment P u = Some name
           /\ readable_topic u = replace_char "_" " " name).
Proof.
  assert (Hsep : lit "/wiki/" <> []) by discriminate.
  assert (T : forall u ps,
             pieces (lit "/wiki/") u ps ->
             readable_topic u = replace_char "_" " " (last ps [])).
  { intros u ps Hp. unfold readable_topic.
    rewrite (split_last_pieces Hsep Hp). reflexivity. }
  intros Hr Hd. eexists. split.
  { unfold get_channel_topics. erewrite bind_step by exact Hr.
    unfold bind, _get. rewrite Hd. reflexivity. }
  split; [reflexivity|]. split; [|split].
  - cbn [topic_category_urls topics].
    induction (ti_topicCategories item) as [|u us IH]; cbn [map]; constructor.
    + destruct (pieces_exist u Hsep) as (ps & Hp).
      exists ps. split; [exact Hp | apply T; exact Hp].
    + exact IH.
  - intros u ps Hp. split; [apply T; exact Hp | apply pieces_last; exact Hp].
  - intros u pre name F H U. split.
    + unfold last_path_segment. rewrite U.
      change (lit "/wiki/" ++ name) with (lit "/wiki" ++ "/"%char :: name).
      rewrite after_last_slash_app by exact H. reflexivity.
    + assert (Hn : forall p r, name <> p ++ lit "/wiki/" ++ r).
      { intros p r E. unfold has_char in H.
        assert (C : existsb (is_char "/") name = true).
        { apply existsb_exists. exists "/"%char. split; [|reflexivity].
          rewrite E. apply in_or_app. right. left. reflexivity. }
        congruence. }
      rewrite (T u [pre; name]); [reflexivity|].
      apply pieces_cut with (rest := name);
        [apply first_split_app; exact F
        | apply (@first_split_first (lit "/wiki/") u pre name F) |].
      constructor. exact Hn.
Qed.

Lemma readable_topics_from_wiki_urls_witness :
  exists res,
    get_channel_topics sample_platform
      (lit "https://www.youtube.com/channel/UCsample") 0%nat = Done (res, 1%nat)
    /\ topics res = [lit "Role-playing video game"]
    /\ last_path_segment sample_platform
         (lit "https://en.wikipedia.org/wiki/Role-playing_video_game")
       = Some (lit "Role-playing_video_game")
    /\ readable_topic (lit "https://x.org/wiki/a_b/wiki/c_d") = lit "c d".
Proof.
  destruct (@readable_topics_from_wiki_urls sample_platform
              (lit "https://www.youtube.com/channel/UCsample") 0%nat 0%nat
              (lit "UCsample")
              {| ti_title := lit "Sample channel";
                 ti_topicCategories :=
                   [lit "https://en.wikipedia.org/wiki/Role-playing_video_game"] |}
              [] eq_refl eq_refl)
    as (res & E & Hu & _ & Hp & Hw).
  exists res. split; [exact E|]. split; [|split].
  - vm_compute in E. inversion E. reflexivity.
  - apply (Hw _ (lit "https://en.wikipedia.org")
                (lit "Role-playing_video_game")); reflexivity.
  - destruct (Hp (lit "https://x.org/wiki/a_b/wiki/c_d")
                 [lit "https://x.org"; lit "a_b"; lit "c_d"]) as [Ht _].
    + apply pieces_cut with (rest := lit "a_b/wiki/c_d").
      * reflexivity.
      * apply (@first_split_first (lit "/wiki/")
                 (lit "https://x.org/wiki/a_b/wiki/c_d")
                 (lit "https://x.org") (lit "a_b/wiki/c_d")).
        reflexivity.
      * apply pieces_cut with (rest := lit "c_d").
        -- reflexivity.
        -- apply (@first_split_first (lit "/wiki/") (lit "a_b/wiki/c_d")
                    (lit "a_b") (lit "c_d")).
           reflexivity.
        -- constructor. apply first_split_absent. reflexivity.
    + exact Ht.
Defined.

(** C5 as stated fails: for the Wikipedia URL of "AC/DC" the tool answers
    "AC/DC" where the last path segment is "DC", and for a URL without
    ["/wiki/"] it answers with the whole URL where the last path segment is
    "Pop_music". *)
Lemma readable_topic_not_last_segment :
  match get_channel_topics odd_topics_platform
          (lit "https://www.youtube.com/channel/UCodd") 0%nat with
  | Done (res, _) =>
      topic_category_urls res
      = [lit "https://en.wikipedia.org/wiki/AC/DC";
         lit "https://example.org/topics/Pop_music"]
      /\ topics res = [lit "AC/DC"; lit "https://example.org/topics/Pop music"]
      /\ map (last_path_segment odd_topics_platform) (topic_category_urls res)
         = [Some (lit "DC"); Some (lit "Pop_music")]
  | _ => False
  end.
Proof. vm_compute. repeat split; reflexivity. Qed.

(** ** C3: the comparisons *)

Lemma for_each_done {A B} (f : A -> M B) (xs : list A) n ys n1 :
  for_each f xs n = Done (ys, n1) ->
  Forall2 (fun x y => exists m m1, f x m = Done (y, m1)) xs ys.
Proof.
  revert n ys n1. induction xs as [|x r IH]; intros n ys n1 H; simpl in H.
  - apply ret_done in H. destruct H as [<- _]. constructor.
  - unbind H. apply ret_done in H. destruct H as [<- _]. constructor.
    + exists n, n0. exact E.
    + apply (IH _ _ _ E0).
Qed.

Lemma for_each_raised {A B} (f : A -> M B) (xs : list A) n e :
  for_each f xs n = Raised e ->
  exists x m, In x xs /\ f x m = Raised e.
Proof.
  revert n. induction xs as [|x r IH]; intros n H; simpl in H.
  - discriminate.
  - unfold bind in H. destruct (f x n) as [[y n0]| |] eqn:E; try discriminate.
    + destruct (for_each f r n0) as [[ys n2]| |] eqn:F; try discriminate.
      inversion H; subst.
      destruct (IH _ F) as (x' & m & Hin & Hx).
      exists x', m. split; [right; exact Hin | exact Hx].
    + inversion H; subst. exists x, n. split; [left; reflexivity | exact E].
Qed.

Lemma winner_in {A} (id : A -> text) (rows : list A) (k : A -> Q) :
  match rows with
  | [] => _winner id rows k = []
  | _ => In (_winner id rows k) (map id rows)
  end.
Proof.
  destruct rows as [|first rest]; [reflexivity|].
  unfold _winner. apply in_map. apply py_max_by_in.
Qed.

Lemma overview_resolves (P : platform) (url : text) n c n1 :
  get_channel_overview P url n = Done (c, n1) ->
  exists n0, resolve_channel_id P url n = Done (channel_id c, n0).
Proof.
  unfold get_channel_overview. intros H. unbind H.
  destruct a0 as [|item rest]; [discriminate|].
  apply ret_done in H. destruct H as [<- _]. exists n0. exact E.
Qed.

Lemma bind_raised {A B} (m : M A) (k : A -> M B) n e :
  bind m k n = Raised e ->
  m n = Raised e \/ exists a n1, m n = Done (a, n1) /\ k a n1 = Raised e.
Proof.
  unfold bind. destruct (m n) as [[a n1]| |]; try discriminate.
  - intros H. right. exists a, n1. split; [reflexivity | exact H].
  - intros H. left. inversion H. reflexivity.
Qed.

Lemma get_raised {A} (endpoint : nat -> option A) n e :
  _get endpoint n = Raised e -> e = RequestFailed.
Proof.
  unfold _get. destruct (endpoint n); [discriminate|].
  intros H. inversion H. reflexivity.
Qed.

Lemma urlparse_path_raised (P : platform) (u : text) e :
  Url.urlparse_path P u = Raised e -> e = InvalidURL.
Proof.
  unfold Url.urlparse_path, Url.urlsplit.
  destruct (Url.split_scheme _) as [sch url].
  destruct (strip_prefix (lit "//") url) as [rest|].
  - destruct (Url.splitnetloc rest) as [loc url'].
    destruct (netloc_valid P loc).
    + destruct (Url.cut "#" url') as [url1 frag].
      destruct (Url.cut "?" url1) as [url2 qry]. simpl.
      destruct (_ && _)%bool; discriminate.
    + intros H. inversion H. reflexivity.
  - destruct (Url.cut "#" url) as [url1 frag].
    destruct (Url.cut "?" url1) as [url2 qry]. simpl.
    destruct (_ && _)%bool; discriminate.
Qed.

Lemma resolve_raised (P : platform) (url : text) n e :
  resolve_channel_id P url n = Raised e ->
  e = InvalidURL \/ e = RequestFailed \/ e = UnsupportedUrl url
  \/ exists handle, e = NoChannelForHandle handle.
Proof.
  unfold resolve_channel_id. intros H.
  apply bind_raised in H. destruct H as [H|(p & n0 & Hp & H)].
  - left. unfold lift in H.
    destruct (Url.urlparse_path P url) eqn:U; try discriminate.
    inversion H; subst. apply (urlparse_path_raised _ _ U).
  - destruct (match_channel (rstrip slash p)); [discriminate|].
    destruct (match_handle (rstrip slash p)) as [handle|].
    + apply bind_raised in H. destruct H as [H|(items & n1 & Hi & H)].
      * right. left. apply (get_raised _ _ H).
      * destruct items; [|discriminate].
        inversion H. right. right. right. exists handle. reflexivity.
    + inversion H. right. right. left. reflexivity.
Qed.

Lemma overview_not_empty_error (P : platform) (url : text) n :
  get_channel_overview P url n <> Raised EmptyChannelUrls.
Proof.
  unfold get_channel_overview. intros H.
  apply bind_raised in H. destruct H as [H|(cid & n0 & _ & H)].
  - apply resolve_raised in H.
    destruct H as [H|[H|[H|[h H]]]]; discriminate.
  - apply bind_raised in H. destruct H as [H|(items & n1 & _ & H)].
    + apply get_raised in H. discriminate.
    + destruct items; discriminate.
Qed.

Lemma fails_first_cons {A B} (f : A -> M B) (x : A) (r : list A) n e :
  fails_first f (x :: r) n e
  <-> f x n = Raised e
      \/ exists y n0, f x n = Done (y, n0) /\ fails_first f r n0 e.
Proof.
  unfold fails_first. split.
  - intros (pre & z & post & ys & n' & H & Hp & Hz).
    destruct pre as [|p pre].
    + inversion H; subst z post. apply ret_done in Hp.
      destruct Hp as [_ <-]. left. exact Hz.
    + inversion H; subst p r. cbn [for_each] in Hp.
      apply bind_done in Hp. destruct Hp as (y & m & Ey & Hp).
      apply bind_done in Hp. destruct Hp as (ys' & m2 & Eys & Hp).
      apply ret_done in Hp. destruct Hp as [_ <-].
      right. exists y, m. split; [exact Ey|].
      exists pre, z, post, ys', m2. repeat split; assumption.
  - intros [H|(y & n0 & Ey & pre & z & post & ys & n' & H & Hp & Hz)].
    + exists [], x, r, [], n. repeat split. exact H.
    + exists (x :: pre), z, post, (y :: ys), n'.
      split; [rewrite H; reflexivity|]. split; [|exact Hz].
      cbn [for_each]. rewrite (bind_step _ _ _ Ey), (bind_step _ _ _ Hp).
      reflexivity.
Qed.

Lemma for_each_fails_first {A B} (f : A -> M B) (xs : list A) n e :
  for_each f xs n = Raised e <-> fails_first f xs n e.
Proof.
  revert n. induction xs as [|x r IH]; intros n.
  - split; [discriminate|].
    intros (pre & y & post & ys & n' & H & _). destruct pre; discriminate H.
  - rewrite fails_first_cons. cbn [for_each]. unfold bind at 1.
    destruct (f x n) as [[y n0]| |] eqn:E.
    + unfold bind at 1. pose proof (IH n0) as I.
      destruct (for_each f r n0) as [[ys n2]| |] eqn:F.
      * split; [discriminate|].
        intros [H|(y' & m & Ey & H)]; [discriminate H|].
        inversion Ey; subst. apply I in H. discriminate H.
      * split.
        -- intros H. right. exists y, n0. split; [reflexivity|].
           apply I. exact H.
        -- intros [H|(y' & m & Ey & H)]; [discriminate H|].
           inversion Ey; subst. apply I in H. exact H.
      * split; [discriminate|].
        intros [H|(y' & m & Ey & H)]; [discriminate H|].
        inversion Ey; subst. apply I in H. discriminate H.
    + split; [intros H; left; inversion H; reflexivity|].
      intros [H|(y' & m & Ey & _)]; [inversion H; reflexivity | discriminate Ey].
    + split; [discriminate|].
      intros [H|(y' & m & Ey & _)]; [discriminate H | discriminate Ey].
Qed.

Lemma overview_unsupported (P : platform) (url : text) n :
  unsupported_shape P url ->
  get_channel_overview P url n = Raised (UnsupportedUrl url).
Proof.
  intros (path & U & A). unfold get_channel_overview, resolve_channel_id.
  unfold bind at 1. unfold bind at 1. unfold lift. rewrite U.
  unfold accepted in A.
  destruct (match_channel (rstrip slash path)); [discriminate A|].
  destruct (match_handle (rstrip slash path)); [discriminate A|].
  reflexivity.
Qed.

Lemma overview_total (P : platform) (url : text) n :
  get_channel_overview P url n <> OutOfFuel.
Proof.
  unfold get_channel_overview, resolve_channel_id, bind, lift, _get, raise, ret.
  destruct (Url.urlparse_path P url) as [path|e0|] eqn:U.
  - destruct (match_channel (rstrip slash path)) as [cid|].
    + destruct (channels_snippet_statistics P n cid) as [[|i r]|]; discriminate.
    + destruct (match_handle (rstrip slash path)) as [handle|]; [|discriminate].
      destruct (channels_for_handle P n handle) as [[|id r]|]; try discriminate.
      destruct (channels_snippet_statistics P (S n) id) as [[|i r']|]; discriminate.
  - discriminate.
  - exfalso. revert U. unfold Url.urlparse_path, Url.urlsplit.
    destruct (Url.split_scheme _) as [sch url'].
    destruct (strip_prefix (lit "//") url') as [rest|].
    + destruct (Url.splitnetloc rest) as [loc url2].
      destruct (netloc_valid P loc); [|discriminate].
      destruct (Url.cut "#" url2) as [url3 frag].
      destruct (Url.cut "?" url3) as [url4 qry]. simpl.
      destruct (_ && _)%bool; discriminate.
    + destruct (Url.cut "#" url') as [url1 frag].
      destruct (Url.cut "?" url1) as [url2 qry]. simpl.
      destruct (_ && _)%bool; discriminate.
Qed.

Lemma for_each_total {A B} (f : A -> M B) (xs : list A) n :
  (forall x m, f x m <> OutOfFuel) -> for_each f xs n <> OutOfFuel.
Proof.
  intros Hf. revert n. induction xs as [|x r IH]; intros n; cbn [for_each].
  - discriminate.
  - unfold bind at 1. destruct (f x n) as [[y n0]| |] eqn:E.
    + unfold bind at 1. destruct (for_each f r n0) as [[ys n2]| |] eqn:F.
      * discriminate.
      * discriminate.
      * exfalso. apply (IH n0 F).
    + discriminate.
    + exfalso. apply (Hf x n E).
Qed.

(** C3, as amended.  [compare_videos] fails with [InvalidInput] if and only
    if its list is empty; on a non-empty list every winner is the id of one
    of the items the lookup returned, and is the empty string when the lookup
    returned none.  [compare_channels] raises its own "must not be empty"
    error if and only if its list is empty; on a non-empty list that it
    compares, the compared channels are the overviews of the first five URLs,
    each under the id its URL resolved to, and every winner is one of these
    ids.  On a non-empty list [compare_channels] fails exactly when the
    overview of one of its first five URLs fails, and with the error of the
    first of them in the order of the list; so it returns no comparison when
    one of the five has an unsupported shape, and then the error is the
    [InvalidInput] naming that URL if every URL before it yields an
    overview. *)
Theorem comparisons_fail_and_win (P : platform) :
  (forall ids n,
      (exists e, compare_videos P ids n = Raised e /\ classify e = InvalidInput)
      <-> ids = [])
  /\ (forall ids n res n1,
         compare_videos P ids n = Done (res, n1) ->
         exists data,
           videos P n (join (lit ",") (firstn 10 ids)) = Some data
           /\ vcmp_videos res = map compare_entry data
           /\ Forall (fun w => match data with
                               | [] => w = []
                               | _ => In w (map vi_id data)
                               end)
                     [winner_by_views res; winner_by_likes res;
                      winner_by_comments res; winner_by_engagement_rate res])
  /\ (forall urls n,
         compare_channels P urls n = Raised EmptyChannelUrls <-> urls = [])
  /\ (forall urls n res n1,
         compare_channels P urls n = Done (res, n1) ->
         urls <> []
         /\ Forall2 (fun url c =>
                       exists m m1,
                         resolve_channel_id P url m = Done (channel_id c, m1))
                    (firstn 5 urls) (channels res)
         /\ Forall (fun w => In w (map channel_id (channels res)))
                   [winner_by_subscribers res; winner_by_total_views res;
                    winner_by_video_count res])
  /\ (forall urls n e,
         urls <> [] ->
         (compare_channels P urls n = Raised e
          <-> fails_first (get_channel_overview P) (firstn 5 urls) n e))
  /\ (forall urls n u,
         In u (firstn 5 urls) -> unsupported_shape P u ->
         (exists e, compare_channels P urls n = Raised e)
         /\ (forall pre post ys n',
                firstn 5 urls = pre ++ u :: post ->
                for_each (get_channel_overview P) pre n = Done (ys, n') ->
                compare_channels P urls n = Raised (UnsupportedUrl u)
                /\ classify (UnsupportedUrl u) = InvalidInput)).
Proof.
  assert (F : forall urls n e,
             urls <> [] ->
             (compare_channels P urls n = Raised e
              <-> fails_first (get_channel_overview P) (firstn 5 urls) n e)).
  { intros urls n e Hne. rewrite <- for_each_fails_first.
    unfold compare_channels. destruct urls as [|u0 urls]; [contradiction|].
    unfold bind at 1.
    destruct (for_each (get_channel_overview P) (firstn 5 (u0 :: urls)) n)
      as [[cs n0]| |]; split; intros H; try discriminate H;
      inversion H; reflexivity. }
  split; [|split; [|split; [|split; [|split; [exact F|]]]]].
  5: {
    intros urls n u Hin Hu.
    assert (Hne : urls <> []) by (intros ->; destruct Hin).
    split.
    - destruct (compare_channels P urls n) as [[res n1]|e|] eqn:E.
      + exfalso. unfold compare_channels in E.
        destruct urls as [|u0 urls]; [contradiction|].
        apply bind_done in E. destruct E as (cs & n0 & E & _).
        apply for_each_done in E.
        apply in_split in Hin. destruct Hin as (pre & post & Hs).
        rewrite Hs in E. apply Forall2_app_inv_l in E.
        destruct E as (l1 & l2 & _ & E & _).
        inversion E as [|? c ? ? (m & m1 & Hc) _]; subst.
        rewrite (overview_unsupported _ Hu) in Hc. discriminate Hc.
      + exists e. reflexivity.
      + exfalso. unfold compare_channels in E.
        destruct urls as [|u0 urls]; [contradiction|].
        unfold bind at 1 in E.
        destruct (for_each (get_channel_overview P) (firstn 5 (u0 :: urls)) n)
          as [[cs n0]| |] eqn:G; try discriminate E.
        apply (for_each_total (get_channel_overview P) (firstn 5 (u0 :: urls)) n
                 (overview_total P) G).
    - intros pre post ys n' Hs Hp. split; [|reflexivity].
      apply F; [exact Hne|].
      exists pre, u, post, ys, n'. split; [exact Hs|]. split; [exact Hp|].
      apply overview_unsupported. exact Hu. }
  - intros ids n. split.
    + intros (e & H & He). destruct ids as [|i ids]; [reflexivity|].
      exfalso. unfold compare_videos in H.
      apply bind_raised in H. destruct H as [H|(data & n1 & _ & H)].
      * apply get_raised in H. subst e. discriminate.
      * discriminate.
    + intros ->. exists EmptyVideoIds. split; reflexivity.
  - intros ids n res n1 H. unfold compare_videos in H.
    destruct ids as [|i ids]; [discriminate|].
    apply bind_done in H. destruct H as (data & n0 & E & H).
    apply ret_done in H. destruct H as [<- _].
    exists data. split.
    { unfold _get in E.
      destruct (videos P n (join (lit ",") (firstn 10 (i :: ids)))); [|discriminate].
      inversion E. reflexivity. }
    split; [reflexivity|].
    assert (W : forall k, match data with
                          | [] => _winner cv_video_id (map compare_entry data) k = []
                          | _ => In (_winner cv_video_id (map compare_entry data) k)
                                    (map vi_id data)
                          end).
    { intros k. pose proof (winner_in cv_video_id (map compare_entry data) k) as W.
      destruct data as [|d ds]; [exact W|].
      rewrite map_map in W. exact W. }
    simpl. repeat constructor; apply W.
  - intros urls n. split.
    + intros H. destruct urls as [|u urls]; [reflexivity|].
      exfalso. unfold compare_channels in H.
      apply bind_raised in H. destruct H as [H|(cs & n1 & _ & H)].
      * apply for_each_raised in H. destruct H as (x & m & _ & H).
        apply (overview_not_empty_error _ _ _ H).
      * discriminate.
    + intros ->. reflexivity.
  - intros urls n res n1 H. unfold compare_channels in H.
    destruct urls as [|u urls]; [discriminate|].
    split; [discriminate|].
    apply bind_done in H. destruct H as (cs & n0 & E & H).
    apply ret_done in H. destruct H as [<- _]. simpl channels.
    apply for_each_done in E.
    split.
    + revert E. apply Forall2_impl. intros url c (m & m1 & Hc).
      apply overview_resolves in Hc. destruct Hc as (m0 & Hc).
      exists m, m0. exact Hc.
    + assert (N : cs <> []).
      { intros ->. inversion E. }
      assert (W : forall k, In (_winner channel_id cs k) (map channel_id cs)).
      { intros k. pose proof (winner_in channel_id cs k) as W.
        destruct cs; [contradiction | exact W]. }
      simpl. repeat constructor; apply W.
Qed.

Lemma comparisons_fail_and_win_witness :
  match compare_channels sample_platform
          [lit "https://www.youtube.com/channel/UCsample";
           lit "https://www.youtube.com/@sample"] 0%nat with
  | Done (res, _) =>
      Forall (fun w => In w (map channel_id (channels res)))
             [winner_by_subscribers res; winner_by_total_views res;
              winner_by_video_count res]
  | _ => False
  end.
Proof.
  destruct (compare_channels sample_platform
              [lit "https://www.youtube.com/channel/UCsample";
               lit "https://www.youtube.com/@sample"] 0%nat)
    as [[res n1]| |] eqn:E.
  - destruct (comparisons_fail_and_win sample_platform) as (_ & _ & _ & H & _).
    destruct (H _ _ _ _ E) as (_ & _ & W). exact W.
  - vm_compute in E. discriminate E.
  - vm_compute in E. discriminate E.
Defined.

(** C3 as stated fails twice.  [compare_channels] fails with [InvalidInput]
    on a non-empty list holding a URL of unsupported shape, also after a
    channel that it could look up; and when the lookup of [compare_videos]
    finds nothing, the winners are the empty string, which is no id of the
    input. *)
Lemma comparison_counterexamples :
  (exists e,
      compare_channels sample_platform [lit "https://x/foo"] 0%nat = Raised e
      /\ classify e = InvalidInput)
  /\ compare_channels sample_platform
       [lit "https://www.youtube.com/@sample"; lit "https://x/foo"] 0%nat
     = Raised (UnsupportedUrl (lit "https://x/foo"))
  /\ match compare_videos sample_platform [lit "missing"] 0%nat with
     | Done (res, _) =>
         winner_by_views res = []
         /\ winner_by_engagement_rate res = []
         /\ ~ In (winner_by_views res) [lit "missing"]
     | _ => False
     end.
Proof.
  split; [|split].
  - exists (UnsupportedUrl (lit "https://x/foo")). split; reflexivity.
  - vm_compute. reflexivity.
  - vm_compute. repeat split; try reflexivity.
    intros [H|[]]. discriminate H.
Qed.

(** ** C6 and C9: the upload schedule *)

Section ScheduleFacts.

Variable P : platform.

Lemma tally_timestamps (videos : list video) (t : tally) :
  timestamps (fold_left (tally_video P) videos t)
  = timestamps t ++ parsed_timestamps P videos.
Proof.
  revert t. induction videos as [|v r IH]; intros t; simpl.
  - rewrite app_nil_r. reflexivity.
  - rewrite IH. unfold tally_video.
    destruct (fromisoformat P (utc_offset (published_at v))); simpl.
    + rewrite <- app_assoc. reflexivity.
    + reflexivity.
Qed.

Lemma bump_keys (k : text) (c : counter) :
  forall x, In x (map fst (bump k c)) -> x = k \/ In x (map fst c).
Proof.
  induction c as [|[k' m] r IH]; simpl; intros x H.
  - destruct H as [H|[]]. left. symmetry. exact H.
  - destruct (text_eqb k k'); simpl in H.
    + right. exact H.
    + destruct H as [H|H]; [right; left; exact H|].
      destruct (IH _ H) as [G|G]; [left; exact G | right; right; exact G].
Qed.

Lemma bump_nodup (k : text) (c : counter) :
  NoDup (map fst c) -> NoDup (map fst (bump k c)).
Proof.
  induction c as [|[k' m] r IH]; simpl; intros H.
  - constructor; [intros [] | constructor].
  - destruct (text_eqb k k') eqn:E; simpl.
    + exact H.
    + inversion H as [|? ? Hn Hr]; subst. constructor.
      * intros Hin. destruct (bump_keys _ _ _ Hin) as [G|G].
        -- subst k'. rewrite text_eqb_refl in E. discriminate.
        -- contradiction.
      * apply IH. exact Hr.
Qed.

Lemma weekday_name_in (d : weekday) :
  In (nth (weekday_index d) day_names []) day_names.
Proof. destruct d; simpl; tauto. Qed.

(** The weekday counter holds weekday names, each once. *)
Lemma tally_by_day (videos : list video) (t : tally) :
  NoDup (map fst (by_day t)) ->
  Forall (fun k => In k day_names) (map fst (by_day t)) ->
  NoDup (map fst (by_day (fold_left (tally_video P) videos t)))
  /\ Forall (fun k => In k day_names)
            (map fst (by_day (fold_left (tally_video P) videos t))).
Proof.
  revert t. induction videos as [|v r IH]; intros t Hn Hf; simpl.
  - split; assumption.
  - apply IH; unfold tally_video;
      destruct (fromisoformat P (utc_offset (published_at v))); simpl;
      try assumption.
    + apply bump_nodup. exact Hn.
    + apply Forall_forall. intros x Hx.
      destruct (bump_keys _ _ _ Hx) as [->|G].
      * apply weekday_name_in.
      * rewrite Forall_forall in Hf. apply Hf, G.
Qed.

End ScheduleFacts.

Lemma Sorted_weaken {A} (R R' : A -> A -> Prop) (l : list A) :
  (forall a b, R a b -> R' a b) -> Sorted R l -> Sorted R' l.
Proof.
  intros H S. induction S as [|a r Sr IH Hd]; constructor.
  - exact IH.
  - destruct Hd as [|b r' Hb]; constructor. apply H, Hb.
Qed.

Lemma index_of_inj (names : list text) (a b : text) :
  In a names -> In b names -> index_of a names = index_of b names -> a = b.
Proof.
  induction names as [|n r IH]; simpl; intros Ha Hb H; [contradiction|].
  destruct (text_eqb a n) eqn:Ea; destruct (text_eqb b n) eqn:Eb.
  - apply text_eqb_eq in Ea, Eb. congruence.
  - discriminate.
  - discriminate.
  - injection H as H. apply IH; try assumption.
    + destruct Ha as [Ha|Ha]; [|exact Ha].
      subst n. rewrite text_eqb_refl in Ea. discriminate.
    + destruct Hb as [Hb|Hb]; [|exact Hb].
      subst n. rewrite text_eqb_refl in Eb. discriminate.
Qed.

Lemma strictly_ordered_keys (l : counter) :
  StronglySorted (fun a b => (day_index (fst a) <= day_index (fst b))%nat) l ->
  NoDup (map fst l) ->
  Forall (fun k => In k day_names) (map fst l) ->
  StronglySorted (fun a b => (day_index a < day_index b)%nat) (map fst l).
Proof.
  induction 1 as [|a r Sr IH Ha]; cbn [map]; intros Hn Hf.
  - constructor.
  - inversion Hn as [|? ? Hni Hnr]; subst.
    inversion Hf as [|? ? Hia Hfr]; subst.
    constructor.
    + apply IH; assumption.
    + apply Forall_forall. intros y Hy.
      apply in_map_iff in Hy. destruct Hy as (b & <- & Hb).
      rewrite Forall_forall in Ha. pose proof (Ha b Hb) as L.
      destruct (Nat.eq_dec (day_index (fst a)) (day_index (fst b))) as [E|N];
        [|lia].
      exfalso. apply Hni.
      rewrite Forall_forall in Hfr.
      assert (Hib : In (fst b) day_names) by (apply Hfr, in_map, Hb).
      rewrite (index_of_inj day_names _ _ Hia Hib E). apply in_map, Hb.
Qed.

(** Sorting by weekday a counter of distinct weekday names puts its keys in
    strictly increasing position of the week. *)
Lemma posts_by_day_ordered (c : counter) :
  NoDup (map fst c) ->
  Forall (fun k => In k day_names) (map fst c) ->
  StronglySorted (fun a b => (day_index a < day_index b)%nat)
    (map fst (sorted (fun a b : text * Z =>
                        Nat.ltb (index_of (fst a) day_names)
                                (index_of (fst b) day_names)) c)).
Proof.
  intros Hn Hf.
  set (before := fun a b : text * Z =>
                   Nat.ltb (index_of (fst a) day_names) (index_of (fst b) day_names)).
  assert (Hp : Permutation (map fst (sorted before c)) (map fst c))
    by (apply Permutation_map, sorted_perm).
  apply strictly_ordered_keys.
  - apply Sorted_StronglySorted.
    + intros x y z. unfold day_index. lia.
    + assert (A : forall a b, before a b = true -> before b a = false).
      { intros a b. unfold before. rewrite Nat.ltb_lt, Nat.ltb_ge. lia. }
      apply (Sorted_weaken (R := fun a b => before b a = false)).
      * intros a b Hb. unfold before in Hb. apply Nat.ltb_ge in Hb. exact Hb.
      * apply sorted_sorted. exact A.
  - apply (Permutation_NoDup (Permutation_sym Hp) Hn).
  - apply Forall_forall. intros x Hx. rewrite Forall_forall in Hf.
    apply Hf. apply (Permutation_in _ Hp Hx).
Qed.

Lemma schedule_returned (P : platform) (fuel : nat) (url : text) (limit : Z)
    (n n1 : nat) (videos : list video) :
  _fetch_videos_for_channel P fuel url limit n = Done (videos, n1) ->
  videos <> [] ->
  get_upload_schedule P fuel url limit n
  = match schedule_of P videos with
    | Some r => Done (r, n1)
    | None => Raised MixedTimestamps
    end.
Proof.
  intros Hf Hv. unfold get_upload_schedule. erewrite bind_step by exact Hf.
  destruct videos as [|v0 rest]; [contradiction|].
  destruct (schedule_of P (v0 :: rest)); reflexivity.
Qed.

Lemma schedule_done (P : platform) (fuel : nat) (url : text) (limit : Z)
    (n n1 : nat) (r : upload_schedule) :
  get_upload_schedule P fuel url limit n = Done (r, n1) ->
  exists videos,
    _fetch_videos_for_channel P fuel url limit n = Done (videos, n1)
    /\ videos <> []
    /\ schedule_of P videos = Some r.
Proof.
  intros H. unfold get_upload_schedule in H.
  apply bind_done in H. destruct H as (videos & n0 & E & H).
  destruct videos as [|v0 rest]; [discriminate|].
  destruct (schedule_of P (v0 :: rest)) as [r0|] eqn:S; [|discriminate].
  apply ret_done in H. destruct H as [<- <-].
  exists (v0 :: rest). split; [exact E|]. split; [discriminate | exact S].
Qed.

(** The timestamps the schedule works on are the parsed ones. *)
Lemma schedule_timestamps (P : platform) (videos : list video) :
  timestamps (fold_left (tally_video P) videos
                {| by_day := []; by_hour := []; timestamps := [] |})
  = parsed_timestamps P videos.
Proof. apply (tally_timestamps P videos). Qed.

Lemma gap_scores_some (P : platform) (ts : list datetime) :
  gap_scores P ts <> None
  <-> ((List.length ts < 2)%nat \/ same_kind ts = true).
Proof.
  unfold gap_scores, sorted_timestamps.
  destruct (Nat.ltb_spec 1 (List.length ts)) as [L|L].
  - destruct (same_kind ts).
    + split; [intros _; right; reflexivity|]. intros _.
      destruct (gaps_of _); [discriminate|].
      destruct (statistics_stdev P _); discriminate.
    + split; [intros H; contradiction H; reflexivity|].
      intros [H|H]; [lia | discriminate H].
  - split; [intros _; left; lia | intros _; discriminate].
Qed.

Lemma same_kind_short (ts : list datetime) :
  (List.length ts < 2)%nat -> same_kind ts = true.
Proof. destruct ts as [|a [|b r]]; simpl; intros H; try reflexivity; lia. Qed.

Lemma schedule_of_some (P : platform) (videos : list video) :
  schedule_of P videos <> None <-> same_kind (parsed_timestamps P videos) = true.
Proof.
  unfold schedule_of. rewrite schedule_timestamps.
  pose proof (gap_scores_some P (parsed_timestamps P videos)) as G.
  destruct (gap_scores P (parsed_timestamps P videos)) as [[a c]|].
  - split; [|intros _; discriminate]. intros _.
    destruct (proj1 G) as [H|H]; [discriminate | | exact H].
    apply same_kind_short. exact H.
  - split; [intros H; contradiction H; reflexivity|].
    intros H. exfalso. apply (proj2 G); [right; exact H | reflexivity].
Qed.

(** C6, as amended.  When the aggregator returns no video,
    [get_upload_schedule] raises "No videos found".  When it returns videos,
    the tool returns a schedule if the parsed publish timestamps are all
    offset-aware or all offset-naive, and raises the [TypeError] of
    [sorted] if they are not; with fewer than two parsed timestamps it
    returns, and [avg_days_between_uploads] and [consistency_score_pct] are
    0.  In every schedule returned the keys of [posts_by_day] are weekday
    names in strictly increasing position from Monday to Sunday. *)
Theorem upload_schedule_few_timestamps (P : platform) (fuel : nat)
    (channel_url : text) (limit : Z) (n n1 : nat) (videos : list video) :
  _fetch_videos_for_channel P fuel channel_url limit n = Done (videos, n1) ->
  (videos = [] ->
   get_upload_schedule P fuel channel_url limit n = Raised NoVideosFound)
  /\ (videos <> [] ->
      (List.length (parsed_timestamps P videos) < 2)%nat ->
      exists r,
        get_upload_schedule P fuel channel_url limit n = Done (r, n1)
        /\ avg_days_between_uploads r = 0%Q /\ consistency_score_pct r = 0%Q)
  /\ (videos <> [] ->
      if same_kind (parsed_timestamps P videos)
      then exists r, get_upload_schedule P fuel channel_url limit n = Done (r, n1)
      else get_upload_schedule P fuel channel_url limit n
           = Raised MixedTimestamps)
  /\ (forall r,
        get_upload_schedule P fuel channel_url limit n = Done (r, n1) ->
        StronglySorted (fun a b => (day_index a < day_index b)%nat)
                       (map fst (posts_by_day r))
        /\ Forall (fun k => In k day_names) (map fst (posts_by_day r))).
Proof.
  intros Hf. split; [|split; [|split]].
  - intros ->. unfold get_upload_schedule. erewrite bind_step by exact Hf.
    reflexivity.
  - intros Hv Hlt. rewrite (@schedule_returned P fuel channel_url limit n n1 videos Hf Hv).
    unfold schedule_of. rewrite schedule_timestamps.
    unfold gap_scores.
    destruct (Nat.ltb_spec 1 (List.length (parsed_timestamps P videos))); [lia|].
    eexists. split; [reflexivity|]. split; reflexivity.
  - intros Hv. rewrite (@schedule_returned P fuel channel_url limit n n1 videos Hf Hv).
    pose proof (schedule_of_some P videos) as S.
    destruct (same_kind (parsed_timestamps P videos)).
    + destruct (schedule_of P videos) as [r|]; [exists r; reflexivity|].
      exfalso. apply (proj2 S); reflexivity.
    + destruct (schedule_of P videos) as [r|]; [|reflexivity].
      exfalso. assert (C : false = true) by (apply (proj1 S); discriminate).
      discriminate C.
  - intros r Hr. apply schedule_done in Hr.
    destruct Hr as (videos' & Hf' & _ & Hs).
    rewrite Hf in Hf'. inversion Hf'; subst videos'. clear Hf'.
    destruct (tally_by_day P videos
                {| by_day := []; by_hour := []; timestamps := [] |})
      as [Hn Hd]; [constructor | constructor |].
    unfold schedule_of in Hs.
    set (t := fold_left (tally_video P) videos
                {| by_day := []; by_hour := []; timestamps := [] |}) in *.
    destruct (gap_scores P (timestamps t)) as [[a c]|]; [|discriminate].
    inversion Hs; subst r; clear Hs. cbn [posts_by_day]. split.
    + apply posts_by_day_ordered; assumption.
    + apply Forall_forall. intros x Hx. rewrite Forall_forall in Hd. apply Hd.
      revert Hx. apply Permutation_in, Permutation_map, sorted_perm.
Qed.

Lemma upload_schedule_few_timestamps_witness :
  exists r,
    get_upload_schedule one_date_platform 5
      (lit "https://www.youtube.com/@sample") 50 0%nat = Done (r, 5%nat)
    /\ avg_days_between_uploads r = 0%Q
    /\ consistency_score_pct r = 0%Q
    /\ posts_by_day r = [(lit "Thursday", 1)].
Proof.
  assert (Hf : _fetch_videos_for_channel one_date_platform 5
                 (lit "https://www.youtube.com/@sample") 50 0%nat
               = Done (map normalize sample_items, 5%nat))
    by (vm_compute; reflexivity).
  destruct (@upload_schedule_few_timestamps one_date_platform 5
              (lit "https://www.youtube.com/@sample") 50 0%nat 5%nat
              (map normalize sample_items) Hf)
    as (_ & Hz & _).
  destruct Hz as (r & E & Ha & Hc); [discriminate | vm_compute; lia |].
  exists r. split; [exact E|].
  split; [exact Ha|]. split; [exact Hc|].
  vm_compute in E. inversion E. reflexivity.
Defined.

(** C6 as stated fails: a channel without uploads yields fewer than two
    parsed timestamps, and the tool raises "No videos found" where two zeros
    are expected. *)
Lemma upload_schedule_empty_channel :
  _fetch_videos_for_channel empty_channel_platform 5
    (lit "https://www.youtube.com/@sample") 50 0%nat = Done ([], 3%nat)
  /\ (List.length (parsed_timestamps empty_channel_platform []) < 2)%nat
  /\ get_upload_schedule empty_channel_platform 5
       (lit "https://www.youtube.com/@sample") 50 0%nat = Raised NoVideosFound.
Proof. vm_compute. repeat split; lia. Qed.

Lemma round_half_even_integer (x : Q) (z : Z) :
  x == inject_Z z -> round_half_even x = z.
Proof. apply round_half_even_whole. Qed.

(** C9, as amended.  When exactly two publish timestamps parse and they are
    both offset-aware or both offset-naive, [get_upload_schedule] returns
    [consistency_score_pct] 0, [statistics.stdev] having raised on the single
    gap, and [avg_days_between_uploads] is [round(gap / 1, 1)] for the whole
    days between the earlier and the later timestamp, which is the gap
    itself since two [datetime]s are less than 3652059 days apart.  When one
    of the two is offset-aware and the other offset-naive, the tool raises
    the [TypeError] of [sorted]. *)
Theorem upload_schedule_two_timestamps (P : platform) (fuel : nat)
    (channel_url : text) (limit : Z) (n n1 : nat) (videos : list video)
    (t1 t2 : datetime) :
  _fetch_videos_for_channel P fuel channel_url limit n = Done (videos, n1) ->
  parsed_timestamps P videos = [t1; t2] ->
  (dt_aware t1 = dt_aware t2 ->
   exists r,
     get_upload_schedule P fuel channel_url limit n = Done (r, n1)
     /\ consistency_score_pct r = 0%Q
     /\ avg_days_between_uploads r
        = py_round (true_div (whole_days t1 t2) 1) 1
     /\ (whole_days t1 t2 <= 3652058 ->
         avg_days_between_uploads r = inject_Z (whole_days t1 t2)))
  /\ (dt_aware t1 <> dt_aware t2 ->
      get_upload_schedule P fuel channel_url limit n = Raised MixedTimestamps).
Proof.
  intros Hf Hp.
  assert (Hv : videos <> []) by (intros ->; discriminate Hp).
  rewrite (@schedule_returned P fuel channel_url limit n n1 videos Hf Hv).
  unfold schedule_of. rewrite schedule_timestamps, Hp.
  unfold gap_scores, sorted_timestamps.
  cbn [List.length Nat.ltb Nat.leb same_kind forallb].
  rewrite andb_true_r. split.
  - intros Ha. rewrite Ha, eqb_reflx.
    assert (G : gaps_of (sorted (ascending (fun d => inject_Z (dt_micros d)))
                                [t1; t2])
                = [whole_days t1 t2]).
    { cbn [sorted fold_right insert]. unfold ascending, whole_days.
      destruct (Qlt_bool (inject_Z (dt_micros t2)) (inject_Z (dt_micros t1)))
        eqn:L; cbn [insert gaps_of]; unfold days_between.
      - apply Qlt_bool_iff in L. rewrite <- Zlt_Qlt in L.
        replace (Z.abs (dt_micros t2 - dt_micros t1))
          with (dt_micros t1 - dt_micros t2) by lia.
        reflexivity.
      - apply Qlt_bool_false in L. rewrite <- Zle_Qle in L.
        replace (Z.abs (dt_micros t2 - dt_micros t1))
          with (dt_micros t2 - dt_micros t1) by lia.
        reflexivity. }
    rewrite G. unfold statistics_stdev.
    cbn [List.length Nat.ltb Nat.leb].
    eexists. split; [reflexivity|].
    cbn [consistency_score_pct avg_days_between_uploads].
    split; [reflexivity|].
    unfold _safe_float, sumZ, len. cbn [fold_left List.length Z.of_nat].
    rewrite Z.add_0_l. change (Z.pos (Pos.of_succ_nat 0)) with 1.
    split; [reflexivity|].
    intros Hg.
    assert (H0 : 0 <= whole_days t1 t2)
      by (unfold whole_days; apply Z.div_pos; lia).
    assert (E : true_div (whole_days t1 t2) 1 = inject_Z (whole_days t1 t2)).
    { unfold true_div.
      rewrite (@fl_comp (inject_Z (whole_days t1 t2) / inject_Z 1)
                        (inject_Z (whole_days t1 t2)))
        by (change (inject_Z 1) with 1%Q; field).
      apply fl_integer. change (2 ^ 52) with 4503599627370496. lia. }
    rewrite E. apply py_round_whole. change (2 ^ 48) with 281474976710656. lia.
  - intros Ha.
    destruct (Bool.eqb (dt_aware t2) (dt_aware t1)) eqn:E; [|reflexivity].
    apply eqb_prop in E. congruence.
Qed.

Lemma upload_schedule_two_timestamps_witness :
  exists r,
    get_upload_schedule sample_platform 5
      (lit "https://www.youtube.com/@sample") 50 0%nat = Done (r, 5%nat)
    /\ consistency_score_pct r = 0%Q
    /\ avg_days_between_uploads r = 2%Q.
Proof.
  assert (Hf : _fetch_videos_for_channel sample_platform 5
                 (lit "https://www.youtube.com/@sample") 50 0%nat
               = Done (map normalize sample_items, 5%nat))
    by (vm_compute; reflexivity).
  destruct (@upload_schedule_two_timestamps sample_platform 5
              (lit "https://www.youtube.com/@sample") 50 0%nat 5%nat
              (map normalize sample_items)
              {| dt_weekday := Thursday; dt_hour := 9; dt_aware := true;
                 dt_micros := 1704358800000000 |}
              {| dt_weekday := Monday; dt_hour := 10; dt_aware := true;
                 dt_micros := 1704103200000000 |}
              Hf eq_refl)
    as [Hs _].
  destruct (Hs eq_refl) as (r & E & Hc & _ & Ha).
  exists r. split; [exact E|]. split; [exact Hc|].
  rewrite Ha; [reflexivity | vm_compute; discriminate].
Defined.

(** C9 as stated fails: with exactly two parsed timestamps, the first
    offset-naive and the second offset-aware, the tool raises the
    [TypeError] of [sorted] and returns no schedule. *)
Lemma upload_schedule_mixed_timestamps :
  map dt_aware
      (parsed_timestamps mixed_platform (map normalize mixed_items))
  = [false; true]
  /\ _fetch_videos_for_channel mixed_platform 5
       (lit "https://www.youtube.com/@sample") 50 0%nat
     = Done (map normalize mixed_items, 5%nat)
  /\ get_upload_schedule mixed_platform 5
       (lit "https://www.youtube.com/@sample") 50 0%nat
     = Raised MixedTimestamps.
Proof. vm_compute. repeat split. Qed.

(** The schedule of the sample channel: uploads on a Thursday and on the
    Monday before it, 2 days and 23 hours apart. *)
Example schedule_of_sample :
  match get_upload_schedule sample_platform 5
          (lit "https://www.youtube.com/@sample") 50 0%nat with
  | Done (r, _) =>
      (total_videos_analyzed r, avg_days_between_uploads r,
       consistency_score_pct r, posts_by_day r, best_posting_day r)
      = (3, 2%Q, 0%Q, [(lit "Monday", 1); (lit "Thursday", 1)], lit "Thursday")
  | _ => False
  end.
Proof. vm_compute. reflexivity. Qed.

(** ** C4: the page loops *)

Section PageLoopFacts.

Variables Item Page : Type.
Variable cap : Z.
Variable endpoint : Z -> option text -> nat -> option Page.
Variable collect : Page -> list Item.
Variable next_of : Page -> option text.

Local Abbreviation loop := (page_loop cap endpoint collect next_of).
Local Abbreviation run := (runs cap endpoint collect next_of).

(** A run of [k] requests is what the loop computes with [k] or more units
    of fuel. *)
Lemma runs_page_loop limit acc token n k r :
  run limit acc token n k r ->
  forall fuel, (k <= fuel)%nat -> loop fuel limit acc token n = r.
Proof.
  induction 1 as [acc token n Hl | acc token n Hl Hq | acc token n data Hl Hq Hs
                 | acc token n data k r Hl Hq Hs Hr IH]; intros fuel Hk.
  - destruct fuel; simpl; destruct (Z.ltb_spec (len acc) limit);
      try lia; reflexivity.
  - destruct fuel as [|fuel]; [lia|]. simpl.
    destruct (Z.ltb_spec (len acc) limit); [|lia].
    unfold bind, _get. unfold request in Hq. rewrite Hq. reflexivity.
  - destruct fuel as [|fuel]; [lia|]. simpl.
    destruct (Z.ltb_spec (len acc) limit); [|lia].
    unfold bind, _get. unfold request in Hq. rewrite Hq.
    unfold last_page in Hs. rewrite Hs. reflexivity.
  - destruct fuel as [|fuel]; [lia|]. simpl.
    destruct (Z.ltb_spec (len acc) limit); [|lia].
    unfold bind, _get. unfold request in Hq. rewrite Hq.
    unfold last_page in Hs. rewrite Hs. apply IH. lia.
Qed.

(** Whatever the loop computes before its fuel is spent is a run. *)
Lemma page_loop_runs fuel limit acc token n r :
  loop fuel limit acc token n = r ->
  r <> OutOfFuel ->
  exists k, (k <= fuel)%nat /\ run limit acc token n k r.
Proof.
  revert acc token n. induction fuel as [|fuel IH]; intros acc token n H Hr; simpl in H.
  - destruct (Z.ltb_spec (len acc) limit).
    + subst r. contradiction.
    + exists 0%nat. split; [lia|]. subst r. apply run_none. exact H0.
  - destruct (Z.ltb_spec (len acc) limit) as [Hl|Hl].
    + unfold bind, _get in H.
      destruct (endpoint (Z.min cap (limit - len acc)) (page_token token) n)
        as [data|] eqn:Hq.
      * destruct (negb (truthy (next_of data))
                  || (limit <=? len (acc ++ collect data)))%bool eqn:Hs.
        -- exists 1%nat. split; [lia|]. subst r.
           apply run_last with (data := data); assumption.
        -- destruct (IH _ _ _ H Hr) as (k & Hk & Hrun).
           exists (S k). split; [lia|].
           apply run_next with (data := data); assumption.
      * exists 1%nat. split; [lia|]. subst r. apply run_failed; assumption.
    + exists 0%nat. split; [lia|]. subst r. apply run_none. exact Hl.
Qed.

(** A run is unique. *)
Lemma runs_unique limit acc token n k r k' r' :
  run limit acc token n k r -> run limit acc token n k' r' -> k = k' /\ r = r'.
Proof.
  intros H1. revert k' r'.
  induction H1 as [acc token n Hl | acc token n Hl Hq | acc token n data Hl Hq Hs
                  | acc token n data k r Hl Hq Hs Hr IH];
    intros k' r' H2; inversion H2; subst; try lia;
    try (split; reflexivity); try congruence.
  - assert (data0 = data) by congruence. subst data0. split; reflexivity.
  - assert (data0 = data) by congruence. subst data0.
    match goal with
    | H : run limit (acc ++ collect data) (next_of data) (S n) _ _ |- _ =>
        destruct (IH _ _ H) as [-> ->]; split; reflexivity
    end.
Qed.

(** The loop never returns exactly when there is no run. *)
Lemma page_loop_diverges limit acc token n :
  never_returns (fun fuel => loop fuel limit acc token) n
  <-> forall k r, ~ run limit acc token n k r.
Proof.
  unfold never_returns. split.
  - intros H k r Hrun.
    pose proof (runs_page_loop Hrun (Nat.le_refl k)) as E.
    rewrite H in E. subst r.
    clear H. remember OutOfFuel as r eqn:Er in Hrun.
    induction Hrun; try discriminate. apply IHHrun. exact Er.
  - intros H fuel.
    destruct (loop fuel limit acc token n) as [x|e|] eqn:E; [| |reflexivity].
    + destruct (page_loop_runs _ _ _ _ _ E) as (k & _ & Hrun); [discriminate|].
      exfalso. apply (H _ _ Hrun).
    + destruct (page_loop_runs _ _ _ _ _ E) as (k & _ & Hrun); [discriminate|].
      exfalso. apply (H _ _ Hrun).
Qed.

(** When every page that names a next page contributes an item, the loop
    ends within [limit - len acc] requests. *)
Lemma runs_progress limit acc token n :
  (forall size tok m data,
      endpoint size tok m = Some data ->
      truthy (next_of data) = true -> collect data <> []) ->
  exists k r, (k <= Z.to_nat (limit - len acc))%nat /\ run limit acc token n k r.
Proof.
  intros Hp.
  remember (Z.to_nat (limit - len acc)) as d eqn:Hd.
  revert acc token n Hd.
  induction d as [d IH] using lt_wf_ind. intros acc token n Hd.
  destruct (Z.ltb_spec (len acc) limit) as [Hl|Hl].
  - destruct (request cap endpoint limit acc token n) as [data|] eqn:Hq.
    + destruct (last_page collect next_of limit acc data) eqn:Hs.
      * exists 1%nat, (Done (acc ++ collect data, S n)).
        split; [lia | apply run_last; assumption].
      * unfold last_page in Hs. apply orb_false_iff in Hs.
        destruct Hs as [Ht Hs]. apply negb_false_iff in Ht.
        apply Z.leb_gt in Hs.
        assert (Hc : collect data <> []) by (apply (Hp _ _ _ _ Hq Ht)).
        assert (Hlen : len acc < len (acc ++ collect data)).
        { unfold len. rewrite length_app. destruct (collect data);
            [contradiction | simpl; lia]. }
        destruct (IH (Z.to_nat (limit - len (acc ++ collect data))))
          with (acc := acc ++ collect data) (token := next_of data) (n := S n)
          as (k & r & Hk & Hr); [lia | reflexivity |].
        exists (S k), r. split; [lia|].
        apply run_next with (data := data); try assumption.
        unfold last_page. rewrite Ht. simpl.
        apply Z.leb_gt. exact Hs.
    + exists 1%nat, (Raised RequestFailed).
      split; [lia | apply run_failed; assumption].
  - exists 0%nat, (Done (acc, n)). split; [lia | apply run_none; exact Hl].
Qed.

End PageLoopFacts.

(** C4, as amended.  The loop of [_fetch_videos_for_channel] and the loop of
    [get_video_comments] make no request when [limit <= 0]; otherwise they
    request page after page and stop at the first request that fails or
    whose response carries no next-page token, or an empty one, or brings
    the collected items to [limit], token or not: these are the [runs].
    Each loop terminates exactly when such a request occurs, and then with
    the result of that run; it does so within [limit] requests when every
    page that names a next page contributes an item. *)
Theorem page_loops_follow_runs (P : platform) :
  (forall uploads_playlist_id,
      follows_runs (fun fuel limit => fetch_video_ids P fuel uploads_playlist_id limit)
                   (video_id_runs P uploads_playlist_id)
      /\ forall limit n,
           (forall size tok m data,
               playlist_items P m uploads_playlist_id size tok = Some data ->
               truthy (pp_nextPageToken data) = true ->
               video_ids_of (pp_items data) <> []) ->
           exists k r, (k <= Z.to_nat limit)%nat
                       /\ video_id_runs P uploads_playlist_id limit [] None n k r)
  /\ (forall video_id,
         follows_runs (fun fuel limit => fetch_comments P fuel video_id limit)
                      (comment_runs P video_id)
         /\ forall limit n,
              (forall size tok m data,
                  comment_threads P m video_id size tok = Some data ->
                  truthy (cp_nextPageToken data) = true ->
                  cp_items data <> []) ->
              exists k r, (k <= Z.to_nat limit)%nat
                          /\ comment_runs P video_id limit [] None n k r).
Proof.
  split; intros id; (split; [intros limit n; split; [|split] | intros limit n Hp]).
  - intros k r Hr fuel Hk. apply (runs_page_loop Hr). exact Hk.
  - intros fuel r H Hr. unfold fetch_video_ids in H.
    apply page_loop_runs; assumption.
  - apply page_loop_diverges.
  - replace (Z.to_nat limit) with (Z.to_nat (limit - len (@nil text)))
      by (unfold len; simpl; f_equal; lia).
    apply runs_progress.
    intros size tok m data. apply Hp.
  - intros k r Hr fuel Hk. apply (runs_page_loop Hr). exact Hk.
  - intros fuel r H Hr. unfold fetch_comments in H.
    apply page_loop_runs; assumption.
  - apply page_loop_diverges.
  - replace (Z.to_nat limit) with (Z.to_nat (limit - len (@nil comment)))
      by (unfold len; simpl; f_equal; lia).
    apply runs_progress.
    intros size tok m data. apply Hp.
Qed.

(** The uploads of the sample channel take two requests: the first page
    names a second one, the second names none. *)
Lemma page_loops_follow_runs_witness :
  fetch_video_ids sample_platform 5 (lit "UUsample") 50 2%nat
  = Done ([lit "v1"; lit "v2"; lit "v3"], 4%nat).
Proof.
  destruct (page_loops_follow_runs sample_platform) as [Hv _].
  destruct (Hv (lit "UUsample")) as [Hf _].
  destruct (Hf 50 2%nat) as [Hrun _].
  apply (Hrun 2%nat); [|lia].
  apply run_next
    with (data := {| pp_items := [Some (lit "v1"); None; Some (lit "v2")];
                     pp_nextPageToken := Some (lit "page2") |});
    [reflexivity | reflexivity | reflexivity |].
  apply run_last
    with (data := {| pp_items := [Some (lit "v3")]; pp_nextPageToken := None |});
    reflexivity.
Defined.

(** C4 as stated fails: on pages that are empty and always name a next
    page, neither loop ever returns. *)
Lemma page_loops_may_not_terminate :
  never_returns
    (fun fuel => fetch_video_ids endless_platform fuel (lit "UUsample") 1) 0%nat
  /\ never_returns
       (fun fuel => fetch_comments endless_platform fuel (lit "v1") 1) 0%nat
  /\ never_returns
       (fun fuel => get_video_comments endless_platform fuel (lit "v1") 100)
       0%nat.
Proof.
  assert (A : forall fuel tok n,
             page_loop 50
               (fun size tok n =>
                  playlist_items endless_platform n (lit "UUsample") size tok)
               (fun data => video_ids_of (pp_items data)) pp_nextPageToken
               fuel 1 [] tok n = OutOfFuel).
  { induction fuel as [|fuel IH]; intros tok n.
    - reflexivity.
    - simpl. unfold bind, _get. simpl. apply IH. }
  assert (B : forall limit fuel tok n,
             0 < limit ->
             page_loop 100
               (fun size tok n =>
                  comment_threads endless_platform n (lit "v1") size tok)
               cp_items cp_nextPageToken fuel limit [] tok n = OutOfFuel).
  { intros limit fuel tok n Hl. revert tok n.
    assert (L1 : (len (@nil comment) <? limit) = true)
      by (apply Z.ltb_lt; unfold len; simpl; lia).
    assert (L2 : (limit <=? len (@nil comment)) = false)
      by (apply Z.leb_gt; unfold len; simpl; lia).
    induction fuel as [|fuel IH]; intros tok n.
    - simpl. rewrite L1. reflexivity.
    - simpl. rewrite L1. unfold bind, _get. simpl. rewrite L2. apply IH. }
  split; [|split]; intros fuel.
  - apply A.
  - apply B. lia.
  - unfold get_video_comments, bind, _get, fetch_comments. simpl.
    rewrite B by lia. reflexivity.
Qed.

(** ** C10: trailing slashes *)

Lemma dropwhile_app_keep (p : ascii -> bool) (x s : text) :
  Forall (fun c => p c = false) s ->
  dropwhile p (x ++ s) = dropwhile p x ++ s.
Proof.
  intros Hs. induction x as [|c x IH]; simpl.
  - destruct Hs as [|c s Hc Hs]; simpl; [reflexivity|]. rewrite Hc. reflexivity.
  - destruct (p c); [exact IH | reflexivity].
Qed.

Lemma dropwhile_app_skip (p : ascii -> bool) (x y : text) :
  Forall (fun c => p c = true) x -> dropwhile p (x ++ y) = dropwhile p y.
Proof.
  induction 1 as [|c x Hc Hx IH]; simpl; [reflexivity|]. rewrite Hc. exact IH.
Qed.

Lemma dropwhile_app_found (p : ascii -> bool) (x s : text) :
  dropwhile p x <> [] -> dropwhile p (x ++ s) = dropwhile p x ++ s.
Proof.
  induction x as [|c x IH]; simpl; intros H.
  - contradiction.
  - destruct (p c); [apply IH; exact H | reflexivity].
Qed.

Lemma takewhile_app_found (p : ascii -> bool) (x s : text) :
  dropwhile p x <> [] -> takewhile p (x ++ s) = takewhile p x.
Proof.
  induction x as [|c x IH]; simpl; intros H.
  - contradiction.
  - destruct (p c); [rewrite IH by exact H|]; reflexivity.
Qed.

Lemma break_at_app (c : ascii) (x s : text) :
  has_char c s = false ->
  break_at c (x ++ s)
  = match break_at c x with
    | Some (a, b) => Some (a, b ++ s)
    | None => None
    end.
Proof.
  intros Hs. induction x as [|a x IH]; simpl.
  - unfold has_char in Hs. induction s as [|b s IHs]; simpl; [reflexivity|].
    simpl in Hs. apply orb_false_iff in Hs. destruct Hs as [Hb Hs].
    rewrite Hb. rewrite (IHs Hs). reflexivity.
  - destruct (is_char c a); [reflexivity|]. rewrite IH.
    destruct (break_at c x) as [[pre post]|]; reflexivity.
Qed.

Lemma break_at_has_char (c : ascii) (x : text) :
  has_char c x = false <-> break_at c x = None.
Proof.
  unfold has_char. induction x as [|a x IH]; simpl.
  - split; reflexivity.
  - destruct (is_char c a); simpl.
    + split; discriminate.
    + rewrite IH. destruct (break_at c x) as [[pre post]|]; split;
        congruence.
Qed.

Lemma slashes_no (c : ascii) (k : nat) :
  is_char c "/" = false -> has_char c (slashes k) = false.
Proof.
  intros H. unfold has_char, slashes.
  induction k as [|k IH]; simpl; [reflexivity|]. rewrite H. exact IH.
Qed.

Lemma has_char_app (c : ascii) (x y : text) :
  has_char c (x ++ y) = (has_char c x || has_char c y)%bool.
Proof. unfold has_char. apply existsb_app. Qed.

Lemma rstrip_slashes (p : text) (k : nat) :
  rstrip slash (p ++ slashes k) = rstrip slash p.
Proof.
  unfold rstrip. rewrite rev_app_distr. f_equal.
  apply dropwhile_app_skip.
  apply Forall_forall. intros c Hc. apply in_rev in Hc.
  unfold slashes in Hc. apply repeat_spec in Hc. subst c. reflexivity.
Qed.

Lemma cut_app (c : ascii) (x : text) (k : nat) :
  is_char c "/" = false ->
  Url.cut c (x ++ slashes k)
  = if has_char c x
    then (fst (Url.cut c x), snd (Url.cut c x) ++ slashes k)
    else (x ++ slashes k, []).
Proof.
  intros Hc. unfold Url.cut.
  rewrite (@break_at_app c x (slashes k) (@slashes_no c k Hc)).
  destruct (has_char c x) eqn:E.
  - destruct (break_at c x) as [[a b]|] eqn:B; [reflexivity|].
    apply break_at_has_char in B. congruence.
  - apply break_at_has_char in E. rewrite E. reflexivity.
Qed.

Lemma match_run_length (prefix head : text) (cls : ascii -> bool) (s g : text) :
  match_run prefix head cls s = Some g ->
  (List.length prefix + List.length head + 1 <= List.length s)%nat.
Proof.
  unfold match_run.
  destruct (strip_prefix (prefix ++ head) s) as [rest|] eqn:E; [|discriminate].
  apply strip_prefix_app in E. subst s.
  destruct rest as [|c rest]; [discriminate|].
  intros _. rewrite !length_app. simpl. lia.
Qed.

Lemma accepted_length (p : text) :
  accepted p = true -> (3 <= List.length p)%nat.
Proof.
  unfold accepted, match_channel, match_handle.
  destruct (match_run (lit "/channel/") (lit "UC") id_char p) eqn:C.
  - intros _. apply match_run_length in C. simpl in C. lia.
  - destruct (match_run (lit "/@") [] handle_char p) eqn:H; [|discriminate].
    intros _. apply match_run_length in H. simpl in H. lia.
Qed.

Lemma dropwhile_length (p : ascii -> bool) (s : text) :
  (List.length (dropwhile p s) <= List.length s)%nat.
Proof.
  induction s as [|c s IH]; simpl; [lia|]. destruct (p c); simpl; lia.
Qed.

Lemma rstrip_length (p : ascii -> bool) (s : text) :
  (List.length (rstrip p s) <= List.length s)%nat.
Proof.
  unfold rstrip. rewrite length_rev.
  rewrite <- (length_rev s). apply dropwhile_length.
Qed.

Lemma cut_length (c : ascii) (x : text) :
  (List.length (fst (Url.cut c x)) <= List.length x)%nat.
Proof.
  unfold Url.cut. induction x as [|a x IH]; simpl; [lia|].
  destruct (is_char c a); simpl; [lia|].
  destruct (break_at c x) as [[pre post]|]; simpl in *; lia.
Qed.

(** What [urlsplit] makes of the text that follows the scheme and the
    network location. *)
Lemma path_after_slashes (x : text) (k : nat) :
  let p := fst (Url.cut "?" (fst (Url.cut "#" x))) in
  let p' := fst (Url.cut "?" (fst (Url.cut "#" (x ++ slashes k)))) in
  p' = p \/ p' = p ++ slashes k.
Proof.
  cbv zeta. rewrite (@cut_app "#" x k eq_refl).
  destruct (has_char "#" x) eqn:Hh; cbn [fst].
  - left. reflexivity.
  - assert (E : fst (Url.cut "#" x) = x).
    { unfold Url.cut. apply break_at_has_char in Hh. rewrite Hh. reflexivity. }
    rewrite E. rewrite (@cut_app "?" x k eq_refl).
    destruct (has_char "?" x) eqn:Hq; cbn [fst].
    + left. reflexivity.
    + right. unfold Url.cut. apply break_at_has_char in Hq. rewrite Hq.
      reflexivity.
Qed.

Lemma split_scheme_slashes (x : text) (k : nat) :
  Url.split_scheme (x ++ slashes k)
  = (fst (Url.split_scheme x), snd (Url.split_scheme x) ++ slashes k).
Proof.
  unfold Url.split_scheme.
  rewrite (@break_at_app ":" x (slashes k) (@slashes_no ":" k eq_refl)).
  destruct (break_at ":" x) as [[pre post]|]; [|reflexivity].
  destruct pre as [|c pre]; [reflexivity|].
  destruct (ascii_alpha c && forallb Url.scheme_char (c :: pre))%bool;
    reflexivity.
Qed.

Lemma clean_slashes (u : text) (k : nat) :
  filter (fun c => negb (Url.unsafe c)) (lstrip Url.c0_or_space (u ++ slashes k))
  = filter (fun c => negb (Url.unsafe c)) (lstrip Url.c0_or_space u) ++ slashes k.
Proof.
  unfold lstrip. rewrite dropwhile_app_keep.
  - rewrite filter_app. f_equal. unfold slashes.
    induction k as [|k IH]; simpl; [reflexivity|]. rewrite IH. reflexivity.
  - apply Forall_forall. intros c Hc. unfold slashes in Hc.
    apply repeat_spec in Hc. subst c. reflexivity.
Qed.

(** Trailing slashes reach the path of a URL whose path is accepted, or are
    lost in its query or fragment; scheme and network location stay. *)
Lemma urlsplit_slashes (P : platform) (u : text) (k : nat) (r : Url.SplitResult) :
  Url.urlsplit P u = Done r ->
  accepted (rstrip slash (Url.path r)) = true ->
  exists r',
    Url.urlsplit P (u ++ slashes k) = Done r'
    /\ Url.scheme r' = Url.scheme r
    /\ (Url.path r' = Url.path r \/ Url.path r' = Url.path r ++ slashes k).
Proof.
  unfold Url.urlsplit. rewrite clean_slashes, split_scheme_slashes.
  destruct (Url.split_scheme _) as [sch url]. cbn [fst snd].
  destruct (strip_prefix (lit "//") url) as [rest|] eqn:Hp.
  - apply strip_prefix_app in Hp. subst url.
    rewrite <- app_assoc.
    assert (Hs : strip_prefix (lit "//") (lit "//" ++ rest ++ slashes k)
                 = Some (rest ++ slashes k))
      by (apply strip_prefix_app; reflexivity).
    rewrite Hs. unfold Url.splitnetloc.
    destruct (netloc_valid P (takewhile (fun c => negb (Url.delimiter c)) rest))
      eqn:Hv; [|discriminate].
    set (tail := dropwhile (fun c => negb (Url.delimiter c)) rest) in *.
    destruct (Url.cut "#" tail) as [url1 frag] eqn:C1.
    destruct (Url.cut "?" url1) as [url2 qry] eqn:C2.
    intros H Ha. inversion H; subst r; clear H. cbn [Url.path Url.scheme] in *.
    assert (Ht : tail <> []).
    { intros E. rewrite E in C1. inversion C1; subst. inversion C2; subst.
      discriminate Ha. }
    rewrite (takewhile_app_found _ _ _ Ht), (dropwhile_app_found _ _ _ Ht).
    fold tail. rewrite Hv.
    pose proof (path_after_slashes tail k) as Hpath. cbv zeta in Hpath.
    rewrite C1 in Hpath. cbn [fst] in Hpath. rewrite C2 in Hpath. cbn [fst] in Hpath.
    destruct (Url.cut "#" (tail ++ slashes k)) as [url1' frag'].
    cbn [fst] in Hpath.
    destruct (Url.cut "?" url1') as [url2' qry']. cbn [fst] in Hpath.
    eexists. split; [reflexivity|]. split; [reflexivity | exact Hpath].
  - destruct (Url.cut "#" url) as [url1 frag] eqn:C1.
    destruct (Url.cut "?" url1) as [url2 qry] eqn:C2.
    intros H Ha. inversion H; subst r; clear H. cbn [Url.path Url.scheme] in *.
    assert (Hl : (3 <= List.length url)%nat).
    { apply accepted_length in Ha.
      pose proof (rstrip_length slash url2).
      pose proof (cut_length "?" url1) as L2. rewrite C2 in L2.
      pose proof (cut_length "#" url) as L1. rewrite C1 in L1.
      cbn [fst] in *. lia. }
    assert (Hs : strip_prefix (lit "//") (url ++ slashes k) = None).
    { destruct url as [|a [|b url]]; simpl in Hl; try lia.
      change (lit "//") with ["/"%char; "/"%char] in *.
      cbn [strip_prefix app] in *. destruct (Ascii.eqb "/" a); [|reflexivity].
      destruct (Ascii.eqb "/" b); [discriminate Hp | reflexivity]. }
    rewrite Hs.
    pose proof (path_after_slashes url k) as Hpath. cbv zeta in Hpath.
    rewrite C1 in Hpath. cbn [fst] in Hpath. rewrite C2 in Hpath. cbn [fst] in Hpath.
    destruct (Url.cut "#" (url ++ slashes k)) as [url1' frag'].
    cbn [fst] in Hpath.
    destruct (Url.cut "?" url1') as [url2' qry']. cbn [fst] in Hpath.
    eexists. split; [reflexivity|]. split; [reflexivity | exact Hpath].
Qed.

Lemma urlparse_path_plain (P : platform) (u : text) (r : Url.SplitResult) :
  Url.urlsplit P u = Done r ->
  has_char ";" (Url.path r) = false ->
  Url.urlparse_path P u = Done (Url.path r).
Proof.
  intros H Hs. unfold Url.urlparse_path. rewrite H, Hs, andb_false_r.
  reflexivity.
Qed.

(** C10, as amended.  For a URL whose path, as [urlsplit] cuts it, holds no
    [;] and, stripped of trailing slashes, has one of the two accepted
    shapes, appending any number of slashes to the URL changes nothing:
    [resolve_channel_id] makes the same requests and gives the same
    result. *)
Theorem resolve_ignores_trailing_slashes (P : platform) (u : text) (k : nat)
    (r : Url.SplitResult) :
  Url.urlsplit P u = Done r ->
  has_char ";" (Url.path r) = false ->
  accepted (rstrip slash (Url.path r)) = true ->
  forall n, resolve_channel_id P (u ++ slashes k) n = resolve_channel_id P u n.
Proof.
  intros Hu Hs Ha n.
  destruct (urlsplit_slashes P u k Hu Ha) as (r' & Hu' & _ & Hp).
  assert (Hs' : has_char ";" (Url.path r') = false).
  { destruct Hp as [-> | ->]; [exact Hs|].
    rewrite has_char_app, Hs. apply (@slashes_no ";" k eq_refl). }
  assert (Hr : rstrip slash (Url.path r') = rstrip slash (Url.path r)).
  { destruct Hp as [-> | ->]; [reflexivity | apply rstrip_slashes]. }
  unfold resolve_channel_id, bind, lift.
  rewrite (urlparse_path_plain P u Hu Hs).
  rewrite (urlparse_path_plain P (u ++ slashes k) Hu' Hs').
  rewrite Hr. unfold accepted in Ha.
  destruct (match_channel (rstrip slash (Url.path r))); [reflexivity|].
  destruct (match_handle (rstrip slash (Url.path r))); [reflexivity|].
  discriminate Ha.
Qed.

Lemma resolve_ignores_trailing_slashes_witness :
  resolve_channel_id sample_platform
    (lit "https://www.youtube.com/@sample?tab=videos" ++ slashes 3) 0%nat
  = resolve_channel_id sample_platform
      (lit "https://www.youtube.com/@sample?tab=videos") 0%nat
  /\ resolve_channel_id sample_platform
       (lit "https://www.youtube.com/channel/UCsample" ++ slashes 2) 0%nat
     = Done (lit "UCsample", 0%nat).
Proof.
  split.
  - apply (@resolve_ignores_trailing_slashes sample_platform
             (lit "https://www.youtube.com/@sample?tab=videos") 3
             {| Url.scheme := lit "https";
                Url.netloc := lit "www.youtube.com";
                Url.path := lit "/@sample";
                Url.query := lit "tab=videos";
                Url.fragment := [] |});
      reflexivity.
  - rewrite (@resolve_ignores_trailing_slashes sample_platform
               (lit "https://www.youtube.com/channel/UCsample") 2
               {| Url.scheme := lit "https";
                  Url.netloc := lit "www.youtube.com";
                  Url.path := lit "/channel/UCsample";
                  Url.query := [];
                  Url.fragment := [] |});
      reflexivity.
Defined.

(** C10 as stated fails: with a [;] parameter after the channel id the URL
    resolves, its path being an accepted one, but with a slash appended the
    parameter is no longer split off and the URL is refused. *)
Lemma trailing_slash_after_params :
  Url.urlparse_path sample_platform
    (lit "https://www.youtube.com/channel/UCabc;x") = Done (lit "/channel/UCabc")
  /\ accepted (rstrip slash (lit "/channel/UCabc")) = true
  /\ resolve_channel_id sample_platform
       (lit "https://www.youtube.com/channel/UCabc;x") 0%nat
     = Done (lit "UCabc", 0%nat)
  /\ resolve_channel_id sample_platform
       (lit "https://www.youtube.com/channel/UCabc;x" ++ slashes 1) 0%nat
     = Raised (UnsupportedUrl (lit "https://www.youtube.com/channel/UCabc;x/")).
Proof. repeat split; vm_compute; reflexivity. Qed.

(** The end-to-end example of the specification for the resolver. *)
Example resolve_examples :
  resolve_channel_id sample_platform (lit "https://x/channel/UC123") 0%nat
  = Done (lit "UC123", 0%nat)
  /\ resolve_channel_id sample_platform (lit "https://x/foo") 0%nat
     = Raised (UnsupportedUrl (lit "https://x/foo")).
Proof. split; vm_compute; reflexivity. Qed.

(* ------------------------------------------------------------------ *)
(** * Further properties *)

(** ** [_parse_duration] *)

Lemma takewhile_forall (p : ascii -> bool) (s : text) :
  Forall (fun c => p c = true) (takewhile p s).
Proof.
  induction s as [|c s IH]; simpl; [constructor|].
  destruct (p c) eqn:E; constructor; assumption.
Qed.

Lemma takewhile_run (p : ascii -> bool) (ds : text) (c : ascii) (rest : text) :
  Forall (fun x => p x = true) ds -> p c = false ->
  takewhile p (ds ++ c :: rest) = ds /\ dropwhile p (ds ++ c :: rest) = c :: rest.
Proof.
  intros Hd Hc. induction Hd as [|x ds Hx Hd IH]; simpl.
  - rewrite Hc. split; reflexivity.
  - rewrite Hx. destruct IH as [-> ->]. split; reflexivity.
Qed.

Lemma digit_value_range (c : ascii) :
  is_digit c = true -> 0 <= digit_value c <= 9.
Proof.
  unfold is_digit, between, digit_value. intros H.
  apply andb_true_iff in H. destruct H as [H1 H2].
  apply Nat.leb_le in H1, H2. lia.
Qed.

Lemma int_of_digits_nonneg (ds : text) :
  Forall (fun c => is_digit c = true) ds -> 0 <= int_of_digits ds.
Proof.
  unfold int_of_digits. intros H.
  assert (G : forall acc, 0 <= acc ->
              0 <= fold_left (fun n c => 10 * n + digit_value c) ds acc).
  { induction H as [|c ds Hc Hd IH]; intros acc Ha; cbn [fold_left]; [exact Ha|].
    apply IH. pose proof (digit_value_range c Hc). lia. }
  apply G. lia.
Qed.

Lemma decimal_digits_acc (d : Decimal.uint) (acc : nat) :
  Forall (fun c => is_digit c = true) (lit (NilEmpty.string_of_uint d))
  /\ fold_left (fun n c => 10 * n + digit_value c)
               (lit (NilEmpty.string_of_uint d)) (Z.of_nat acc)
     = Z.of_nat (Nat.of_uint_acc d acc).
Proof.
  revert acc.
  induction d as [|d IHd|d IHd|d IHd|d IHd|d IHd|d IHd|d IHd|d IHd|d IHd|d IHd];
    intros acc; unfold lit;
    cbn [NilEmpty.string_of_uint list_ascii_of_string fold_left Nat.of_uint_acc].
  1: { split; [constructor | reflexivity]. }
  all: fold (lit (NilEmpty.string_of_uint d));
    (split; [constructor; [reflexivity | apply (proj1 (IHd 0%nat))] | ]);
    match goal with
    | |- _ = Z.of_nat (Nat.of_uint_acc _ ?a) =>
        rewrite <- (proj2 (IHd a)); f_equal;
        rewrite ?Nat2Z.inj_succ, Nat.tail_mul_spec; unfold digit_value;
        change (Z.of_nat (code "0")) with 48; change (Z.of_nat (code "1")) with 49;
        change (Z.of_nat (code "2")) with 50; change (Z.of_nat (code "3")) with 51;
        change (Z.of_nat (code "4")) with 52; change (Z.of_nat (code "5")) with 53;
        change (Z.of_nat (code "6")) with 54; change (Z.of_nat (code "7")) with 55;
        change (Z.of_nat (code "8")) with 56; change (Z.of_nat (code "9")) with 57;
        lia
    end.
Qed.

Lemma decimal_spec (n : nat) :
  Forall (fun c => is_digit c = true) (decimal n)
  /\ decimal n <> []
  /\ int_of_digits (decimal n) = Z.of_nat n.
Proof.
  assert (Hv : int_of_digits (decimal n) = Z.of_nat n).
  { unfold decimal, int_of_digits.
    change 0 with (Z.of_nat 0).
    rewrite (proj2 (decimal_digits_acc (Nat.to_uint n) 0)).
    f_equal. apply DecimalNat.Unsigned.of_to. }
  split; [apply (proj1 (decimal_digits_acc (Nat.to_uint n) 0))|].
  split; [|exact Hv].
  intros E. rewrite E in Hv. destruct n as [|n]; [discriminate E|].
  cbn in Hv. lia.
Qed.

(** A written component is read back by its own group and skipped by the
    group of another unit. *)
Lemma component_written (unit c : ascii) (n : nat) (rest : text) :
  is_digit c = false ->
  component unit (decimal n ++ c :: rest)
  = if is_char unit c then (Z.of_nat n, rest) else (0, decimal n ++ c :: rest).
Proof.
  intros Hc. unfold component.
  destruct (decimal_spec n) as (Hd & Hn & Hv).
  destruct (@takewhile_run is_digit (decimal n) c rest Hd Hc) as [-> ->].
  destruct (decimal n) as [|d ds] eqn:E; [contradiction|].
  rewrite Hv. reflexivity.
Qed.

Lemma component_no_digit (unit : ascii) (s : text) :
  match s with [] => True | c :: _ => is_digit c = false end ->
  component unit s = (0, s).
Proof.
  unfold component. destruct s as [|c s]; [reflexivity|].
  intros Hc. simpl. rewrite Hc. reflexivity.
Qed.

Lemma component_nonneg (unit : ascii) (s : text) : 0 <= fst (component unit s).
Proof.
  unfold component.
  pose proof (takewhile_forall is_digit s) as Hd.
  destruct (takewhile is_digit s) as [|d ds]; [simpl; lia|].
  destruct (dropwhile is_digit s) as [|c rest]; [simpl; lia|].
  destruct (is_char unit c); [|simpl; lia].
  apply int_of_digits_nonneg. exact Hd.
Qed.

Lemma component_hit (unit : ascii) (n : nat) (rest : text) :
  is_digit unit = false ->
  component unit (decimal n ++ unit :: rest) = (Z.of_nat n, rest).
Proof.
  intros Hu. rewrite (@component_written unit unit n rest Hu).
  unfold is_char. rewrite Ascii.eqb_refl. reflexivity.
Qed.

Lemma component_miss (unit c : ascii) (n : nat) (rest : text) :
  is_digit c = false -> is_char unit c = false ->
  component unit (decimal n ++ c :: rest) = (0, decimal n ++ c :: rest).
Proof.
  intros Hc Hu. rewrite (@component_written unit c n rest Hc), Hu. reflexivity.
Qed.

(** X1.  [_parse_duration] reads back a duration written as ["PT"], then the
    hours with [H], the minutes with [M] and the seconds with [S], each one
    present or not: the result is hours * 3600 + minutes * 60 + seconds, a
    missing component counting for 0. *)
Theorem parse_duration_reads_written (h m s : option nat) :
  _parse_duration
    (Some (lit "PT" ++ written h "H" ++ written m "M" ++ written s "S"))
  = amount h * 3600 + amount m * 60 + amount s.
Proof.
  unfold _parse_duration.
  rewrite (proj2 (strip_prefix_app (lit "PT") _ _) eq_refl).
  destruct h as [h|], m as [m|], s as [s|]; unfold written, amount;
    cbn [app]; rewrite <- ?app_assoc; cbn [app];
    repeat (first [ rewrite component_hit by reflexivity
                  | rewrite component_miss by reflexivity
                  | rewrite (component_no_digit _ []) by exact I ];
            cbv beta iota);
    lia.
Qed.

(** X2.  A duration is never negative, and a text that does not begin with
    ["PT"], an empty or a missing one included, is 0 seconds. *)
Theorem parse_duration_floor :
  (forall d, 0 <= _parse_duration d)
  /\ _parse_duration None = 0
  /\ (forall s, starts_with (lit "PT") s = false -> _parse_duration (Some s) = 0).
Proof.
  split; [|split].
  - intros d. unfold _parse_duration.
    destruct (strip_prefix _ _) as [rest|]; [|lia].
    pose proof (component_nonneg "H" rest) as Hh.
    destruct (component "H" rest) as [h r1].
    pose proof (component_nonneg "M" r1) as Hm.
    destruct (component "M" r1) as [m r2].
    pose proof (component_nonneg "S" r2) as Hs.
    destruct (component "S" r2) as [s r3].
    cbn [fst] in *. lia.
  - reflexivity.
  - intros s H. unfold _parse_duration, starts_with in *.
    destruct (strip_prefix (lit "PT") s); [discriminate | reflexivity].
Qed.

Example parse_duration_examples :
  map (fun s => _parse_duration (Some (lit s)))
      ["PT4M13S"; "PT1H"; "PT"; ""; "P1D"; "PT1H2M3S"; "PT5S3M"; "PT1.5S"]%string
  = [253; 3600; 0; 0; 0; 3723; 5; 0].
Proof. vm_compute. reflexivity. Qed.

(** ** [_thumbnail_url] *)

(** X3.  [_thumbnail_url] returns the URL of the best resolution present:
    that of a tier when no better tier is present, whatever lower tiers and
    other keys there are; and the empty string when none of the five tiers
    is present. *)
Theorem thumbnail_url_best_tier (t : thumbnails) :
  (forall better q worse url,
      tiers = better ++ q :: worse ->
      (forall b, In b better -> lookup b t = None) ->
      lookup q t = Some url ->
      _thumbnail_url t = url)
  /\ ((forall q, In q tiers -> lookup q t = None) -> _thumbnail_url t = []).
Proof.
  unfold _thumbnail_url. fold tiers.
  set (pick := fix pick (qualities : list text) : text :=
                 match qualities with
                 | [] => []
                 | q :: r => match lookup q t with
                             | Some url => url
                             | None => pick r
                             end
                 end).
  split.
  - intros better q worse url -> Hb Hq.
    induction better as [|b better IH]; cbn [app pick].
    + rewrite Hq. reflexivity.
    + rewrite (Hb b (or_introl eq_refl)). apply IH.
      intros b' Hb'. apply Hb. right. exact Hb'.
  - generalize tiers. intros l H. induction l as [|q l IH]; cbn [pick].
    + reflexivity.
    + rewrite (H q (or_introl eq_refl)). apply IH.
      intros q' Hq'. apply H. right. exact Hq'.
Qed.

Lemma thumbnail_url_best_tier_witness :
  _thumbnail_url [(lit "default", lit "https://img/d.jpg");
                  (lit "extra", lit "https://img/x.jpg");
                  (lit "high", lit "https://img/h.jpg")]
  = lit "https://img/h.jpg".
Proof.
  apply (proj1 (thumbnail_url_best_tier _))
    with (better := map lit ["maxres"; "standard"]%string)
         (q := lit "high") (worse := map lit ["medium"; "default"]%string).
  - reflexivity.
  - intros b [<-|[<-|[]]]; reflexivity.
  - reflexivity.
Defined.

(** ** The aggregator's batches *)

Lemma batches_spec (n : nat) (ids : list text) :
  (List.length ids <= n)%nat ->
  List.concat (batches n ids) = ids
  /\ Forall (fun b => (1 <= List.length b <= 50)%nat) (batches n ids)
  /\ List.length (batches n ids) = ((List.length ids + 49) / 50)%nat.
Proof.
  revert ids. induction n as [|n IH]; intros ids Hn.
  - destruct ids; [|simpl in Hn; lia]. repeat split. constructor.
  - destruct ids as [|i ids].
    + repeat split. constructor.
    + cbn [batches].
      set (l := i :: ids) in *.
      assert (Hl : (1 <= List.length l)%nat) by (unfold l; simpl; lia).
      pose proof (length_firstn 50 l) as Hf.
      pose proof (length_skipn 50 l) as Hs.
      destruct (IH (skipn 50 l)) as (Hc & Hb & Hk); [lia|].
      split; [|split].
      * cbn [List.concat]. rewrite Hc. apply firstn_skipn.
      * constructor; [lia | exact Hb].
      * cbn [List.length]. rewrite Hk, Hs.
        destruct (Nat.le_gt_cases (List.length l) 50) as [H|H].
        -- replace (List.length l - 50)%nat with 0%nat by lia.
           change ((0 + 49) / 50)%nat with 0%nat.
           apply Nat.div_unique with (r := (List.length l - 1)%nat); lia.
        -- replace (List.length l + 49)%nat
             with ((List.length l - 50 + 49) + 1 * 50)%nat by lia.
           rewrite Nat.div_add by lia. lia.
Qed.

(** X4.  The aggregator looks its video ids up in consecutive slices: the
    slices put together are the list of ids, each slice holds between 1 and
    50 ids, and there are [ceil(len(ids) / 50)] of them. *)
Theorem batches_cover_ids (ids : list text) :
  List.concat (batches (List.length ids) ids) = ids
  /\ Forall (fun b => (1 <= List.length b <= 50)%nat)
            (batches (List.length ids) ids)
  /\ List.length (batches (List.length ids) ids)
     = ((List.length ids + 49) / 50)%nat.
Proof. apply batches_spec. apply Nat.le_refl. Qed.

(** ** What the page loops ask for and how much they collect *)

Lemma page_token_not_empty (t : option text) : page_token t <> Some [].
Proof.
  unfold page_token. destruct t as [[|c r]|]; simpl; discriminate.
Qed.

Lemma len_nonneg {A} (l : list A) : 0 <= len l.
Proof. unfold len. lia. Qed.

Lemma len_app {A} (l l' : list A) : len (l ++ l') = len l + len l'.
Proof. unfold len. rewrite length_app. lia. Qed.

Section PageLoopBounds.

Variables Item Page : Type.
Variable cap : Z.
Variable collect : Page -> list Item.
Variable next_of : Page -> option text.
Hypothesis cap_positive : 1 <= cap.

(** Only the answers to requests for 1 to [min cap limit] results, with no
    token or a non-empty one, matter to the loop. *)
Lemma page_loop_requests (endpoint endpoint' : Z -> option text -> nat -> option Page)
    (limit : Z) :
  (forall size tok n,
      1 <= size <= Z.min cap limit -> tok <> Some [] ->
      endpoint size tok n = endpoint' size tok n) ->
  forall fuel acc tok n,
    page_loop cap endpoint collect next_of fuel limit acc tok n
    = page_loop cap endpoint' collect next_of fuel limit acc tok n.
Proof.
  intros He. induction fuel as [|fuel IH]; intros acc tok n; simpl.
  - reflexivity.
  - destruct (Z.ltb_spec (len acc) limit) as [Hl|Hl]; [|reflexivity].
    unfold bind, _get.
    pose proof (len_nonneg acc) as H0.
    rewrite (He (Z.min cap (limit - len acc)) (page_token tok) n)
      by (try apply page_token_not_empty; lia).
    destruct (endpoint' _ _ n) as [data|]; [|reflexivity].
    destruct (negb _ || _)%bool; [reflexivity | apply IH].
Qed.

(** When no page holds more items than were asked for, the loop does not
    collect beyond [limit]. *)
Lemma page_loop_within_limit (endpoint : Z -> option text -> nat -> option Page)
    (limit : Z) :
  (forall size tok n data,
      1 <= size -> endpoint size tok n = Some data ->
      len (collect data) <= size) ->
  forall fuel acc tok n out n1,
    page_loop cap endpoint collect next_of fuel limit acc tok n = Done (out, n1) ->
    len out <= Z.max (len acc) limit /\ (n <= n1)%nat
    /\ exists more, out = acc ++ more.
Proof.
  intros Hp. induction fuel as [|fuel IH]; intros acc tok n out n1; simpl.
  - destruct (Z.ltb_spec (len acc) limit) as [Hl|Hl]; [discriminate|].
    intros H. apply ret_done in H. destruct H as [<- <-].
    split; [lia|]. split; [lia|]. exists []. rewrite app_nil_r. reflexivity.
  - destruct (Z.ltb_spec (len acc) limit) as [Hl|Hl].
    + unfold bind, _get.
      destruct (endpoint (Z.min cap (limit - len acc)) (page_token tok) n)
        as [data|] eqn:Hq; [|discriminate].
      assert (Hd : len (acc ++ collect data) <= limit).
      { rewrite len_app.
        assert (Hsz : 1 <= Z.min cap (limit - len acc)) by lia.
        pose proof (Hp _ _ _ _ Hsz Hq). lia. }
      destruct (negb _ || _)%bool.
      * intros H. apply ret_done in H. destruct H as [<- <-].
        split; [lia|]. split; [lia|]. exists (collect data). reflexivity.
      * intros H. destruct (IH _ _ _ _ _ H) as (Hlen & Hn & more & ->).
        split; [lia|]. split; [lia|].
        exists (collect data ++ more). rewrite app_assoc. reflexivity.
    + intros H. apply ret_done in H. destruct H as [<- <-].
      split; [lia|]. split; [lia|]. exists []. rewrite app_nil_r. reflexivity.
Qed.

End PageLoopBounds.

Lemma video_ids_of_length (items : list (option text)) :
  len (video_ids_of items) <= len items.
Proof.
  unfold len. induction items as [|[[|c r]|] items IH]; simpl in *; lia.
Qed.

(** X5.  Two collaborators that answer alike every request for 1 to
    [min(50, limit)] playlist items (1 to [min(100, limit)] comment threads)
    made without a page token or with a non-empty one give the loops the
    same outcome: the loops make no other request. *)
Theorem page_loops_request_sizes (P P' : platform) (limit : Z) :
  ((forall n id size tok,
       1 <= size <= Z.min 50 limit -> tok <> Some [] ->
       playlist_items P n id size tok = playlist_items P' n id size tok) ->
   forall fuel id n,
     fetch_video_ids P fuel id limit n = fetch_video_ids P' fuel id limit n)
  /\ ((forall n id size tok,
          1 <= size <= Z.min 100 limit -> tok <> Some [] ->
          comment_threads P n id size tok = comment_threads P' n id size tok) ->
      forall fuel id n,
        fetch_comments P fuel id limit n = fetch_comments P' fuel id limit n).
Proof.
  split; intros H fuel id n.
  - unfold fetch_video_ids. apply page_loop_requests; [lia|].
    intros size tok m Hs Ht. apply H; assumption.
  - unfold fetch_comments. apply page_loop_requests; [lia|].
    intros size tok m Hs Ht. apply H; assumption.
Qed.


Lemma page_loops_request_sizes_witness :
  fetch_video_ids strict_platform 5 (lit "UUsample") 50 2%nat
  = Done ([lit "v1"; lit "v2"; lit "v3"], 4%nat).
Proof.
  rewrite <- (proj1 (page_loops_request_sizes sample_platform strict_platform 50)).
  - reflexivity.
  - intros n id size tok Hs Ht. cbn [playlist_items strict_platform].
    destruct (Z.leb_spec 1 size); [|lia].
    destruct (Z.leb_spec size 50); [|lia].
    destruct tok as [[|c r]|]; [contradiction | reflexivity | reflexivity].
Defined.

(** X6.  When no page of the collaborator holds more items than the request
    asked for, [get_video_comments] returns at most [limit] comments, none
    for a [limit] below 1, and counts them in [returned_comment_count]; and
    the aggregator's loop collects at most [limit] video ids. *)
Theorem collected_within_limit (P : platform) (id : text) (limit : Z) :
  ((forall n size tok data,
       1 <= size -> comment_threads P n id size tok = Some data ->
       len (cp_items data) <= size) ->
   forall fuel n r n1,
     get_video_comments P fuel id limit n = Done (r, n1) ->
     returned_comment_count r = len (vc_comments r)
     /\ returned_comment_count r <= Z.max 0 limit)
  /\ ((forall n size tok data,
          1 <= size -> playlist_items P n id size tok = Some data ->
          len (pp_items data) <= size) ->
      forall fuel n ids n1,
        fetch_video_ids P fuel id limit n = Done (ids, n1) ->
        len ids <= Z.max 0 limit).
Proof.
  split.
  - intros Hp fuel n r n1 H. unfold get_video_comments in H.
    unbind H. apply ret_done in H. destruct H as [<- _].
    cbn [returned_comment_count vc_comments]. split; [reflexivity|].
    unfold fetch_comments in E0.
    apply page_loop_within_limit in E0; [|lia|].
    + destruct E0 as (Hl & _). exact Hl.
    + intros size tok m data Hs Hq. apply (Hp m size tok data Hs Hq).
  - intros Hp fuel n ids n1 H. unfold fetch_video_ids in H.
    apply page_loop_within_limit in H; [|lia|].
    + destruct H as (Hl & _). exact Hl.
    + intros size tok m data Hs Hq.
      pose proof (Hp m size tok data Hs Hq).
      pose proof (video_ids_of_length (pp_items data)). lia.
Qed.

Lemma collected_within_limit_witness :
  exists r,
    get_video_comments sample_platform 5 (lit "v1") 100 0%nat = Done (r, 2%nat)
    /\ returned_comment_count r <= 100.
Proof.
  eexists. split; [vm_compute; reflexivity|].
  eapply (proj1 (collected_within_limit sample_platform (lit "v1") 100)
                (fun n size tok data Hs Hq => _) 5%nat 0%nat _ 2%nat).
  vm_compute. reflexivity.
  Unshelve.
  cbn in Hq. inversion Hq. subst data. unfold len. simpl. lia.
Defined.

(** ** [resolve_channel_id] *)

Lemma match_run_form (prefix head : text) (cls : ascii -> bool) (s g : text) :
  match_run prefix head cls s = Some g ->
  exists run tail,
    g = head ++ run /\ run <> [] /\ Forall (fun c => cls c = true) run
    /\ s = prefix ++ g ++ tail /\ at_end tail = true.
Proof.
  unfold match_run.
  destruct (strip_prefix (prefix ++ head) s) as [rest|] eqn:E; [|discriminate].
  apply strip_prefix_app in E. subst s.
  pose proof (takewhile_forall cls rest) as Hf.
  assert (Hsplit : rest = takewhile cls rest ++ dropwhile cls rest).
  { clear. induction rest as [|c r IH]; simpl; [reflexivity|].
    destruct (cls c); simpl; [f_equal; exact IH | reflexivity]. }
  destruct (takewhile cls rest) as [|c run] eqn:T; [discriminate|].
  destruct (at_end (dropwhile cls rest)) eqn:A; [|discriminate].
  intros H. inversion H; subst g.
  exists (c :: run), (dropwhile cls rest).
  split; [reflexivity|]. split; [discriminate|]. split; [exact Hf|].
  split; [|exact A].
  rewrite Hsplit at 1. rewrite <- !app_assoc. reflexivity.
Qed.

Lemma lift_done {A} (o : outcome A) n a n1 :
  lift o n = Done (a, n1) -> o = Done a /\ n1 = n.
Proof.
  unfold lift. destruct o; try discriminate.
  intros H. inversion H. split; reflexivity.
Qed.

Lemma get_done {A} (endpoint : nat -> option A) n a n1 :
  _get endpoint n = Done (a, n1) -> endpoint n = Some a /\ n1 = S n.
Proof.
  unfold _get. destruct (endpoint n); [|discriminate].
  intros H. inversion H. split; reflexivity.
Qed.

(** X7.  A channel id that [resolve_channel_id] returns comes about in one
    of two ways.  Either the path of the URL, trailing slashes removed, is
    ["/channel/"] followed by the id, the id being ["UC"] and one or more
    word characters or dashes: then no request is made.  Or the path is
    ["/@"] and a handle: then exactly one request is made, the lookup of
    that handle, and the id is the first one it returned. *)
Theorem resolve_direct_or_one_lookup (P : platform) (channel_url : text)
    (n n1 : nat) (id : text) :
  resolve_channel_id P channel_url n = Done (id, n1) ->
  exists path,
    Url.urlparse_path P channel_url = Done path
    /\ ((n1 = n
         /\ exists run tail,
              id = lit "UC" ++ run /\ run <> []
              /\ Forall (fun c => id_char c = true) run
              /\ rstrip slash path = lit "/channel/" ++ id ++ tail
              /\ at_end tail = true)
        \/ (n1 = S n
            /\ match_channel (rstrip slash path) = None
            /\ exists handle others,
                 match_handle (rstrip slash path) = Some handle
                 /\ channels_for_handle P n handle = Some (id :: others))).
Proof.
  unfold resolve_channel_id. intros H.
  apply bind_done in H. destruct H as (path & n0 & Hp & H).
  apply lift_done in Hp. destruct Hp as [Hp ->].
  exists path. split; [exact Hp|].
  destruct (match_channel (rstrip slash path)) as [cid|] eqn:C.
  - apply ret_done in H. destruct H as [-> ->]. left. split; [reflexivity|].
    unfold match_channel in C.
    destruct (match_run_form _ _ _ _ C) as (run & tail & Hg & Hr & Hf & Hs & Ha).
    exists run, tail. repeat split; assumption.
  - destruct (match_handle (rstrip slash path)) as [handle|] eqn:Hh;
      [|discriminate].
    apply bind_done in H. destruct H as (items & n2 & Hi & H).
    apply get_done in Hi. destruct Hi as [Hi ->].
    destruct items as [|first others]; [discriminate|].
    apply ret_done in H. destruct H as [-> ->].
    right. split; [reflexivity|]. split; [reflexivity|].
    exists handle, others. split; [reflexivity | exact Hi].
Qed.

Lemma resolve_direct_or_one_lookup_witness :
  exists path,
    Url.urlparse_path sample_platform (lit "https://www.youtube.com/@sample/")
    = Done path
    /\ match_handle (rstrip slash path) = Some (lit "sample").
Proof.
  destruct (@resolve_direct_or_one_lookup sample_platform
              (lit "https://www.youtube.com/@sample/") 0%nat 1%nat
              (lit "UCsample") eq_refl)
    as (path & Hp & [[Hn _] | (_ & _ & handle & others & Hh & _)]).
  - discriminate Hn.
  - exists path. split; [exact Hp|].
    vm_compute in Hp. inversion Hp; subst path. reflexivity.
Defined.

(** X8.  [resolve_channel_id] always comes to an end, and when it fails it
    is in one of four ways: [urlparse] refused the URL; or the path has
    neither accepted shape and the error names the URL as it was given; or
    the path is a handle whose lookup failed, after no other request; or
    that lookup returned no item and the error names the handle. *)
Theorem resolve_failures (P : platform) (channel_url : text) (n : nat) :
  resolve_channel_id P channel_url n <> OutOfFuel
  /\ forall e,
       resolve_channel_id P channel_url n = Raised e ->
       (e = InvalidURL /\ Url.urlparse_path P channel_url = Raised InvalidURL)
       \/ exists path,
            Url.urlparse_path P channel_url = Done path
            /\ match_channel (rstrip slash path) = None
            /\ match match_handle (rstrip slash path) with
               | None => e = UnsupportedUrl channel_url
               | Some handle =>
                   (e = RequestFailed /\ channels_for_handle P n handle = None)
                   \/ (e = NoChannelForHandle handle
                       /\ channels_for_handle P n handle = Some [])
               end.
Proof.
  unfold resolve_channel_id, bind, lift, _get, raise, ret.
  destruct (Url.urlparse_path P channel_url) as [path|e0|] eqn:U.
  - destruct (match_channel (rstrip slash path)) as [cid|] eqn:C.
    + split; [discriminate|]. intros e H. discriminate H.
    + destruct (match_handle (rstrip slash path)) as [handle|] eqn:Hh.
      * destruct (channels_for_handle P n handle) as [[|i r]|] eqn:L;
          (split; [discriminate|]); intros e H; try discriminate H;
          inversion H; subst e; right; exists path;
          (split; [reflexivity|]); (split; [exact C|]); rewrite Hh.
        -- right. split; [reflexivity | exact L].
        -- left. split; [reflexivity | exact L].
      * split; [discriminate|]. intros e H. inversion H; subst e.
        right. exists path. split; [reflexivity|]. split; [exact C|].
        rewrite Hh. reflexivity.
  - split; [discriminate|]. intros e H. inversion H; subst e.
    left. pose proof (urlparse_path_raised _ _ U) as ->. split; reflexivity.
  - exfalso. unfold Url.urlparse_path in U.
    destruct (Url.urlsplit P channel_url) as [r|e|] eqn:S; try discriminate.
    + destruct (_ && _)%bool; discriminate.
    + unfold Url.urlsplit in S.
      destruct (Url.split_scheme _) as [sch url].
      destruct (strip_prefix (lit "//") url) as [rest|].
      * destruct (Url.splitnetloc rest) as [loc url'].
        destruct (netloc_valid P loc); [|discriminate].
        destruct (Url.cut "#" url') as [url1 frag].
        destruct (Url.cut "?" url1) as [url2 qry]. discriminate.
      * destruct (Url.cut "#" url) as [url1 frag].
        destruct (Url.cut "?" url1) as [url2 qry]. discriminate.
Qed.

(** ** The comparisons, continued *)

(** X9.  [compare_videos] looks at its first 10 ids only and
    [compare_channels] at its first 5 URLs only: what follows them changes
    neither the requests nor the result. *)
Theorem comparisons_truncate (P : platform) (n : nat) :
  (forall video_ids,
      compare_videos P video_ids n = compare_videos P (firstn 10 video_ids) n)
  /\ (forall channel_urls,
         compare_channels P channel_urls n
         = compare_channels P (firstn 5 channel_urls) n).
Proof.
  split; intros [|x l]; try reflexivity.
  - unfold compare_videos.
    change (firstn 10 (x :: l)) with (x :: firstn 9 l).
    change (x :: firstn 9 l) with (firstn 10 (x :: l)).
    rewrite firstn_firstn. reflexivity.
  - unfold compare_channels.
    change (firstn 5 (x :: l)) with (x :: firstn 4 l).
    change (x :: firstn 4 l) with (firstn 5 (x :: l)).
    rewrite firstn_firstn. reflexivity.
Qed.

Lemma winner_best {A} (id : A -> text) (key : A -> Q) (rows : list A) :
  rows <> [] -> best_by id key rows (_winner id rows key).
Proof.
  destruct rows as [|first rest]; [contradiction|]. intros _.
  exists (py_max_by key first rest). split; [apply py_max_by_in|].
  split; [reflexivity|]. intros v Hv. apply py_max_by_ge. exact Hv.
Qed.

(** X10.  Every winner of a comparison is the id of a compared row that no
    other row exceeds in the metric: in views, likes, comments and engagement
    rate for [compare_videos] when the lookup returned a video, in
    subscribers, total views and video count for [compare_channels]. *)
Theorem winners_are_best (P : platform) (n n1 : nat) :
  (forall video_ids res,
      compare_videos P video_ids n = Done (res, n1) ->
      vcmp_videos res <> [] ->
      best_by cv_video_id (fun v => inject_Z (cv_views v))
              (vcmp_videos res) (winner_by_views res)
      /\ best_by cv_video_id (fun v => inject_Z (cv_likes v))
                 (vcmp_videos res) (winner_by_likes res)
      /\ best_by cv_video_id (fun v => inject_Z (cv_comments v))
                 (vcmp_videos res) (winner_by_comments res)
      /\ best_by cv_video_id cv_engagement_rate_pct
                 (vcmp_videos res) (winner_by_engagement_rate res))
  /\ (forall channel_urls res,
         compare_channels P channel_urls n = Done (res, n1) ->
         best_by channel_id (fun c => inject_Z (subscriber_count c))
                 (channels res) (winner_by_subscribers res)
         /\ best_by channel_id (fun c => inject_Z (total_views c))
                    (channels res) (winner_by_total_views res)
         /\ best_by channel_id (fun c => inject_Z (total_videos c))
                    (channels res) (winner_by_video_count res)).
Proof.
  split.
  - intros ids res H Hne. unfold compare_videos in H.
    destruct ids as [|i ids]; [discriminate|].
    apply bind_done in H. destruct H as (data & n0 & _ & H).
    apply ret_done in H. destruct H as [<- _]. cbn in Hne |- *.
    repeat split; apply winner_best; exact Hne.
  - intros urls res H. unfold compare_channels in H.
    destruct urls as [|u urls]; [discriminate|].
    apply bind_done in H. destruct H as (cs & n0 & E & H).
    apply ret_done in H. destruct H as [<- _].
    apply for_each_done in E.
    assert (Hne : cs <> []) by (intros ->; inversion E).
    cbn. repeat split; apply winner_best; exact Hne.
Qed.

Lemma winners_are_best_witness :
  match compare_videos sample_platform [lit "v1"; lit "v2"] 0%nat with
  | Done (res, _) =>
      best_by cv_video_id (fun v => inject_Z (cv_views v))
              (vcmp_videos res) (winner_by_views res)
      /\ winner_by_views res = lit "v1"
  | _ => False
  end.
Proof.
  destruct (compare_videos sample_platform [lit "v1"; lit "v2"] 0%nat)
    as [[res n1]| |] eqn:E.
  - destruct (proj1 (winners_are_best sample_platform 0 n1) _ _ E) as [H _].
    + vm_compute in E. inversion E. discriminate.
    + split; [exact H|]. vm_compute in E. inversion E. reflexivity.
  - vm_compute in E. discriminate E.
  - vm_compute in E. discriminate E.
Defined.

(** ** How the tools fail *)

Lemma page_loop_raised {Item Page} cap
    (endpoint : Z -> option text -> nat -> option Page)
    (collect : Page -> list Item) next_of fuel limit acc tok n e :
  page_loop cap endpoint collect next_of fuel limit acc tok n = Raised e ->
  e = RequestFailed.
Proof.
  revert acc tok n. induction fuel as [|fuel IH]; intros acc tok n; simpl.
  - destruct (len acc <? limit); discriminate.
  - destruct (len acc <? limit); [|discriminate].
    unfold bind, _get. destruct (endpoint _ _ n) as [data|].
    + destruct (negb _ || _)%bool; [discriminate | apply IH].
    + intros H. inversion H. reflexivity.
Qed.

Lemma fetch_raised (P : platform) fuel url limit n e :
  _fetch_videos_for_channel P fuel url limit n = Raised e ->
  aggregator_error url e.
Proof.
  unfold _fetch_videos_for_channel, aggregator_error. intros H.
  apply bind_raised in H. destruct H as [H|(cid & n0 & _ & H)].
  { apply resolve_raised in H. tauto. }
  apply bind_raised in H. destruct H as [H|(up & n1 & _ & H)].
  { unfold _get_uploads_playlist_id in H.
    apply bind_raised in H. destruct H as [H|(items & n2 & _ & H)].
    - apply get_raised in H. tauto.
    - destruct items; [|discriminate]. inversion H.
      right. right. right. right. exists cid. reflexivity. }
  apply bind_raised in H. destruct H as [H|(ids & n2 & _ & H)].
  { unfold fetch_video_ids in H. apply page_loop_raised in H. tauto. }
  destruct ids as [|i ids]; [discriminate|].
  apply bind_raised in H. destruct H as [H|(parts & n3 & _ & H)];
    [|discriminate].
  apply for_each_raised in H. destruct H as (batch & m & _ & H).
  apply bind_raised in H. destruct H as [H|(data & n4 & _ & H)];
    [|discriminate].
  apply get_raised in H. tauto.
Qed.

(** X11.  [get_top_videos] raises its "metric must be one of" error exactly
    when the metric is none of [views], [likes], [comments] and
    [engagement_rate], and then whatever the collaborator would answer; the
    aggregator, which it calls otherwise, fails only as a refused or
    unsupported URL, a handle or channel that was not found, or a failed
    request. *)
Theorem top_videos_unknown_metric (P : platform) (fuel : nat)
    (channel_url metric : text) (limit : Z) (n : nat) :
  (get_top_videos P fuel channel_url metric limit n = Raised UnknownMetric
   <-> ~ In metric (map lit ["views"; "likes"; "comments"; "engagement_rate"]%string))
  /\ forall e,
       get_top_videos P fuel channel_url metric limit n = Raised e ->
       e = UnknownMetric \/ aggregator_error channel_url e.
Proof.
  assert (K : sort_key metric = None
              <-> ~ In metric (map lit ["views"; "likes"; "comments";
                                        "engagement_rate"]%string)).
  { unfold sort_key. cbn [map In].
    destruct (text_eqb metric (lit "views")) eqn:E1;
      [apply text_eqb_eq in E1; split; [discriminate | intros H; exfalso; apply H; subst metric; auto 10]|].
    destruct (text_eqb metric (lit "likes")) eqn:E2;
      [apply text_eqb_eq in E2; split; [discriminate | intros H; exfalso; apply H; subst metric; auto 10]|].
    destruct (text_eqb metric (lit "comments")) eqn:E3;
      [apply text_eqb_eq in E3; split; [discriminate | intros H; exfalso; apply H; subst metric; auto 10]|].
    destruct (text_eqb metric (lit "engagement_rate")) eqn:E4;
      [apply text_eqb_eq in E4; split; [discriminate | intros H; exfalso; apply H; subst metric; auto 10]|].
    split; [|reflexivity]. intros _ [H|[H|[H|[H|[]]]]]; symmetry in H;
      apply text_eqb_eq in H; congruence. }
  assert (R : forall e, get_top_videos P fuel channel_url metric limit n = Raised e ->
                        (sort_key metric = None /\ e = UnknownMetric)
                        \/ (sort_key metric <> None
                            /\ aggregator_error channel_url e)).
  { intros e H. unfold get_top_videos in H.
    destruct (sort_key metric) as [k|].
    - right. split; [discriminate|].
      apply bind_raised in H. destruct H as [H|(vs & n0 & _ & H)];
        [|discriminate].
      apply (fetch_raised _ _ _ _ _ H).
    - left. inversion H. split; reflexivity. }
  split.
  - rewrite <- K. split.
    + intros H. destruct (R _ H) as [[Hk _]|[_ He]]; [exact Hk|].
      exfalso. unfold aggregator_error in He.
      destruct He as [He|[He|[He|[[h He]|[c He]]]]]; discriminate He.
    + intros Hk. unfold get_top_videos. rewrite Hk. reflexivity.
  - intros e H. destruct (R _ H) as [[_ He]|[_ He]]; [left | right]; exact He.
Qed.

Lemma raised_not_no_videos url e :
  aggregator_error url e -> e <> NoVideosFound.
Proof.
  intros [H|[H|[H|[[h H]|[c H]]]]] E; rewrite E in H; discriminate H.
Qed.

(** X12.  [get_upload_schedule], [get_tag_analysis] and
    [get_engagement_stats] raise "No videos found for this channel" exactly
    when the aggregator returns an empty list.  Every other failure of
    [get_tag_analysis] and of [get_engagement_stats] is a failure of the
    aggregator.  [get_upload_schedule] fails in one more way, with the
    [TypeError] of [sorted], and it does so exactly when the videos fetched
    have both offset-aware and offset-naive timestamps among those that
    parse. *)
Theorem no_videos_found_iff_none (P : platform) (fuel : nat)
    (channel_url : text) (limit : Z) (n : nat) :
  ((get_upload_schedule P fuel channel_url limit n = Raised NoVideosFound
    <-> none_fetched P fuel channel_url limit n)
   /\ (get_tag_analysis P fuel channel_url limit n = Raised NoVideosFound
       <-> none_fetched P fuel channel_url limit n)
   /\ (get_engagement_stats P fuel channel_url limit n = Raised NoVideosFound
       <-> none_fetched P fuel channel_url limit n))
  /\ (forall e,
        get_tag_analysis P fuel channel_url limit n = Raised e
        \/ get_engagement_stats P fuel channel_url limit n = Raised e ->
        e = NoVideosFound \/ aggregator_error channel_url e)
  /\ (forall e,
        get_upload_schedule P fuel channel_url limit n = Raised e ->
        e = NoVideosFound \/ aggregator_error channel_url e
        \/ e = MixedTimestamps)
  /\ (get_upload_schedule P fuel channel_url limit n = Raised MixedTimestamps
      <-> mixed_fetched P fuel channel_url limit n).
Proof.
  unfold none_fetched, mixed_fetched.
  assert (K : forall A (k : list video -> M A) (other : exn -> Prop),
             (forall v vs m, k (v :: vs) m <> Raised NoVideosFound) ->
             (forall v vs m e, k (v :: vs) m = Raised e -> other e) ->
             k [] = raise NoVideosFound ->
             (bind (_fetch_videos_for_channel P fuel channel_url limit) k n
              = Raised NoVideosFound
              <-> exists n1, _fetch_videos_for_channel P fuel channel_url limit n
                             = Done ([], n1))
             /\ forall e,
                 bind (_fetch_videos_for_channel P fuel channel_url limit) k n
                 = Raised e ->
                 e = NoVideosFound \/ aggregator_error channel_url e \/ other e).
  { intros A k other Hk Ho H0. split; [split|].
    - intros H. apply bind_raised in H. destruct H as [H|(vs & n1 & E & H)].
      + apply fetch_raised in H. apply raised_not_no_videos in H.
        contradiction.
      + destruct vs as [|v vs]; [exists n1; exact E|].
        exfalso. exact (Hk _ _ _ H).
    - intros [n1 E]. rewrite (bind_step _ _ _ E), H0. reflexivity.
    - intros e H. apply bind_raised in H. destruct H as [H|(vs & n1 & E & H)].
      + right. left. apply (fetch_raised _ _ _ _ _ H).
      + destruct vs as [|v vs]; [|right; right; exact (Ho _ _ _ _ H)].
        rewrite H0 in H. inversion H. left. reflexivity. }
  assert (S : forall v vs m e,
             match schedule_of P (v :: vs) with
             | Some schedule => ret schedule
             | None => raise MixedTimestamps
             end m = Raised e -> e = MixedTimestamps).
  { intros v vs m e H. destruct (schedule_of P (v :: vs)); [discriminate H|].
    inversion H. reflexivity. }
  destruct (K _ (fun videos => match videos with
                               | [] => raise NoVideosFound
                               | _ =>
                                   match schedule_of P videos with
                                   | Some schedule => ret schedule
                                   | None => raise MixedTimestamps
                                   end
                               end)
              (fun e => e = MixedTimestamps)
              (fun v vs m H => ltac:(apply S in H; discriminate H)) S eq_refl)
    as [S1 S2].
  destruct (K _ (fun videos => match videos with
                               | [] => raise NoVideosFound
                               | _ => ret (tag_analysis_of videos)
                               end)
              (fun _ => False)
              (fun v vs m H => ltac:(discriminate H))
              (fun v vs m e H => ltac:(discriminate H)) eq_refl) as [T1 T2].
  destruct (K _ (fun videos => match videos with
                               | [] => raise NoVideosFound
                               | v :: rest =>
                                   ret (stats_of (float_sum P) (enrich v)
                                                 (map enrich rest))
                               end)
              (fun _ => False)
              (fun v vs m H => ltac:(discriminate H))
              (fun v vs m e H => ltac:(discriminate H)) eq_refl) as [E1 E2].
  split; [split; [exact S1 | split; [exact T1 | exact E1]]|].
  split.
  { intros e [H|H]; [destruct (T2 e H) as [G|[G|[]]]
                    | destruct (E2 e H) as [G|[G|[]]]]; tauto. }
  split; [exact S2|].
  split.
  - intros H. unfold get_upload_schedule in H.
    apply bind_raised in H. destruct H as [H|(vs & n1 & E & H)].
    + apply fetch_raised in H.
      destruct H as [H|[H|[H|[[h H]|[c H]]]]]; discriminate H.
    + destruct vs as [|v vs]; [discriminate H|].
      exists (v :: vs), n1. split; [exact E|]. split; [discriminate|].
      pose proof (schedule_of_some P (v :: vs)) as G.
      destruct (schedule_of P (v :: vs)); [discriminate H|].
      destruct (same_kind (parsed_timestamps P (v :: vs))); [|reflexivity].
      exfalso. apply (proj2 G); reflexivity.
  - intros (videos & n1 & E & Hv & Hk).
    rewrite (@schedule_returned P fuel channel_url limit n n1 videos E Hv).
    pose proof (schedule_of_some P videos) as G.
    destruct (schedule_of P videos); [|reflexivity].
    rewrite Hk in G. assert (C : false = true) by (apply (proj1 G); discriminate).
    discriminate C.
Qed.

(** ** Rounding within bounds *)

Lemma round_half_even_between (x : Q) (a b : Z) :
  (inject_Z a <= x <= inject_Z b)%Q -> a <= round_half_even x <= b.
Proof.
  intros [Ha Hb].
  pose proof (Qfloor_le x) as Hlo.
  pose proof (Qlt_floor x) as Hhi.
  rewrite inject_Z_plus in Hhi. change (inject_Z 1) with 1%Q in Hhi.
  assert (Fa : a <= Qfloor x).
  { assert (inject_Z a < inject_Z (Qfloor x + 1))%Q as C
        by (rewrite inject_Z_plus; change (inject_Z 1) with 1%Q; lra).
    rewrite <- Zlt_Qlt in C. lia. }
  assert (Fb : Qfloor x <= b).
  { assert (inject_Z (Qfloor x) <= inject_Z b)%Q as C by lra.
    rewrite <- Zle_Qle in C. exact C. }
  unfold round_half_even.
  destruct (Z.eq_dec (Qfloor x) b) as [E|E].
  - assert (X : (x - inject_Z (Qfloor x) <= 0)%Q) by (rewrite E; lra).
    destruct (Qcompare_spec (x - inject_Z (Qfloor x)) (1 # 2)) as [C|C|C];
      try lra. lia.
  - destruct (Qcompare_spec (x - inject_Z (Qfloor x)) (1 # 2));
      [destruct (Z.even (Qfloor x))| |]; lia.
Qed.

(** ** The SEO score, continued *)

Lemma title_length_check_ok (title : text) :
  let c := title_length_check title in
  30 <= score c <= 100 /\ status c = status_of_score (score c).
Proof.
  unfold title_length_check.
  destruct (_ && _)%bool; [split; [cbn; lia | reflexivity]|].
  destruct (_ && _)%bool; [split; [cbn; lia | reflexivity]|].
  destruct (_ <? _); split; cbn; try lia; reflexivity.
Qed.

Lemma description_length_check_ok (description : text) :
  let c := description_length_check description in
  10 <= score c <= 100 /\ status c = status_of_score (score c).
Proof.
  unfold description_length_check.
  destruct (_ <=? _); [split; [cbn; lia | reflexivity]|].
  destruct (_ <=? _); [split; [cbn; lia | reflexivity]|].
  destruct (_ <=? _); split; cbn; try lia; reflexivity.
Qed.

Lemma tag_count_check_ok (tags : list text) :
  let c := tag_count_check tags in
  0 <= score c <= 100 /\ status c = status_of_score (score c).
Proof.
  unfold tag_count_check.
  destruct (_ && _)%bool; [split; [cbn; lia | reflexivity]|].
  destruct (_ <? _); [split; [cbn; lia | reflexivity]|].
  destruct (_ && _)%bool; split; cbn; try lia; reflexivity.
Qed.

Lemma thumbnail_check_ok (thumbnail : text) :
  let c := thumbnail_check thumbnail in
  0 <= score c <= 100 /\ status c = status_of_score (score c).
Proof.
  destruct thumbnail; split; cbn; try lia; reflexivity.
Qed.

Lemma description_quality_check_ok (description : text) :
  let c := description_quality_check description in
  60 <= score c <= 100 /\ status c = status_of_score (score c).
Proof.
  unfold description_quality_check.
  destruct (contains _ _); destruct (has_chapters _); split; cbn; try lia;
    reflexivity.
Qed.

(** X13.  In a score that [get_video_seo_score] returns, every check has a
    score from 0 to 100 and the status that goes with it (great for 100, good
    for 80, ok from 50 to 70, poor below), and the overall score lies
    between 20 and 100. *)
Theorem seo_scores_in_range (P : platform) (video_id : text) (n n1 : nat)
    (r : seo_score) :
  get_video_seo_score P video_id n = Done (r, n1) ->
  Forall (fun c => 0 <= score (snd c) <= 100
                   /\ status (snd c) = status_of_score (score (snd c)))
         (checks r)
  /\ 20 <= overall_score r <= 100.
Proof.
  intros H. unfold get_video_seo_score in H.
  apply bind_done in H. destruct H as (items & n0 & _ & H).
  destruct items as [|item others]; [discriminate|].
  apply ret_done in H. destruct H as [<- _].
  pose proof (title_length_check_ok (vi_title item)) as [T1 T2].
  pose proof (description_length_check_ok (vi_description item)) as [D1 D2].
  pose proof (tag_count_check_ok (vi_tags item)) as [G1 G2].
  pose proof (thumbnail_check_ok (_thumbnail_url (vi_thumbnails item))) as [U1 U2].
  pose proof (description_quality_check_ok (vi_description item)) as [Q1 Q2].
  split.
  - cbn [checks seo_of].
    repeat (apply Forall_cons; [cbn [snd]; split; [lia | assumption]|]).
    apply Forall_nil.
  - rewrite seo_mean_whole. apply round_half_even_between.
    cbn [checks seo_of map snd sumZ fold_left].
    set (s := _ + score (description_quality_check _)).
    assert (S : 100 <= s <= 500) by (subst s; lia).
    destruct S as [S1 S2]. rewrite Zle_Qle in S1, S2.
    change (inject_Z 100) with (100 # 1)%Q in *.
    change (inject_Z 500) with (500 # 1)%Q in *.
    change (inject_Z 20) with (20 # 1)%Q.
    change (inject_Z 5) with (5 # 1)%Q.
    revert S1 S2. generalize (inject_Z s). intros q S1 S2.
    split.
    + apply Qle_shift_div_l; lra.
    + apply Qle_shift_div_r; lra.
Qed.

Lemma seo_scores_in_range_witness :
  match get_video_seo_score sample_platform (lit "v5") 0%nat with
  | Done (r, _) =>
      Forall (fun c => 0 <= score (snd c) <= 100
                       /\ status (snd c) = status_of_score (score (snd c)))
             (checks r)
      /\ 20 <= overall_score r <= 100
  | _ => False
  end.
Proof.
  destruct (get_video_seo_score sample_platform (lit "v5") 0%nat)
    as [[r n1]| |] eqn:E.
  - exact (@seo_scores_in_range sample_platform (lit "v5") 0%nat n1 r E).
  - vm_compute in E. discriminate E.
  - vm_compute in E. discriminate E.
Defined.

(** ** Engagement statistics, continued *)

Lemma rate_nonneg (a views : Z) (d : nat) :
  0 <= a ->
  (0 <= _safe_float (if 0 <? views
                     then fmul (true_div a views) 100 else 0%Q) d)%Q.
Proof.
  intros Ha. unfold _safe_float. apply py_round_nonneg.
  destruct (Z.ltb_spec 0 views) as [Hv|Hv]; [|apply Qle_refl].
  assert (Hq : (0 < inject_Z views)%Q)
    by (change 0%Q with (inject_Z 0); rewrite <- Zlt_Qlt; exact Hv).
  assert (Hn : (0 <= inject_Z a)%Q)
    by (change 0%Q with (inject_Z 0); rewrite <- Zle_Qle; exact Ha).
  unfold fmul, true_div. apply fl_nonneg.
  apply Qmult_le_0_compat; [|discriminate]. apply fl_nonneg.
  apply Qle_shift_div_l; [exact Hq|]. rewrite Qmult_0_l. exact Hn.
Qed.

(** X14.  What [get_engagement_stats] returns lists one entry for each video
    the aggregator returned, in the same order and without a further request,
    and counts them; its top engaging video is one of the entries, and no
    entry has a greater engagement rate; an entry whose likes and comments
    are not negative has no negative rate. *)
Theorem engagement_stats_top (P : platform) (fuel : nat) (channel_url : text)
    (limit : Z) (n n1 : nat) (res : engagement_stats) :
  get_engagement_stats P fuel channel_url limit n = Done (res, n1) ->
  (exists videos,
      _fetch_videos_for_channel P fuel channel_url limit n = Done (videos, n1)
      /\ map ev_video_id (es_videos res) = map video_id videos
      /\ map ev_views (es_videos res) = map views videos)
  /\ es_total_videos_analyzed res = len (es_videos res)
  /\ (exists top,
         In top (es_videos res)
         /\ te_video_id (top_engaging_video res) = ev_video_id top
         /\ te_title (top_engaging_video res) = ev_title top
         /\ te_engagement_rate_pct (top_engaging_video res)
            = ev_engagement_rate_pct top
         /\ forall e, In e (es_videos res) ->
                      (ev_engagement_rate_pct e <= ev_engagement_rate_pct top)%Q)
  /\ Forall (fun e => 0 <= ev_likes e -> 0 <= ev_comments e ->
                      (0 <= like_rate_pct e)%Q /\ (0 <= comment_rate_pct e)%Q
                      /\ (0 <= ev_engagement_rate_pct e)%Q)
            (es_videos res).
Proof.
  intros H. unfold get_engagement_stats in H.
  apply bind_done in H. destruct H as (videos & n0 & E & H).
  destruct videos as [|v rest]; [discriminate|].
  apply ret_done in H. destruct H as [<- <-].
  cbn [es_videos es_total_videos_analyzed top_engaging_video stats_of
       te_video_id te_title te_engagement_rate_pct].
  change (enrich v :: map enrich rest) with (map enrich (v :: rest)).
  split; [|split; [reflexivity | split]].
  - exists (v :: rest). split; [exact E|].
    rewrite !map_map. split; reflexivity.
  - exists (py_max_by ev_engagement_rate_pct (enrich v) (map enrich rest)).
    split; [apply py_max_by_in|]. repeat split.
    intros e He. apply py_max_by_ge. exact He.
  - apply Forall_forall. intros e He. apply in_map_iff in He.
    destruct He as (v0 & <- & _). unfold enrich.
    cbn [like_rate_pct comment_rate_pct ev_engagement_rate_pct ev_likes
         ev_comments]. intros Hl Hc.
    split; [apply rate_nonneg; exact Hl|].
    split; [apply rate_nonneg; exact Hc|].
    apply rate_nonneg. lia.
Qed.

Lemma engagement_stats_top_witness :
  match get_engagement_stats sample_platform 5 (lit "https://www.youtube.com/@sample") 10 0%nat with
  | Done (res, _) =>
      es_total_videos_analyzed res = len (es_videos res)
      /\ te_video_id (top_engaging_video res) = lit "v1"
  | _ => False
  end.
Proof.
  destruct (get_engagement_stats sample_platform 5
              (lit "https://www.youtube.com/@sample") 10 0%nat)
    as [[res n1]| |] eqn:E.
  - destruct (@engagement_stats_top sample_platform 5 _ 10 0%nat n1 res E)
      as (_ & T & _).
    split; [exact T|]. vm_compute in E. inversion E. reflexivity.
  - vm_compute in E. discriminate E.
  - vm_compute in E. discriminate E.
Defined.

(** ** The upload schedule, continued *)

Lemma sumZ_acc (l : list Z) (a : Z) : fold_left Z.add l a = a + sumZ l.
Proof.
  unfold sumZ. revert a. induction l as [|x l IH]; intros a; cbn [fold_left].
  - lia.
  - rewrite (IH (a + x)), (IH (0 + x)). lia.
Qed.

Lemma sumZ_cons (x : Z) (l : list Z) : sumZ (x :: l) = x + sumZ l.
Proof. unfold sumZ at 1. cbn [fold_left]. rewrite sumZ_acc. lia. Qed.

Lemma sumZ_perm (l l' : list Z) : Permutation l l' -> sumZ l = sumZ l'.
Proof.
  induction 1 as [|x l l' _ IH|x y l|l l' l'' _ IH1 _ IH2];
    rewrite ?sumZ_cons; lia.
Qed.

Lemma sumZ_nonneg (l : list Z) : Forall (fun g => 0 <= g) l -> 0 <= sumZ l.
Proof.
  induction 1 as [|x l Hx _ IH]; [unfold sumZ; simpl; lia|].
  rewrite sumZ_cons. lia.
Qed.

Lemma bump_sum (k : text) (c : counter) :
  sumZ (map snd (bump k c)) = sumZ (map snd c) + 1.
Proof.
  induction c as [|[k' m] r IH]; cbn [bump map snd].
  - reflexivity.
  - destruct (text_eqb k k'); cbn [map snd]; rewrite !sumZ_cons; [lia|].
    rewrite IH. lia.
Qed.

Lemma bump_positive (k : text) (c : counter) :
  Forall (fun kv => 1 <= snd kv) c -> Forall (fun kv => 1 <= snd kv) (bump k c).
Proof.
  induction 1 as [|[k' m] r Hm Hr IH]; cbn [bump].
  - constructor; [cbn; lia | constructor].
  - destruct (text_eqb k k'); constructor; cbn [snd] in *; try lia; assumption.
Qed.

Lemma two_digits_not_empty (hour : nat) : two_digits hour <> [].
Proof.
  unfold two_digits. destruct (Nat.ltb hour 10); [discriminate|].
  exact (proj1 (proj2 (decimal_spec hour))).
Qed.

Lemma bump_not_empty_keys (k : text) (c : counter) :
  k <> [] -> Forall (fun kv => fst kv <> []) c ->
  Forall (fun kv => fst kv <> []) (bump k c).
Proof.
  intros Hk. induction 1 as [|[k' m] r Hm Hr IH]; cbn [bump].
  - constructor; [exact Hk | constructor].
  - destruct (text_eqb k k'); constructor; assumption.
Qed.

Lemma tally_counted (P : platform) (videos : list video) (t : tally) (k : Z) :
  counted (by_day t) k -> counted (by_hour t) k ->
  counted (by_day (fold_left (tally_video P) videos t))
          (k + len (parsed_timestamps P videos))
  /\ counted (by_hour (fold_left (tally_video P) videos t))
             (k + len (parsed_timestamps P videos)).
Proof.
  revert t k. induction videos as [|v r IH]; intros t k Hd Hh.
  - cbn. unfold len. cbn. rewrite Z.add_0_r. split; assumption.
  - cbn [fold_left parsed_timestamps flat_map].
    fold (parsed_timestamps P r). rewrite len_app.
    unfold tally_video at 2 4.
    destruct (fromisoformat P (utc_offset (published_at v))) as [dt|].
    + replace (k + (len [dt] + len (parsed_timestamps P r)))
        with ((k + 1) + len (parsed_timestamps P r))
        by (unfold len; cbn [List.length]; lia).
      destruct Hd as (D1 & D2 & D3). destruct Hh as (H1 & H2 & H3).
      apply IH; cbn [by_day by_hour]; repeat split.
      * rewrite bump_sum, D1. reflexivity.
      * apply bump_positive. exact D2.
      * apply bump_not_empty_keys; [|exact D3]. destruct (dt_weekday dt); discriminate.
      * rewrite bump_sum, H1. reflexivity.
      * apply bump_positive. exact H2.
      * apply bump_not_empty_keys; [apply two_digits_not_empty | exact H3].
    + replace (k + (len (@nil datetime) + len (parsed_timestamps P r)))
        with (k + len (parsed_timestamps P r)) by (unfold len; cbn; lia).
      apply IH; assumption.
Qed.

Lemma most_common_key_best (c : counter) :
  c <> [] ->
  exists m, In (most_common_key c, m) c /\ forall kv, In kv c -> snd kv <= m.
Proof.
  destruct c as [|first rest]; [contradiction|]. intros _.
  unfold most_common_key.
  set (key := fun kv : text * Z => inject_Z (snd kv)).
  exists (snd (py_max_by key first rest)). split.
  - rewrite <- surjective_pairing. apply py_max_by_in.
  - intros kv Hkv. pose proof (@py_max_by_ge _ key first rest kv Hkv) as G.
    unfold key in G. rewrite <- Zle_Qle in G. exact G.
Qed.

Lemma counted_sorted before (c : counter) (k : Z) :
  counted c k -> counted (sorted before c) k.
Proof.
  intros (C1 & C2 & C3).
  pose proof (sorted_perm before c) as Hp. repeat split.
  - rewrite <- C1. apply sumZ_perm, Permutation_map. exact Hp.
  - apply (Permutation_Forall (Permutation_sym Hp) C2).
  - apply (Permutation_Forall (Permutation_sym Hp) C3).
Qed.

(** X15.  In a schedule that [get_upload_schedule] returns,
    [total_videos_analyzed] counts every video the aggregator returned, while
    the counts of [posts_by_day] and those of [posts_by_hour] each add up to
    the number of videos whose publish timestamp parsed, every listed count
    being at least 1.  When no timestamp parsed both tables and both best
    entries are empty; otherwise [best_posting_day] is a day of
    [posts_by_day] and no day has a greater count, and [best_posting_hour] is
    an hour of [posts_by_hour] followed by ":00 UTC", and no hour has a
    greater count. *)
Theorem schedule_counts (P : platform) (fuel : nat) (channel_url : text)
    (limit : Z) (n n1 : nat) (r : upload_schedule) :
  get_upload_schedule P fuel channel_url limit n = Done (r, n1) ->
  exists videos,
    _fetch_videos_for_channel P fuel channel_url limit n = Done (videos, n1)
    /\ total_videos_analyzed r = len videos
    /\ sumZ (map snd (posts_by_day r)) = len (parsed_timestamps P videos)
    /\ sumZ (map snd (posts_by_hour r)) = len (parsed_timestamps P videos)
    /\ Forall (fun kv => 1 <= snd kv) (posts_by_day r ++ posts_by_hour r)
    /\ (parsed_timestamps P videos = [] ->
        posts_by_day r = [] /\ posts_by_hour r = []
        /\ best_posting_day r = [] /\ best_posting_hour r = [])
    /\ (parsed_timestamps P videos <> [] ->
        (exists m, In (best_posting_day r, m) (posts_by_day r)
                   /\ forall kv, In kv (posts_by_day r) -> snd kv <= m)
        /\ (exists hour m,
               best_posting_hour r = hour ++ lit ":00 UTC"
               /\ In (hour, m) (posts_by_hour r)
               /\ forall kv, In kv (posts_by_hour r) -> snd kv <= m)).
Proof.
  intros H. apply schedule_done in H. destruct H as (videos & E & _ & Hs).
  exists videos. split; [exact E|].
  assert (C0 : counted [] 0).
  { repeat split; constructor. }
  destruct (tally_counted P videos
              {| by_day := []; by_hour := []; timestamps := [] |} C0 C0)
    as [Cd Ch].
  rewrite Z.add_0_l in Cd, Ch.
  unfold schedule_of in Hs.
  set (t := fold_left (tally_video P) videos
              {| by_day := []; by_hour := []; timestamps := [] |}) in *.
  destruct (gap_scores P (timestamps t)) as [[avg_days consistency_score]|];
    [|discriminate].
  inversion Hs; subst r; clear Hs.
  cbn [total_videos_analyzed posts_by_day posts_by_hour best_posting_day
       best_posting_hour].
  set (by_index := fun a b : text * Z =>
                     Nat.ltb (index_of (fst a) day_names)
                             (index_of (fst b) day_names)).
  set (by_text := fun a b : text * Z => text_ltb (fst a) (fst b)).
  pose proof (counted_sorted by_index Cd) as (Sd1 & Sd2 & Sd3).
  pose proof (counted_sorted by_text Ch) as (Sh1 & Sh2 & Sh3).
  split; [reflexivity|].
  split; [exact Sd1|]. split; [exact Sh1|].
  split; [apply Forall_app; split; assumption|].
  split.
  - intros E0. rewrite E0 in Cd, Ch.
    assert (Z0 : forall c, counted c (len (@nil datetime)) -> c = []).
    { intros [|[k m] c] (A1 & A2 & _); [reflexivity|]. exfalso.
      cbn [map snd] in A1. rewrite sumZ_cons in A1.
      inversion A2 as [|? ? Hm Hc]; subst. cbn [snd] in Hm.
      assert (0 <= sumZ (map snd c)).
      { apply sumZ_nonneg. apply Forall_forall. intros g Hg.
        apply in_map_iff in Hg. destruct Hg as (kv & <- & Hkv).
        rewrite Forall_forall in Hc. specialize (Hc _ Hkv). lia. }
      unfold len in A1. cbn in A1. lia. }
    rewrite (Z0 _ Cd), (Z0 _ Ch). repeat split; reflexivity.
  - intros Hne.
    assert (N0 : forall c, counted c (len (parsed_timestamps P videos)) -> c <> []).
    { intros c (A1 & _) ->. apply Hne.
      destruct (parsed_timestamps P videos); [reflexivity|].
      unfold sumZ, len in A1. cbn in A1. lia. }
    split.
    + destruct (most_common_key_best (N0 _ Cd)) as (m & Hin & Hmax).
      exists m. split.
      * apply (Permutation_in _ (Permutation_sym (sorted_perm by_index (by_day t)))).
        exact Hin.
      * intros kv Hkv. apply Hmax.
        apply (Permutation_in _ (sorted_perm by_index (by_day t))). exact Hkv.
    + destruct (most_common_key_best (N0 _ Ch)) as (m & Hin & Hmax).
      exists (most_common_key (by_hour t)), m. split; [|split].
      * destruct Ch as (_ & _ & K). rewrite Forall_forall in K.
        specialize (K _ Hin). cbn [fst] in K.
        destruct (most_common_key (by_hour t)); [contradiction | reflexivity].
      * apply (Permutation_in _ (Permutation_sym (sorted_perm by_text (by_hour t)))).
        exact Hin.
      * intros kv Hkv. apply Hmax.
        apply (Permutation_in _ (sorted_perm by_text (by_hour t))). exact Hkv.
Qed.

Lemma schedule_counts_witness :
  match get_upload_schedule sample_platform 5
          (lit "https://www.youtube.com/@sample") 10 0%nat with
  | Done (r, _) =>
      sumZ (map snd (posts_by_day r)) = sumZ (map snd (posts_by_hour r))
      /\ total_videos_analyzed r = 3
  | _ => False
  end.
Proof.
  destruct (get_upload_schedule sample_platform 5
              (lit "https://www.youtube.com/@sample") 10 0%nat)
    as [[r n1]| |] eqn:E.
  - destruct (@schedule_counts sample_platform 5 _ 10 0%nat n1 r E)
      as (videos & _ & _ & D & H & _).
    split; [rewrite D, H; reflexivity|].
    vm_compute in E. inversion E. reflexivity.
  - vm_compute in E. discriminate E.
  - vm_compute in E. discriminate E.
Defined.

Lemma gaps_nonneg (ts : list datetime) :
  StronglySorted (fun a b => (inject_Z (dt_micros a) <= inject_Z (dt_micros b))%Q) ts ->
  Forall (fun g => 0 <= g) (gaps_of ts).
Proof.
  induction 1 as [|a r Hr IH Ha]; [constructor|].
  destruct r as [|b r]; [constructor|].
  cbn [gaps_of]. constructor; [|exact IH].
  inversion Ha as [|? ? Hab _]; subst. rewrite <- Zle_Qle in Hab.
  unfold days_between. apply Z.div_pos; lia.
Qed.

Lemma Qdiv_nonneg (a b : Q) : (0 <= a)%Q -> (0 <= b)%Q -> (0 <= a / b)%Q.
Proof.
  intros Ha Hb. unfold Qdiv. apply Qmult_le_0_compat; [exact Ha|].
  apply Qinv_le_0_compat. exact Hb.
Qed.

Lemma py_max_ge_l (a b : Q) : (a <= py_max a b)%Q.
Proof.
  unfold py_max. destruct (Qlt_bool a b) eqn:E; [|apply Qle_refl].
  apply Qlt_bool_iff in E. apply Qlt_le_weak. exact E.
Qed.

Lemma py_max_ge_r (a b : Q) : (b <= py_max a b)%Q.
Proof.
  unfold py_max. destruct (Qlt_bool a b) eqn:E; [apply Qle_refl|].
  apply Qlt_bool_false in E. exact E.
Qed.

Lemma py_max_le (a b c : Q) : (a <= c)%Q -> (b <= c)%Q -> (py_max a b <= c)%Q.
Proof. intros Ha Hb. unfold py_max. destruct (Qlt_bool a b); assumption. Qed.

Lemma true_div_nonneg (a b : Z) : 0 <= a -> 0 <= b -> (0 <= true_div a b)%Q.
Proof.
  intros Ha Hb. unfold true_div. apply fl_nonneg, Qdiv_nonneg;
    change 0%Q with (inject_Z 0); rewrite <- Zle_Qle; assumption.
Qed.

Lemma gap_scores_ranges (P : platform) (ts : list datetime) (a c : Q) :
  gap_scores P ts = Some (a, c) ->
  (0 <= a)%Q /\ (0 <= c)%Q
  /\ ((forall data, 0 <= stdev P data)%Q -> (c <= 100)%Q).
Proof.
  unfold gap_scores, sorted_timestamps. intros H.
  destruct (Nat.ltb 1 (List.length ts));
    [|inversion H; repeat split; discriminate].
  destruct (same_kind ts); [|discriminate H].
  pose proof (gaps_nonneg
                (sorted_ascending (fun d => inject_Z (dt_micros d)) ts)) as G.
  set (gaps := gaps_of _) in *.
  assert (A : (0 <= _safe_float (true_div (sumZ gaps) (len gaps)) 1)%Q).
  { apply py_round_nonneg, true_div_nonneg;
      [apply sumZ_nonneg, G | apply len_nonneg]. }
  destruct gaps as [|g gs] eqn:Eg.
  { inversion H; subst a c. split; [exact A|].
    split; [discriminate | intros _; discriminate]. }
  rewrite <- Eg in *.
  destruct (statistics_stdev P gaps) as [std|] eqn:Es.
  2: { inversion H; subst a c. split; [exact A|].
       split; [discriminate | intros _; discriminate]. }
  inversion H; subst a c. clear H.
  split; [exact A|]. split.
  - apply py_round_nonneg, py_max_ge_l.
  - intros Hstd. unfold _safe_float.
    apply (@py_round_le _ 1 100); [change (2 ^ 52) with 4503599627370496; lia|].
    apply py_max_le; [discriminate|].
    assert (Hs : (0 <= std)%Q).
    { unfold statistics_stdev in Es.
      destruct (Nat.ltb (List.length gaps) 2); [discriminate|].
      inversion Es. apply Hstd. }
    set (mean := true_div (sumZ gaps) (len gaps)).
    assert (Hm : (0 <= py_max mean 1)%Q).
    { apply Qle_trans with 1%Q; [discriminate | apply py_max_ge_r]. }
    assert (Hd : (0 <= fmul (fdiv std (py_max mean 1)) 50)%Q).
    { unfold fmul, fdiv. apply fl_nonneg.
      apply Qmult_le_0_compat; [|discriminate].
      apply fl_nonneg, Qdiv_nonneg; assumption. }
    unfold fsub. apply (@fl_le_int _ 100);
      [change (2 ^ 52) with 4503599627370496; lia|].
    change (inject_Z 100) with 100%Q.
    revert Hd. generalize (fmul (fdiv std (py_max mean 1)) 50). intros q Hd. lra.
Qed.

(** X16.  In a schedule that [get_upload_schedule] returns,
    [avg_days_between_uploads] and [consistency_score_pct] are never
    negative, and the consistency score is at most 100 when the standard
    deviation the statistics library computes is never negative. *)
Theorem schedule_ranges (P : platform) (fuel : nat) (channel_url : text)
    (limit : Z) (n n1 : nat) (r : upload_schedule) :
  get_upload_schedule P fuel channel_url limit n = Done (r, n1) ->
  (0 <= avg_days_between_uploads r)%Q
  /\ (0 <= consistency_score_pct r)%Q
  /\ ((forall data, 0 <= stdev P data)%Q -> (consistency_score_pct r <= 100)%Q).
Proof.
  intros H. apply schedule_done in H. destruct H as (videos & _ & _ & Hs).
  unfold schedule_of in Hs.
  destruct (gap_scores P _) as [[a c]|] eqn:G; [|discriminate].
  inversion Hs; subst r; clear Hs.
  cbn [avg_days_between_uploads consistency_score_pct].
  apply (gap_scores_ranges _ _ G).
Qed.

Lemma schedule_ranges_witness :
  match get_upload_schedule sample_platform 5
          (lit "https://www.youtube.com/@sample") 10 0%nat with
  | Done (r, _) =>
      (0 <= avg_days_between_uploads r)%Q
      /\ (0 <= consistency_score_pct r <= 100)%Q
  | _ => False
  end.
Proof.
  destruct (get_upload_schedule sample_platform 5
              (lit "https://www.youtube.com/@sample") 10 0%nat)
    as [[r n1]| |] eqn:E.
  - destruct (@schedule_ranges sample_platform 5 _ 10 0%nat n1 r E)
      as (A & B & C).
    split; [exact A|]. split; [exact B|]. apply C. intros data. discriminate.
  - vm_compute in E. discriminate E.
  - vm_compute in E. discriminate E.
Defined.

(** ** The tag analysis *)

Lemma views_of_append (k k' : text) (v : Z) (d : tag_table) :
  views_of k (append_to k' v d)
  = views_of k d ++ (if text_eqb k' k then [v] else []).
Proof.
  induction d as [|[k0 l] r IH]; cbn [append_to views_of].
  - destruct (text_eqb k k') eqn:E.
    + apply text_eqb_eq in E. subst k'. rewrite text_eqb_refl. reflexivity.
    + destruct (text_eqb k' k) eqn:E'; [|reflexivity].
      apply text_eqb_eq in E'. subst k'. rewrite text_eqb_refl in E.
      discriminate E.
  - destruct (text_eqb k' k0) eqn:E0; cbn [views_of].
    + apply text_eqb_eq in E0. subst k0.
      destruct (text_eqb k k') eqn:E.
      * apply text_eqb_eq in E. subst k'. rewrite text_eqb_refl. reflexivity.
      * destruct (text_eqb k' k) eqn:E'; [|rewrite app_nil_r; reflexivity].
        apply text_eqb_eq in E'. subst k'. rewrite text_eqb_refl in E.
        discriminate E.
    + destruct (text_eqb k k0) eqn:E; [|exact IH].
      apply text_eqb_eq in E. subst k0.
      destruct (text_eqb k' k) eqn:E'; [|rewrite app_nil_r; reflexivity].
      congruence.
Qed.

Lemma append_to_keys (k : text) (v : Z) (d : tag_table) :
  forall x, In x (map fst (append_to k v d)) <-> x = k \/ In x (map fst d).
Proof.
  induction d as [|[k' l] r IH]; cbn [append_to map fst In]; intros x.
  - split; [intros [H|[]]; left; symmetry; exact H | intros [H|[]]; left; symmetry; exact H].
  - destruct (text_eqb k k') eqn:E; cbn [map fst In].
    + apply text_eqb_eq in E. subst k'. split; [tauto|].
      intros [H|H]; [left; symmetry; exact H | exact H].
    + rewrite IH. tauto.
Qed.

(** What the loops of [get_tag_analysis] keep of the table: no key twice, no
    empty key, no empty list. *)
Lemma append_to_table (k : text) (v : Z) (d : tag_table) :
  k <> [] ->
  NoDup (map fst d) /\ Forall (fun e => fst e <> [] /\ snd e <> []) d ->
  NoDup (map fst (append_to k v d))
  /\ Forall (fun e => fst e <> [] /\ snd e <> []) (append_to k v d).
Proof.
  intros Hk. induction d as [|[k' l] r IH]; cbn [append_to]; intros [Hn Hf].
  - split; [constructor; [intros [] | constructor]|].
    constructor; [split; [exact Hk | discriminate] | constructor].
  - inversion Hn as [|? ? Hin Hr]; subst.
    inversion Hf as [|? ? [H1 H2] Hfr]; subst. cbn [fst snd] in *.
    destruct (text_eqb k k') eqn:E.
    + split; [exact Hn|]. constructor; [|exact Hfr]. cbn [fst snd].
      split; [exact H1|]. intros C. apply app_eq_nil in C. destruct C as [_ C].
      discriminate C.
    + destruct (IH (conj Hr Hfr)) as [In' If']. split.
      * cbn [map fst]. constructor; [|exact In'].
        intros C. apply append_to_keys in C. destruct C as [C|C].
        -- subst k'. rewrite text_eqb_refl in E. discriminate E.
        -- contradiction.
      * constructor; [split; assumption | exact If'].
Qed.

Lemma views_of_in (k : text) (l : list Z) (d : tag_table) :
  NoDup (map fst d) -> In (k, l) d -> views_of k d = l.
Proof.
  induction d as [|[k' l'] r IH]; cbn [map fst views_of]; intros Hn Hin.
  - destruct Hin.
  - inversion Hn as [|? ? Hni Hr]; subst.
    destruct Hin as [Hin|Hin].
    + inversion Hin; subst. rewrite text_eqb_refl. reflexivity.
    + destruct (text_eqb k k') eqn:E.
      * apply text_eqb_eq in E. subst k'. exfalso. apply Hni.
        apply (in_map fst) in Hin. exact Hin.
      * apply IH; assumption.
Qed.

Lemma views_of_key (k : text) (d : tag_table) :
  views_of k d <> [] -> In k (map fst d).
Proof.
  induction d as [|[k' l] r IH]; cbn [map fst views_of In]; intros H.
  - contradiction.
  - destruct (text_eqb k k') eqn:E.
    + apply text_eqb_eq in E. left. symmetry. exact E.
    + right. apply IH. exact H.
Qed.

Lemma add_tags_table (v : video) (d : tag_table) :
  NoDup (map fst d) /\ Forall (fun e => fst e <> [] /\ snd e <> []) d ->
  (NoDup (map fst (add_tags d v))
   /\ Forall (fun e => fst e <> [] /\ snd e <> []) (add_tags d v))
  /\ forall k, k <> [] ->
       views_of k (add_tags d v)
       = views_of k d
         ++ flat_map (fun tag =>
                        if text_eqb (normal_tag tag) k then [views v] else [])
                     (tags v).
Proof.
  unfold add_tags. generalize (tags v) as ts. intros ts. revert d.
  induction ts as [|tag ts IH]; intros d Hd; cbn [fold_left flat_map].
  - split; [exact Hd|]. intros k _. rewrite app_nil_r. reflexivity.
  - destruct (normal_tag tag) as [|c tl] eqn:En.
    + destruct (IH d Hd) as [I1 I2]. split; [exact I1|].
      intros k Hk. rewrite (I2 k Hk).
      destruct k as [|c k]; [contradiction | reflexivity].
    + assert (Hne : c :: tl <> []) by discriminate.
      destruct (IH _ (append_to_table (views v) Hne Hd)) as [I1 I2].
      split; [exact I1|].
      intros k Hk. rewrite (I2 k Hk), views_of_append, <- app_assoc.
      reflexivity.
Qed.

Lemma tag_views_table (videos : list video) :
  NoDup (map fst (tag_views_of videos))
  /\ Forall (fun e => fst e <> [] /\ snd e <> []) (tag_views_of videos)
  /\ forall k, k <> [] -> views_of k (tag_views_of videos) = tag_uses videos k.
Proof.
  unfold tag_views_of, tag_uses.
  assert (G : forall d,
             NoDup (map fst d) /\ Forall (fun e => fst e <> [] /\ snd e <> []) d ->
             (NoDup (map fst (fold_left add_tags videos d))
              /\ Forall (fun e => fst e <> [] /\ snd e <> [])
                        (fold_left add_tags videos d))
             /\ forall k, k <> [] ->
                  views_of k (fold_left add_tags videos d)
                  = views_of k d ++ tag_uses videos k).
  { induction videos as [|v r IH]; intros d Hd; cbn [fold_left].
    - split; [exact Hd|]. intros k _. unfold tag_uses. cbn [flat_map].
      rewrite app_nil_r. reflexivity.
    - destruct (add_tags_table v Hd) as [A1 A2].
      destruct (IH _ A1) as [I1 I2]. split; [exact I1|].
      intros k Hk. rewrite (I2 k Hk), (A2 k Hk), <- app_assoc. reflexivity. }
  destruct (G [] (conj (NoDup_nil _) (Forall_nil _))) as [[G1 G2] G3].
  split; [exact G1|]. split; [exact G2|]. exact G3.
Qed.

Lemma tag_uses_tagged (videos : list video) (k : text) :
  tag_uses videos k <> [] <->
  exists v tag, In v videos /\ In tag (tags v) /\ normal_tag tag = k.
Proof.
  unfold tag_uses. split.
  - intros H. destruct (flat_map _ videos) as [|x l] eqn:E; [contradiction|].
    assert (Hx : In x (flat_map (fun v =>
                         flat_map (fun tag =>
                           if text_eqb (normal_tag tag) k then [views v] else [])
                                  (tags v)) videos))
      by (rewrite E; left; reflexivity).
    apply in_flat_map in Hx. destruct Hx as (v & Hv & Hx).
    apply in_flat_map in Hx. destruct Hx as (tag & Ht & Hx).
    exists v, tag. split; [exact Hv|]. split; [exact Ht|].
    destruct (text_eqb (normal_tag tag) k) eqn:Ek; [|destruct Hx].
    apply text_eqb_eq. exact Ek.
  - intros (v & tag & Hv & Ht & Hk) E.
    assert (Hx : In (views v)
                    (flat_map (fun v =>
                       flat_map (fun tag =>
                         if text_eqb (normal_tag tag) k then [views v] else [])
                                (tags v)) videos)).
    { apply in_flat_map. exists v. split; [exact Hv|].
      apply in_flat_map. exists tag. split; [exact Ht|].
      rewrite Hk, text_eqb_refl. left. reflexivity. }
    rewrite E in Hx. destruct Hx.
Qed.

Lemma tag_analysis_fields (videos : list video) :
  let stats := map stat_of (tag_views_of videos) in
  ta_total_videos_analyzed (tag_analysis_of videos) = len videos
  /\ unique_tags (tag_analysis_of videos) = len (tag_views_of videos)
  /\ top_tags_by_frequency (tag_analysis_of videos)
     = slice_to 20 (sorted (descending (fun x => inject_Z (ts_count x))) stats)
  /\ top_tags_by_avg_views (tag_analysis_of videos)
     = slice_to 20 (sorted (descending ts_avg_views) stats).
Proof.
  unfold tag_analysis_of. destruct (tag_views_of videos); repeat split.
Qed.

Lemma StronglySorted_weaken {A} (R R' : A -> A -> Prop) (l : list A) :
  (forall a b, R a b -> R' a b) -> StronglySorted R l -> StronglySorted R' l.
Proof.
  intros HR. induction 1 as [|a r _ IH Ha]; constructor; [exact IH|].
  revert Ha. apply Forall_impl. intros b. apply HR.
Qed.

Lemma slice_to_nodup {A} (n : Z) (l : list A) : NoDup l -> NoDup (slice_to n l).
Proof.
  intros H. unfold slice_to.
  assert (G : forall k, NoDup (firstn k l)).
  { intros k. rewrite <- (firstn_skipn k l) in H.
    apply NoDup_app_remove_r in H. exact H. }
  destruct (0 <=? n); apply G.
Qed.

Lemma slice_to_map {A B} (f : A -> B) (n : Z) (l : list A) :
  map f (slice_to n l) = slice_to n (map f l).
Proof.
  unfold slice_to. rewrite length_map.
  destruct (0 <=? n); symmetry; apply firstn_map.
Qed.

(** Rounding the binary64 quotient of two counts to a whole number gives the
    whole number nearest to the exact quotient, a tie going to the even one. *)
Lemma mean_whole (a b : Z) :
  0 <= a -> 0 < b -> a + b <= 100000000000000 ->
  py_round (true_div a b) 0
  = inject_Z (round_half_even (inject_Z a / inject_Z b)).
Proof.
  intros A0 B0 AB.
  assert (Hb : (0 < inject_Z b)%Q)
    by (change 0%Q with (inject_Z 0); rewrite <- Zlt_Qlt; exact B0).
  assert (Ha : (0 <= inject_Z a)%Q)
    by (change 0%Q with (inject_Z 0); rewrite <- Zle_Qle; exact A0).
  set (q := (inject_Z a / inject_Z b)%Q).
  assert (Q0 : (inject_Z 0 <= q)%Q).
  { apply Qle_shift_div_l; [exact Hb|]. change (inject_Z 0) with 0%Q. lra. }
  assert (Q1 : (q <= inject_Z a)%Q).
  { apply Qle_shift_div_r; [exact Hb|].
    assert (B1 : (1 <= inject_Z b)%Q)
      by (change 1%Q with (inject_Z 1); rewrite <- Zle_Qle; lia).
    nra. }
  set (k := round_half_even q).
  assert (Kb : 0 <= k <= a) by (apply round_half_even_between; split; assumption).
  assert (R : round_half_even (true_div a b * inject_Z (10 ^ Z.of_nat 0)) = k).
  { change (inject_Z (10 ^ Z.of_nat 0)) with 1%Q. unfold true_div. fold q.
    pose proof (round_half_even_near q) as N. fold k in N.
    destruct (Qlt_le_dec (Qabs (inject_Z k - q)) (1 # 2)) as [S|T].
    - (* no tie: the quotient stays clear of the half by [1 / (2 b)] *)
      apply round_half_even_strict.
      set (d := a - k * b).
      assert (D : (q - inject_Z k == inject_Z d / inject_Z b)%Q).
      { unfold d, q. unfold Z.sub. rewrite inject_Z_plus, inject_Z_opp, inject_Z_mult.
        field. intros C. rewrite C in Hb. discriminate Hb. }
      assert (D2 : Z.abs (2 * d) <= b - 1).
      { assert (Z.abs (2 * d) < b); [|lia].
        apply Qabs_Qlt_condition in S. destruct S as [S1 S2].
        assert (T : (inject_Z d == - (inject_Z k - q) * inject_Z b)%Q).
        { assert (I : (- (inject_Z k - q) == q - inject_Z k)%Q) by ring.
          rewrite I, D. field. intros C. rewrite C in Hb. discriminate Hb. }
        assert (Y : (2 * inject_Z d < inject_Z b /\ - inject_Z b < 2 * inject_Z d)%Q).
        { rewrite T. revert S1 S2 Hb.
          generalize (inject_Z k - q)%Q, (inject_Z b). intros t c S1 S2 Hc.
          split; nra. }
        destruct Y as [Y1 Y2].
        assert (Z1 : (inject_Z (2 * d) < inject_Z b)%Q)
          by (rewrite inject_Z_mult; change (inject_Z 2) with 2%Q; lra).
        assert (Z2 : (inject_Z (- b) < inject_Z (2 * d))%Q)
          by (rewrite inject_Z_mult, inject_Z_opp; change (inject_Z 2) with 2%Q; lra).
        rewrite <- Zlt_Qlt in Z1, Z2. lia. }
      assert (T : (inject_Z d == - (inject_Z k - q) * inject_Z b)%Q).
      { assert (I : (- (inject_Z k - q) == q - inject_Z k)%Q) by ring.
        rewrite I, D. field. intros C. rewrite C in Hb. discriminate Hb. }
      assert (D3 : (2 * inject_Z d <= inject_Z b - 1
                    /\ - (inject_Z b - 1) <= 2 * inject_Z d)%Q).
      { assert (E1 : (inject_Z (2 * d) <= inject_Z (b + -1))%Q)
          by (rewrite <- Zle_Qle; lia).
        assert (E2 : (inject_Z (- (b + -1)) <= inject_Z (2 * d))%Q)
          by (rewrite <- Zle_Qle; lia).
        rewrite inject_Z_opp in E2. rewrite inject_Z_plus, inject_Z_mult in E1, E2.
        change (inject_Z 2) with 2%Q in E1, E2.
        change (inject_Z (-1)) with (-1 # 1)%Q in E1, E2. split; lra. }
      destruct D3 as [D3 D4].
      pose proof (fl_close q) as C. rewrite (Qabs_pos q) in C by exact Q0.
      assert (C2 : ((q + 1) * inject_Z b <= 100000000000000)%Q).
      { assert (I : ((q + 1) * inject_Z b == inject_Z (a + b))%Q).
        { unfold q. rewrite inject_Z_plus. field.
          intros C'. rewrite C' in Hb. discriminate Hb. }
        rewrite I. change 100000000000000%Q with (inject_Z 100000000000000).
        rewrite <- Zle_Qle. exact AB. }
      apply Qabs_Qle_condition in C. destruct C as [C3 C4].
      assert (I1 : (fl q * 1 - inject_Z k == fl q - inject_Z k)%Q) by ring.
      rewrite I1. apply Qabs_Qlt_condition.
      assert (U : ((fl q - inject_Z k) * inject_Z b
                   == (fl q - q) * inject_Z b + inject_Z d)%Q) by (rewrite T; ring).
      revert U D3 D4 C2 C3 C4 Hb.
      generalize (fl q - inject_Z k)%Q, (fl q - q)%Q, (inject_Z d), (inject_Z b), (q + 1)%Q.
      intros g u dd c w U D3 D4 C2 C3 C4 Hc.
      assert (V1 : (u * c <= 1 # 10)%Q) by nra.
      assert (V2 : (- (1 # 10) <= u * c)%Q) by nra.
      assert (G1 : (g * c < (1 # 2) * c)%Q) by lra.
      assert (G2 : (- (1 # 2) * c < g * c)%Q) by lra.
      clear - G1 G2 Hc. split; nra.
    - (* a tie: the quotient is half a whole number, hence a binary64 number *)
      assert (H : exists m, 0 <= m <= 2 ^ 52 /\ (q == inject_Z m * (1 # 2))%Q).
      { apply Qabs_Qle_condition in N. destruct N as [N1 N2].
        change (inject_Z 0) with 0%Q in Q0.
        destruct (Qlt_le_dec (inject_Z k - q) 0) as [Hn|Hp].
        - rewrite Qabs_neg in T by (apply Qlt_le_weak; exact Hn).
          exists (2 * k + 1). split; [change (2 ^ 52) with 4503599627370496; lia|].
          rewrite inject_Z_plus, inject_Z_mult.
          change (inject_Z 2) with 2%Q. change (inject_Z 1) with 1%Q. lra.
        - rewrite Qabs_pos in T by exact Hp.
          assert (E : (q == inject_Z (2 * k + -1) * (1 # 2))%Q).
          { rewrite inject_Z_plus, inject_Z_mult.
            change (inject_Z 2) with 2%Q. change (inject_Z (-1)) with (-1 # 1)%Q. lra. }
          exists (2 * k + -1). split; [|exact E].
          split; [|change (2 ^ 52) with 4503599627370496; lia].
          assert (E0 : (inject_Z 0 <= inject_Z (2 * k + -1))%Q).
          { change (inject_Z 0) with 0%Q. rewrite E in Q0. lra. }
          rewrite <- Zle_Qle in E0. exact E0. }
      destruct H as (m & Hm & E).
      apply round_half_even_comp.
      rewrite (@fl_comp q (inject_Z m * (1 # 2)) E), (@fl_half m Hm), E. ring. }
  unfold py_round. rewrite R.
  change (inject_Z (10 ^ Z.of_nat 0)) with 1%Q.
  rewrite (@fl_comp (inject_Z k / 1) (inject_Z k)) by field.
  apply fl_integer. change (2 ^ 52) with 4503599627370496. lia.
Qed.

(** X17.  What [get_tag_analysis] returns is about the videos the aggregator
    returned: [unique_tags] counts the distinct non-empty texts that tags
    normalise to (lower case, surrounding whitespace stripped); each of the
    two top lists has at most 20 entries, no tag twice, and for a tag its
    count is the number of tags of the videos normalising to it (at least 1)
    and its average the binary64 mean of the views of their videos rounded to
    a whole number, which is the whole number nearest to the exact mean (a
    tie going to the even one) as long as views and uses add up to at most
    10^14; the first list is in non-increasing order of count, the second of
    average. *)
Theorem tag_analysis_groups (P : platform) (fuel : nat) (channel_url : text)
    (limit : Z) (n n1 : nat) (res : tag_analysis) :
  get_tag_analysis P fuel channel_url limit n = Done (res, n1) ->
  exists videos keys,
    _fetch_videos_for_channel P fuel channel_url limit n = Done (videos, n1)
    /\ ta_total_videos_analyzed res = len videos
    /\ NoDup keys
    /\ unique_tags res = len keys
    /\ (forall k, In k keys <->
                  k <> [] /\ exists v tag,
                    In v videos /\ In tag (tags v) /\ normal_tag tag = k)
    /\ Forall (fun top =>
                 (List.length top <= 20)%nat
                 /\ NoDup (map ts_tag top)
                 /\ incl (map ts_tag top) keys
                 /\ Forall (fun s =>
                              let uses := tag_uses videos (ts_tag s) in
                              ts_count s = len uses
                              /\ 1 <= ts_count s
                              /\ ts_avg_views s
                                 = _safe_float (true_div (sumZ uses) (len uses)) 0
                              /\ (0 <= sumZ uses ->
                                  sumZ uses + len uses <= 100000000000000 ->
                                  ts_avg_views s
                                  = inject_Z (round_half_even
                                                (inject_Z (sumZ uses)
                                                 / inject_Z (len uses)))))
                           top)
              [top_tags_by_frequency res; top_tags_by_avg_views res]
    /\ StronglySorted (fun a b => ts_count b <= ts_count a)
                      (top_tags_by_frequency res)
    /\ StronglySorted (fun a b => (ts_avg_views b <= ts_avg_views a)%Q)
                      (top_tags_by_avg_views res).
Proof.
  intros H. unfold get_tag_analysis in H.
  apply bind_done in H. destruct H as (videos & n0 & E & H).
  assert (R : res = tag_analysis_of videos /\ n0 = n1).
  { destruct videos; [discriminate|]. apply ret_done in H.
    destruct H as [<- <-]. split; reflexivity. }
  destruct R as [-> <-]. clear H.
  exists videos, (map fst (tag_views_of videos)).
  destruct (tag_views_table videos) as (Tn & Tf & Tv).
  destruct (tag_analysis_fields videos) as (F1 & F2 & F3 & F4).
  set (tv := tag_views_of videos) in *.
  set (stats := map stat_of tv) in *.
  assert (Ks : map ts_tag stats = map fst tv).
  { unfold stats. rewrite map_map. apply map_ext. intros [k l]. reflexivity. }
  assert (St : Forall (fun s =>
                         let uses := tag_uses videos (ts_tag s) in
                         ts_count s = len uses
                         /\ 1 <= ts_count s
                         /\ ts_avg_views s
                            = _safe_float (true_div (sumZ uses) (len uses)) 0
                              /\ (0 <= sumZ uses ->
                                  sumZ uses + len uses <= 100000000000000 ->
                                  ts_avg_views s
                                  = inject_Z (round_half_even
                                                (inject_Z (sumZ uses)
                                                 / inject_Z (len uses)))))
                      stats).
  { apply Forall_forall. intros s Hs. apply in_map_iff in Hs.
    destruct Hs as ([k l] & <- & Hin). cbn [stat_of ts_tag ts_count ts_avg_views].
    rewrite Forall_forall in Tf. destruct (Tf _ Hin) as [Hk Hl].
    cbn [fst snd] in Hk, Hl.
    rewrite <- (Tv k Hk), (@views_of_in _ _ _ Tn Hin).
    assert (L1 : 1 <= len l)
      by (destruct l; [contradiction|]; unfold len; cbn [List.length]; lia).
    split; [reflexivity|]. split; [exact L1|]. split; [reflexivity|].
    intros S0 S1. apply mean_whole; lia. }
  assert (Top : forall before,
             let top := slice_to 20 (sorted before stats) in
             (List.length top <= 20)%nat
             /\ NoDup (map ts_tag top)
             /\ incl (map ts_tag top) (map fst tv)
             /\ Forall (fun s =>
                          let uses := tag_uses videos (ts_tag s) in
                          ts_count s = len uses
                          /\ 1 <= ts_count s
                          /\ ts_avg_views s
                             = _safe_float (true_div (sumZ uses) (len uses)) 0
                              /\ (0 <= sumZ uses ->
                                  sumZ uses + len uses <= 100000000000000 ->
                                  ts_avg_views s
                                  = inject_Z (round_half_even
                                                (inject_Z (sumZ uses)
                                                 / inject_Z (len uses)))))
                       top).
  { intros before top.
    pose proof (sorted_perm before stats) as Hp.
    assert (Hk : Permutation (map ts_tag (sorted before stats)) (map fst tv))
      by (rewrite <- Ks; apply Permutation_map; exact Hp).
    split; [|split; [|split]].
    - pose proof (@slice_to_length _ 20 (sorted before stats)) as L.
      unfold len in L. fold top in L. lia.
    - unfold top. rewrite slice_to_map. apply slice_to_nodup.
      apply (Permutation_NoDup (Permutation_sym Hk) Tn).
    - intros k Hin. unfold top in Hin. rewrite slice_to_map in Hin.
      apply slice_to_incl in Hin. apply (Permutation_in _ Hk Hin).
    - apply Forall_forall. intros s Hs. apply slice_to_incl in Hs.
      rewrite Forall_forall in St. apply St.
      apply (Permutation_in _ Hp Hs). }
  split; [exact E|]. split; [exact F1|]. split; [exact Tn|].
  split; [rewrite F2; unfold len; rewrite length_map; reflexivity|].
  split.
  { intros k. rewrite <- tag_uses_tagged. split.
    - intros Hin. apply in_map_iff in Hin. destruct Hin as ([k' l] & Hk & Hin).
      cbn [fst] in Hk. subst k'. rewrite Forall_forall in Tf.
      destruct (Tf _ Hin) as [Hk Hl]. cbn [fst snd] in Hk, Hl.
      split; [exact Hk|]. rewrite <- (Tv k Hk), (@views_of_in _ _ _ Tn Hin). exact Hl.
    - intros [Hk Hu]. apply views_of_key. rewrite (Tv k Hk). exact Hu. }
  split.
  { rewrite F3, F4. constructor; [apply Top|]. constructor; [apply Top|].
    constructor. }
  split.
  - rewrite F3. apply slice_to_sorted.
    apply (StronglySorted_weaken
             (R := fun a b => (inject_Z (ts_count b) <= inject_Z (ts_count a))%Q)).
    + intros a b Hab. rewrite <- Zle_Qle in Hab. exact Hab.
    + apply (sorted_descending (fun x => inject_Z (ts_count x))).
  - rewrite F4. apply slice_to_sorted. apply (sorted_descending ts_avg_views).
Qed.

Lemma tag_analysis_groups_witness :
  match get_tag_analysis sample_platform 5
          (lit "https://www.youtube.com/@sample") 10 0%nat with
  | Done (res, _) =>
      (exists keys : list text, NoDup keys /\ unique_tags res = len keys)
      /\ StronglySorted (fun a b => ts_count b <= ts_count a)
                        (top_tags_by_frequency res)
  | _ => False
  end.
Proof.
  destruct (get_tag_analysis sample_platform 5
              (lit "https://www.youtube.com/@sample") 10 0%nat)
    as [[res n1]| |] eqn:E.
  - destruct (@tag_analysis_groups sample_platform 5 _ 10 0%nat n1 res E)
      as (videos & keys & _ & _ & Hn & Hu & _ & _ & Hs & _).
    split; [exists keys; split; assumption | exact Hs].
  - vm_compute in E. discriminate E.
  - vm_compute in E. discriminate E.
Defined.

Example tag_analysis_of_sample :
  match get_tag_analysis sample_platform 5
          (lit "https://www.youtube.com/@sample") 10 0%nat with
  | Done (res, _) =>
      unique_tags res = 1
      /\ map (fun s => (ts_tag s, ts_count s)) (top_tags_by_frequency res)
         = [(lit "demo", 3)]
  | _ => False
  end.
Proof. vm_compute. split; reflexivity. Qed.

(** ** The comment keywords *)

Lemma count_of_bump (k k' : text) (c : counter) :
  count_of k (bump k' c) = count_of k c + (if text_eqb k k' then 1 else 0).
Proof.
  induction c as [|[k0 m] r IH]; cbn [bump count_of].
  - destruct (text_eqb k k'); lia.
  - destruct (text_eqb k' k0) eqn:E0; cbn [count_of].
    + apply text_eqb_eq in E0. subst k0.
      destruct (text_eqb k k'); lia.
    + destruct (text_eqb k k0) eqn:E; [|exact IH].
      apply text_eqb_eq in E. subst k0.
      destruct (text_eqb k k') eqn:E'; [|lia].
      apply text_eqb_eq in E'. subst k'. rewrite text_eqb_refl in E0.
      discriminate E0.
Qed.

Lemma count_of_in (k : text) (m : Z) (c : counter) :
  NoDup (map fst c) -> In (k, m) c -> count_of k c = m.
Proof.
  induction c as [|[k' m'] r IH]; cbn [map fst count_of]; intros Hn Hin.
  - destruct Hin.
  - inversion Hn as [|? ? Hni Hr]; subst.
    destruct Hin as [Hin|Hin].
    + inversion Hin; subst. rewrite text_eqb_refl. reflexivity.
    + destruct (text_eqb k k') eqn:E.
      * apply text_eqb_eq in E. subst k'. exfalso. apply Hni.
        apply (in_map fst) in Hin. exact Hin.
      * apply IH; assumption.
Qed.

Lemma occurrences_app (w : text) (ws ws' : list text) :
  occurrences w (ws ++ ws') = occurrences w ws + occurrences w ws'.
Proof. unfold occurrences. rewrite filter_app. apply len_app. Qed.

Lemma occurrences_cons (k w : text) (ws : list text) :
  occurrences k (w :: ws)
  = (if text_eqb k w then 1 else 0) + occurrences k ws.
Proof.
  change (w :: ws) with ([w] ++ ws). rewrite occurrences_app. f_equal.
  unfold occurrences. cbn [filter]. destruct (text_eqb k w); reflexivity.
Qed.

Lemma count_all_spec (ws : list text) :
  NoDup (map fst (count_all ws))
  /\ Forall (fun kv => 1 <= snd kv) (count_all ws)
  /\ (forall k, In k (map fst (count_all ws)) -> In k ws)
  /\ forall k, count_of k (count_all ws) = occurrences k ws.
Proof.
  unfold count_all.
  assert (G : forall c,
             NoDup (map fst c) -> Forall (fun kv => 1 <= snd kv) c ->
             let c' := fold_left (fun c w => bump w c) ws c in
             NoDup (map fst c')
             /\ Forall (fun kv => 1 <= snd kv) c'
             /\ (forall k, In k (map fst c') -> In k (map fst c) \/ In k ws)
             /\ forall k, count_of k c' = count_of k c + occurrences k ws).
  { induction ws as [|w ws IH]; intros c Hn Hp; cbn [fold_left].
    - split; [exact Hn|]. split; [exact Hp|]. split; [intros k H; left; exact H|].
      intros k. unfold occurrences, len. cbn. lia.
    - destruct (IH (bump w c) (bump_nodup w c Hn) (bump_positive w Hp))
        as (I1 & I2 & I3 & I4).
      split; [exact I1|]. split; [exact I2|]. split.
      + intros k H. destruct (I3 k H) as [G|G].
        * destruct (bump_keys _ _ _ G) as [G'|G'];
            [right; left; symmetry; exact G' | left; exact G'].
        * right. right. exact G.
      + intros k. rewrite I4, count_of_bump.
        rewrite occurrences_cons. lia. }
  destruct (G [] (NoDup_nil _) (Forall_nil _)) as (G1 & G2 & G3 & G4).
  split; [exact G1|]. split; [exact G2|]. split.
  - intros k H. destruct (G3 k H) as [[]|H']. exact H'.
  - intros k. rewrite G4. cbn [count_of]. lia.
Qed.

Lemma occurrences_filter (p : text -> bool) (w : text) (ws : list text) :
  p w = true -> occurrences w (filter p ws) = occurrences w ws.
Proof.
  intros Hw. unfold occurrences. f_equal.
  induction ws as [|x ws IH]; [reflexivity|]. cbn [filter].
  destruct (p x) eqn:Px; cbn [filter].
  - rewrite IH. reflexivity.
  - destruct (text_eqb w x) eqn:E; [|exact IH].
    apply text_eqb_eq in E. congruence.
Qed.

Lemma firstn_nodup {A} (k : nat) (l : list A) : NoDup l -> NoDup (firstn k l).
Proof.
  intros H. rewrite <- (firstn_skipn k l) in H.
  apply NoDup_app_remove_r in H. exact H.
Qed.

Lemma firstn_incl {A} (k : nat) (l : list A) (x : A) :
  In x (firstn k l) -> In x l.
Proof.
  intros H. rewrite <- (firstn_skipn k l). apply in_or_app. left. exact H.
Qed.

Lemma firstn_sorted {A} (R : A -> A -> Prop) (k : nat) (l : list A) :
  StronglySorted R l -> StronglySorted R (firstn k l).
Proof.
  intros S. revert k.
  induction S as [|a r Sr IH Ha]; intros [|k]; simpl; try constructor.
  - apply IH.
  - rewrite Forall_forall in *. intros y Hy. apply Ha.
    apply (firstn_incl _ _ _ Hy).
Qed.

Section KeywordFacts.

Variable P : platform.
Variable word_tokenize : text -> list text.
Variable STOPWORDS : list text.

(** X18.  What [get_comment_keywords] returns is about the comments
    [get_video_comments] returned, for the same requests: at most [top_n]
    keywords and none when [top_n] is not positive, no word twice; every
    listed word is a token of the lower-cased comment text that is
    alphabetic, at least 3 characters long and no stop word, and its count is
    the number of its occurrences among the tokens; the counts do not
    increase along the list. *)
Theorem comment_keywords_counted (fuel : nat) (video_id : text)
    (limit top_n : Z) (n n1 : nat) (res : keywords) :
  get_comment_keywords P word_tokenize STOPWORDS fuel video_id limit top_n n
  = Done (res, n1) ->
  exists comment_data,
    get_video_comments P fuel video_id limit n = Done (comment_data, n1)
    /\ kw_video_id res = video_id
    /\ comments_analyzed res = returned_comment_count comment_data
    /\ len (top_keywords res) <= Z.max top_n 0
    /\ NoDup (map fst (top_keywords res))
    /\ Forall (fun kv =>
                 let tokens :=
                   word_tokenize
                     (lower (join (lit " ")
                                  (map c_text (vc_comments comment_data)))) in
                 In (fst kv) tokens
                 /\ (fst kv <> [] /\ forallb is_alpha (fst kv) = true
                     /\ 3 <= len (fst kv) /\ ~ In (fst kv) STOPWORDS)
                 /\ snd kv = occurrences (fst kv) tokens
                 /\ 1 <= snd kv)
              (top_keywords res)
    /\ StronglySorted (fun a b => snd b <= snd a) (top_keywords res).
Proof.
  intros H. unfold get_comment_keywords in H.
  apply bind_done in H. destruct H as (data & n0 & E & H).
  apply ret_done in H. destruct H as [<- <-].
  exists data. split; [exact E|]. split; [reflexivity|]. split; [reflexivity|].
  cbn [top_keywords keywords_of].
  set (tokens := word_tokenize _).
  set (filtered := filter (kept STOPWORDS) tokens).
  destruct (count_all_spec filtered) as (Cn & Cp & Ck & Cc).
  unfold most_common.
  destruct (Z.leb_spec top_n 0) as [Hn|Hn].
  { split; [unfold len; cbn; lia|]. split; [constructor|].
    split; constructor. }
  set (key := fun kv : text * Z => inject_Z (snd kv)).
  pose proof (sorted_perm (descending key) (count_all filtered)) as Hp.
  split.
  { unfold len. rewrite length_firstn. lia. }
  split.
  { rewrite <- firstn_map. apply firstn_nodup.
    apply (Permutation_NoDup
             (Permutation_sym (Permutation_map fst Hp)) Cn). }
  split.
  - apply Forall_forall. intros [w m] Hin. cbn [fst snd].
    apply firstn_incl in Hin. apply (Permutation_in _ Hp) in Hin.
    assert (Hw : In w filtered) by (apply Ck; apply (in_map fst) in Hin; exact Hin).
    unfold filtered in Hw. apply filter_In in Hw. destruct Hw as [Ht Hk].
    split; [exact Ht|].
    assert (Hm : m = occurrences w tokens).
    { rewrite <- (@count_of_in _ _ _ Cn Hin), Cc. unfold filtered.
      apply occurrences_filter. exact Hk. }
    assert (Hpos : 1 <= m).
    { rewrite Forall_forall in Cp. apply (Cp _ Hin). }
    split; [|split; assumption].
    unfold kept in Hk. apply andb_true_iff in Hk. destruct Hk as [Hk Hs].
    apply andb_true_iff in Hk. destruct Hk as [Ha Hl].
    split; [intros ->; discriminate Ha|].
    split; [destruct w; [discriminate Ha | exact Ha]|].
    split; [apply Z.leb_le; exact Hl|].
    intros Hin'. apply negb_true_iff in Hs.
    assert (existsb (text_eqb w) STOPWORDS = true).
    { apply existsb_exists. exists w. split; [exact Hin' | apply text_eqb_refl]. }
    congruence.
  - apply firstn_sorted.
    apply (StronglySorted_weaken (R := fun a b => (key b <= key a)%Q)).
    + intros a b Hab. unfold key in Hab. rewrite <- Zle_Qle in Hab. exact Hab.
    + apply (sorted_descending key).
Qed.

End KeywordFacts.

Lemma comment_keywords_counted_witness :
  match get_comment_keywords sample_platform words [lit "the"] 5 (lit "v1")
          10 5 0%nat with
  | Done (res, _) =>
      NoDup (map fst (top_keywords res))
      /\ StronglySorted (fun a b => snd b <= snd a) (top_keywords res)
      /\ top_keywords res = [(lit "nice", 1)]
  | _ => False
  end.
Proof.
  destruct (get_comment_keywords sample_platform words [lit "the"] 5 (lit "v1")
              10 5 0%nat) as [[res n1]| |] eqn:E.
  - destruct (@comment_keywords_counted sample_platform words [lit "the"] 5
                (lit "v1") 10 5 0%nat n1 res E)
      as (data & _ & _ & _ & _ & Hn & _ & Hs).
    split; [exact Hn|]. split; [exact Hs|].
    vm_compute in E. inversion E. reflexivity.
  - vm_compute in E. discriminate E.
  - vm_compute in E. discriminate E.
Defined.

(** ** The transcript *)

Lemma takewhile_dropwhile (p : ascii -> bool) (s : text) :
  s = takewhile p s ++ dropwhile p s.
Proof.
  induction s as [|c s IH]; simpl; [reflexivity|].
  destruct (p c); simpl; [f_equal; exact IH | reflexivity].
Qed.

Lemma dropwhile_head (p : ascii -> bool) (s : text) (c : ascii) (r : text) :
  dropwhile p s = c :: r -> p c = false.
Proof.
  induction s as [|x s IH]; simpl; [discriminate|].
  destruct (p x) eqn:E; [exact IH|]. intros H. inversion H; subst. exact E.
Qed.

Lemma rstrip_split (p : ascii -> bool) (s : text) :
  exists tail,
    s = rstrip p s ++ tail
    /\ Forall (fun c => p c = true) tail
    /\ forall c r, rstrip p s = c :: r -> p (last r c) = false.
Proof.
  unfold rstrip. exists (rev (takewhile p (rev s))). split; [|split].
  - rewrite <- rev_app_distr, <- takewhile_dropwhile, rev_involutive.
    reflexivity.
  - apply Forall_rev. apply takewhile_forall.
  - intros c r H. destruct (dropwhile p (rev s)) as [|x d] eqn:E.
    + discriminate H.
    + apply dropwhile_head in E. cbn [rev] in H.
      assert (L : last (c :: r) c = x).
      { rewrite <- H. apply last_last. }
      destruct r as [|y r]; [cbn in L; subst x; exact E|].
      change (last (c :: y :: r) c) with (last (y :: r) c) in L.
      rewrite L. exact E.
Qed.

Lemma words_aux_spaces (cur tail : text) :
  Forall (fun c => is_space c = true) tail ->
  words_aux cur tail = match cur with [] => [] | _ => [rev cur] end.
Proof.
  intros H. revert cur. induction H as [|c tail Hc _ IH]; intros cur.
  - reflexivity.
  - cbn [words_aux]. rewrite Hc. rewrite (IH []).
    destruct cur; reflexivity.
Qed.

Lemma words_aux_app_spaces (cur s tail : text) :
  Forall (fun c => is_space c = true) tail ->
  words_aux cur (s ++ tail) = words_aux cur s.
Proof.
  intros H. revert cur. induction s as [|c s IH]; intros cur.
  - cbn [app]. rewrite (words_aux_spaces cur H). reflexivity.
  - cbn [app words_aux]. destruct (is_space c); rewrite ?IH; reflexivity.
Qed.

Lemma words_spaces_app (head s : text) :
  Forall (fun c => is_space c = true) head -> words (head ++ s) = words s.
Proof.
  unfold words. induction 1 as [|c head Hc _ IH]; [reflexivity|].
  cbn [app words_aux]. rewrite Hc. exact IH.
Qed.

Lemma words_aux_not_empty (cur s : text) : cur <> [] -> words_aux cur s <> [].
Proof.
  revert cur. induction s as [|c s IH]; intros cur Hc; cbn [words_aux].
  - destruct cur; [contradiction | discriminate].
  - destruct (is_space c).
    + destruct cur; [contradiction | discriminate].
    + apply IH. discriminate.
Qed.

Lemma words_aux_clean (cur s : text) :
  Forall (fun c => is_space c = false) cur ->
  Forall (fun w => w <> [] /\ Forall (fun c => is_space c = false) w)
         (words_aux cur s).
Proof.
  revert cur. induction s as [|c s IH]; intros cur Hc; cbn [words_aux].
  - destruct cur as [|x cur]; constructor; [|constructor].
    split; [|apply Forall_rev; exact Hc].
    intros E. apply (f_equal (@List.length ascii)) in E.
    rewrite length_rev in E. discriminate E.
  - destruct (is_space c) eqn:Ec.
    + destruct cur as [|x cur]; [apply IH; constructor|].
      constructor; [|apply IH; constructor].
      split; [|apply Forall_rev; exact Hc].
      intros E. apply (f_equal (@List.length ascii)) in E.
      rewrite length_rev in E. discriminate E.
    + apply IH. constructor; assumption.
Qed.

(** X19.  A transcript that [get_video_transcript] returns counts the
    segments fetched; its text is the segments joined by single spaces less
    the whitespace at both ends, so it neither starts nor ends with
    whitespace; its word count is the number of whitespace-separated words of
    the joined segments, each of them non-empty and free of whitespace, and
    is 0 exactly when the text is empty. *)
Theorem transcript_counts (fetch_raw : text -> text + list text)
    (video_id : text) (t : transcript) :
  get_video_transcript fetch_raw video_id = inr t ->
  exists segments,
    fetch_raw video_id = inr segments
    /\ tr_video_id t = video_id
    /\ segment_count t = len segments
    /\ (exists head tail,
           join (lit " ") segments = head ++ transcript_text t ++ tail
           /\ Forall (fun c => is_space c = true) head
           /\ Forall (fun c => is_space c = true) tail)
    /\ (forall c r, transcript_text t = c :: r ->
                    is_space c = false /\ is_space (last r c) = false)
    /\ word_count t = len (words (join (lit " ") segments))
    /\ Forall (fun w => w <> [] /\ Forall (fun c => is_space c = false) w)
              (words (join (lit " ") segments))
    /\ (word_count t = 0 <-> transcript_text t = []).
Proof.
  unfold get_video_transcript. intros H.
  destruct (fetch_raw video_id) as [msg|segments].
  { destruct (contains (lit "PoToken") msg); discriminate H. }
  inversion H; subst t; clear H.
  exists segments. split; [reflexivity|]. split; [reflexivity|].
  split; [reflexivity|].
  cbn [transcript_text word_count].
  change (lit " ") with [" "%char].
  set (joined := join [" "%char] segments).
  unfold strip, lstrip.
  pose proof (takewhile_dropwhile is_space joined) as Hd.
  pose proof (takewhile_forall is_space joined) as Hh.
  destruct (rstrip_split is_space (dropwhile is_space joined))
    as (tail & Hs & Ht & Hl).
  set (body := rstrip is_space (dropwhile is_space joined)) in *.
  assert (Hj : joined = takewhile is_space joined ++ body ++ tail).
  { rewrite <- Hs. exact Hd. }
  assert (Hw : words joined = words body).
  { rewrite Hj at 1. rewrite (words_spaces_app _ Hh). unfold words.
    apply words_aux_app_spaces. exact Ht. }
  assert (Hf : forall c r, body = c :: r -> is_space c = false).
  { intros c r Hb. rewrite Hb in Hs.
    apply (dropwhile_head is_space joined (r := r ++ tail)).
    rewrite Hs. reflexivity. }
  split; [exists (takewhile is_space joined), tail; repeat split; assumption|].
  split.
  { intros c r Hb. split; [apply (Hf c r Hb) | apply (Hl c r Hb)]. }
  split.
  { rewrite Hw. destruct body; reflexivity. }
  split.
  { apply words_aux_clean. constructor. }
  destruct body as [|c r] eqn:Eb.
  - split; reflexivity.
  - split; [|discriminate]. intros H0. exfalso.
    assert (N : words (c :: r) <> []).
    { unfold words. cbn [words_aux]. rewrite (Hf c r eq_refl).
      apply words_aux_not_empty. discriminate. }
    destruct (words (c :: r)); [contradiction|].
    unfold len in H0. cbn [List.length] in H0. lia.
Qed.

Lemma transcript_counts_witness :
  match get_video_transcript
          (fun _ => inr [lit " so  today"; lit "we prove "; []]) (lit "v1") with
  | inr t => word_count t = 4 /\ transcript_text t = lit "so  today we prove"
  | inl _ => False
  end.
Proof.
  destruct (get_video_transcript
              (fun _ => inr [lit " so  today"; lit "we prove "; []]) (lit "v1"))
    as [e|t] eqn:E.
  - vm_compute in E. discriminate E.
  - destruct (@transcript_counts _ (lit "v1") t E)
      as (segments & Hf & _ & _ & _ & _ & Hw & _).
    inversion Hf; subst segments. split.
    + rewrite Hw. reflexivity.
    + vm_compute in E. inversion E. reflexivity.
Defined.

(** ** The requests of the aggregator *)

Lemma for_each_counts {A B} (f : A -> M B) (xs : list A) n ys n1 :
  (forall x m y m1, f x m = Done (y, m1) -> m1 = S m) ->
  for_each f xs n = Done (ys, n1) ->
  n1 = (n + List.length xs)%nat
  /\ Forall2 (fun x y => exists m, (n <= m < n1)%nat /\ f x m = Done (y, S m))
             xs ys.
Proof.
  intros Hf. revert n ys n1.
  induction xs as [|x r IH]; intros n ys n1 H; cbn [for_each] in H.
  - apply ret_done in H. destruct H as [<- <-]. cbn [List.length].
    split; [lia | constructor].
  - apply bind_done in H. destruct H as (y & m1 & E & H).
    apply bind_done in H. destruct H as (ys' & m2 & E' & H).
    apply ret_done in H. destruct H as [<- <-].
    pose proof (Hf _ _ _ _ E) as ->.
    destruct (IH _ _ _ E') as [Hn Hr]. cbn [List.length].
    split; [lia|]. constructor.
    + exists n. split; [lia | exact E].
    + revert Hr. apply Forall2_impl. intros b p (m & Hm & Hb).
      exists m. split; [lia | exact Hb].
Qed.

(** X20.  When the aggregator returns, it has resolved the URL, asked once
    for the uploads playlist, collected the video ids page by page, and then
    made one details request for each slice of at most 50 ids, that is
    [ceil(len(ids) / 50)] requests and none when no id was collected; the
    videos returned are the items of these answers, in order. *)
Theorem aggregator_requests (P : platform) (fuel : nat) (channel_url : text)
    (limit : Z) (n n1 : nat) (result : list video) :
  _fetch_videos_for_channel P fuel channel_url limit n = Done (result, n1) ->
  exists channel_id m0 uploads others ids m1 parts,
    resolve_channel_id P channel_url n = Done (channel_id, m0)
    /\ channels_content_details P m0 channel_id = Some (uploads :: others)
    /\ fetch_video_ids P fuel uploads limit (S m0) = Done (ids, m1)
    /\ n1 = (m1 + (List.length ids + 49) / 50)%nat
    /\ Forall2 (fun batch part =>
                  exists m data,
                    (m1 <= m < n1)%nat
                    /\ videos P m (join (lit ",") batch) = Some data
                    /\ part = map normalize data)
               (batches (List.length ids) ids) parts
    /\ result = List.concat parts.
Proof.
  intros H. unfold _fetch_videos_for_channel in H.
  apply bind_done in H. destruct H as (cid & m0 & Er & H).
  apply bind_done in H. destruct H as (up & m0' & Eu & H).
  apply bind_done in H. destruct H as (ids & m1 & Ei & H).
  unfold _get_uploads_playlist_id in Eu.
  apply bind_done in Eu. destruct Eu as (items & m & Eg & Eu).
  apply get_done in Eg. destruct Eg as [Eg ->].
  destruct items as [|uploads others]; [discriminate|].
  apply ret_done in Eu. destruct Eu as [-> <-].
  destruct (@batches_spec (List.length ids) ids (Nat.le_refl _))
    as (_ & _ & Hk).
  destruct ids as [|i ids].
  - apply ret_done in H. destruct H as [<- <-].
    exists cid, m0, up, others, [], m1, [].
    split; [exact Er|]. split; [exact Eg|]. split; [exact Ei|].
    split; [cbn; lia|]. split; [constructor | reflexivity].
  - apply bind_done in H. destruct H as (parts & m2 & Ef & H).
    apply ret_done in H. destruct H as [<- <-].
    apply for_each_counts in Ef.
    2: { intros x k y k1 Hx. apply bind_done in Hx.
         destruct Hx as (data & k2 & Hg & Hx). apply get_done in Hg.
         destruct Hg as [_ ->]. apply ret_done in Hx. destruct Hx as [_ <-].
         reflexivity. }
    destruct Ef as [Hn Hf]. rewrite Hk in Hn.
    exists cid, m0, up, others, (i :: ids), m1, parts.
    split; [exact Er|]. split; [exact Eg|]. split; [exact Ei|].
    split; [exact Hn|]. split; [|reflexivity].
    revert Hf. apply Forall2_impl. intros batch part (k & Hk' & Hx).
    apply bind_done in Hx. destruct Hx as (data & k2 & Hg & Hx).
    apply get_done in Hg. destruct Hg as [Hg _].
    apply ret_done in Hx. destruct Hx as [<- _].
    exists k, data. split; [exact Hk'|]. split; [exact Hg | reflexivity].
Qed.

Lemma aggregator_requests_witness :
  match _fetch_videos_for_channel sample_platform 5
          (lit "https://www.youtube.com/@sample") 10 0%nat with
  | Done (result, n1) =>
      exists ids m1,
        fetch_video_ids sample_platform 5 (lit "UUsample") 10 2%nat
        = Done (ids, m1)
        /\ n1 = (m1 + (List.length ids + 49) / 50)%nat
  | _ => False
  end.
Proof.
  destruct (_fetch_videos_for_channel sample_platform 5
              (lit "https://www.youtube.com/@sample") 10 0%nat)
    as [[result n1]| |] eqn:E.
  - destruct (@aggregator_requests sample_platform 5 _ 10 0%nat n1 result E)
      as (cid & m0 & up & others & ids & m1 & parts & Hr & Hu & Hi & Hn & _).
    vm_compute in Hr. inversion Hr; subst cid m0.
    vm_compute in Hu. inversion Hu; subst up others.
    exists ids, m1. split; [exact Hi | exact Hn].
  - vm_compute in E. discriminate E.
  - vm_compute in E. discriminate E.
Defined.
